(** * Havok collision-geometry extractor: a shallow embedding

    Embedding of [tank_viewer/havok/model_extractor.py]: the two vertex
    codecs, the per-section index resolution of [HavokGeometry.__init__],
    the [tris] property and the tree walk of [read_geoms_from_havok].

    Conventions of the embedding.
    - [np.float32] / Python [float] values are IEEE-754 binary32 / binary64
      numbers, taken from the Standard Library's [SpecFloat] (round to
      nearest, ties to even, NaN without payload).
    - [np.uint32], [np.uint64] and [np.int64] array elements are [Z] with
      the wrap-around of every array operation written out.
    - A raised Python exception is a value of [PyExc]; code that may raise
      lives in the monad [Res].
    - NumPy arrays are lists; slicing, negative indices, broadcasting of
      a 1-D operand against an (n,3) array and slice assignment follow
      NumPy's rules and are written out below. The promotion rules are
      those of NumPy 2: a Python integer operand takes the integer type
      of the array it meets.
    - The scalars of the tag tree are covered where they have the kind
      the code expects of them (integers for indices and counts, integers
      or floats for coordinates); at another kind of scalar the embedding
      reports [TypeError] when the array or the field is built. The
      integers of an index list are covered in the [int64] range, where
      [np.stack] builds an array of integers (of floats if the lists are
      empty); an index outside is reported as [OverflowError]. *)

From Stdlib Require Import ZArith List Bool String Lia.
From Stdlib Require Import Floats.SpecFloat.
From Stdlib Require DecimalString DecimalNat.
From stdpp Require Import base option list gmap strings.

Local Open Scope string_scope.
Local Open Scope list_scope.
Local Open Scope Z_scope.

(** ** Python exceptions and the result monad *)

Inductive PyExc : Type :=
| KeyError (key : string)
| IndexError
| TypeError
| AttributeError
| ValueError
| OverflowError
| AssertionError.

(** The class name of an exception, as [type(e).__name__] gives it. *)
Definition exc_name (e : PyExc) : string :=
  match e with
  | KeyError _ => "KeyError"
  | IndexError => "IndexError"
  | TypeError => "TypeError"
  | AttributeError => "AttributeError"
  | ValueError => "ValueError"
  | OverflowError => "OverflowError"
  | AssertionError => "AssertionError"
  end.

Inductive Res (A : Type) : Type :=
| Ok (a : A)
| Raise (e : PyExc).
Arguments Ok {A} a.
Arguments Raise {A} e.

#[global] Instance Res_ret : MRet Res := fun _ a => Ok a.
#[global] Instance Res_bind : MBind Res := fun _ _ f m =>
  match m with
  | Ok a => f a
  | Raise e => Raise e
  end.
#[global] Instance Res_fmap : FMap Res := fun _ _ f m =>
  match m with
  | Ok a => Ok (f a)
  | Raise e => Raise e
  end.

Definition is_Ok {A} (r : Res A) : bool :=
  match r with Ok _ => true | Raise _ => false end.

Definition py_assert (b : bool) : Res unit :=
  if b then Ok tt else Raise AssertionError.

(** The [for] loop over a list with a body that may raise: the first
    exception leaves the loop. *)
Fixpoint for_each {S A} (body : S -> A -> Res S) (s : S) (l : list A) : Res S :=
  match l with
  | [] => Ok s
  | x :: l' => s' ← body s x; for_each body s' l'
  end.

(** ** Sequences: length, indexing, slicing *)

Definition len {A} (l : list A) : Z := Z.of_nat (length l).

(** NumPy / Python indexing [l[k]]: a negative [k] counts from the end,
    out of range raises [IndexError]. *)
Definition py_index {A} (l : list A) (k : Z) : Res A :=
  let k' := if k <? 0 then k + len l else k in
  if (0 <=? k') && (k' <? len l)
  then match l !! Z.to_nat k' with
       | Some x => Ok x
       | None => Raise IndexError
       end
  else Raise IndexError.

(** A slice bound [b] of [l[a:b]] clipped as Python does it. *)
Definition slice_bound (n k : Z) : Z :=
  if k <? 0 then Z.max 0 (k + n) else Z.min k n.

(** The half-open row range [(start, stop)] selected by [l[a:b]]
    ([stop <= start] selects nothing). *)
Definition slice_range (n a b : Z) : nat * nat :=
  (Z.to_nat (slice_bound n a), Z.to_nat (slice_bound n b)).

Definition py_slice {A} (l : list A) (a b : Z) : list A :=
  let '(i, j) := slice_range (len l) a b in
  take (j - i) (drop i l).

(** Rows [i, i + length rows) of [l] replaced by [rows]. *)
Definition replace_rows {A} (l : list A) (i : nat) (rows : list A) : list A :=
  take i l ++ rows ++ drop (i + length rows) l.

(** A store through the view [l[a:b]] of as many rows as the view has. *)
Definition slice_store {A} (l : list A) (a b : Z) (rows : list A) : list A :=
  replace_rows l (fst (slice_range (len l) a b)) rows.

(** [l[a:b] = src] for arrays with rows: the rows of [src] replace the
    selected rows; a single source row is broadcast; any other mismatch of
    the row counts raises [ValueError]. *)
Definition slice_assign {A} (l : list A) (a b : Z) (src : list A) : Res (list A) :=
  let '(i, j) := slice_range (len l) a b in
  let m := (j - i)%nat in
  if (length src =? m)%nat
  then Ok (replace_rows l i src)
  else match src with
       | [x] => Ok (replace_rows l i (replicate m x))
       | _ => Raise ValueError
       end.

(** ** Machine integers *)

Definition wrap_u32 (z : Z) : Z := z mod 2 ^ 32.
Definition wrap_i64 (z : Z) : Z := (z + 2 ^ 63) mod 2 ^ 64 - 2 ^ 63.

(** A Python integer used as operand of an array operation takes the
    integer type of the array (NumPy 2); it raises if it does not fit. *)
Definition as_i64 (z : Z) : Res Z :=
  if (- 2 ^ 63 <=? z) && (z <? 2 ^ 63) then Ok z else Raise OverflowError.
Definition as_u32 (z : Z) : Res Z :=
  if (0 <=? z) && (z <? 2 ^ 32) then Ok z else Raise OverflowError.

(** ** IEEE-754 numbers *)

Abbreviation float32 := spec_float (only parsing).
Abbreviation float64 := spec_float (only parsing).

Module F32.
Definition prec : Z := 24.
Definition emax : Z := 128.
Definition of_Z (n : Z) : float32 := binary_normalize prec emax n 0 false.
Definition mul : float32 -> float32 -> float32 := SFmul prec emax.
Definition add : float32 -> float32 -> float32 := SFadd prec emax.
Definition sub : float32 -> float32 -> float32 := SFsub prec emax.
Definition ltb : float32 -> float32 -> bool := SFltb.
Definition leb : float32 -> float32 -> bool := SFleb.
Definition eqb : float32 -> float32 -> bool := SFeqb.
Definition zero : float32 := S754_zero false.
Definition one : float32 := of_Z 1.
End F32.

Module F64.
Definition prec : Z := 53.
Definition emax : Z := 1024.
Definition of_Z (n : Z) : float64 := binary_normalize prec emax n 0 false.
Definition div : float64 -> float64 -> float64 := SFdiv prec emax.
(** The cast of a binary64 number to binary32 (storing into a
    [float32] array). *)
Definition to_f32 (x : float64) : float32 :=
  match x with
  | S754_finite s m e => binary_round F32.prec F32.emax s m e
  | _ => x
  end.
End F64.

Arguments F32.of_Z : simpl never.
Arguments F32.mul : simpl never.
Arguments F32.add : simpl never.
Arguments F32.sub : simpl never.
Arguments F64.of_Z : simpl never.
Arguments F64.div : simpl never.
Arguments F64.to_f32 : simpl never.

Definition is_nan (x : spec_float) : bool :=
  match x with S754_nan => true | _ => false end.

Definition is_finite (x : spec_float) : bool :=
  match x with S754_zero _ | S754_finite _ _ _ => true | _ => false end.

(** [np.maximum]-style and [np.minimum]-style kernels of [np.clip]:
    a NaN first operand is returned as it is, otherwise the C comparison
    [a > b ? a : b] (resp. [a < b ? a : b]) decides. *)
Definition clip_max (a b : float32) : float32 :=
  if is_nan a then a else if F32.ltb b a then a else b.
Definition clip_min (a b : float32) : float32 :=
  if is_nan a then a else if F32.ltb a b then a else b.
Definition np_clip (x lo hi : float32) : float32 :=
  clip_min (clip_max x lo) hi.

(** ** Vectors and vertices *)

(** A [Vec3f] is a 1-D [float32] array; the code builds it from at most
    three tag values, so its length is not fixed by the type. *)
Abbreviation Vec3f := (list float32) (only parsing).

(** A row of an (n,3) [float32] array. *)
Definition Vertex : Type := float32 * float32 * float32.

(** Broadcasting a 1-D operand against the rows of an (n,3) array: length
    3 is used as it is, length 1 is repeated, any other length raises
    [ValueError]. *)
Definition broadcast3 (v : Vec3f) : Res Vertex :=
  match v with
  | [a] => Ok (a, a, a)
  | [a; b; c] => Ok (a, b, c)
  | _ => Raise ValueError
  end.

Definition map3 (f : float32 -> float32 -> float32) (u v : Vertex) : Vertex :=
  let '(ux, uy, uz) := u in
  let '(vx, vy, vz) := v in
  (f ux vx, f uy vy, f uz vz).

Definition clip3 (u lo hi : Vertex) : Vertex :=
  let '(ux, uy, uz) := u in
  let '(lx, ly, lz) := lo in
  let '(hx, hy, hz) := hi in
  (np_clip ux lx hx, np_clip uy ly hy, np_clip uz lz hz).

(** ** The vertex codecs *)

Record CodecParams : Type := {
  min_xyz : Vec3f;
  scale_xyz : Vec3f
}.

(** The three bit fields of a packed 32-bit vertex, as [float32]
    (columns 0, 1, 2 of [res]). *)
Definition packed_raw (p : Z) : Vertex :=
  (F32.of_Z (Z.land p 0x7FF),
   F32.of_Z (Z.land (Z.shiftr p 11) 0x7FF),
   F32.of_Z (Z.land (Z.shiftr p 22) 0x3FF)).

Definition unpack_packed_vertices (packed : list Z) (codec : CodecParams)
    (sec_domain_min sec_domain_max : Vec3f) : Res (list Vertex) :=
  let res := map packed_raw packed in
  scale ← broadcast3 (scale_xyz codec);
  let res := map (fun r => map3 F32.mul r scale) res in
  mn ← broadcast3 (min_xyz codec);
  let res := map (fun r => map3 F32.add r mn) res in
  lo ← broadcast3 sec_domain_min;
  hi ← broadcast3 sec_domain_max;
  Ok (map (fun r => clip3 r lo hi) res).

(** A normalised field of a shared vertex: the division is done in
    binary64 and the quotient stored into a [float32] column. *)
Definition frac (field denom : Z) : float32 :=
  F64.to_f32 (F64.div (F64.of_Z field) (F64.of_Z denom)).

Definition shared_frac (s : Z) : Vertex :=
  (frac (Z.land s 0x1FFFFF) 0x1FFFFF,
   frac (Z.land (Z.shiftr s 21) 0x1FFFFF) 0x1FFFFF,
   frac (Z.land (Z.shiftr s 42) 0x3FFFFF) 0x3FFFFF).

(** [domain_max - domain_min] on two 1-D arrays: equal lengths, or one of
    them of length 1. *)
Definition vec_sub (u v : Vec3f) : Res Vec3f :=
  match u, v with
  | [a], _ => Ok (map (fun y => F32.sub a y) v)
  | _, [b] => Ok (map (fun x => F32.sub x b) u)
  | _, _ =>
      if (length u =? length v)%nat
      then Ok (zip_with F32.sub u v)
      else Raise ValueError
  end.

Definition unpack_shared_vertices (shared : list Z)
    (domain_min domain_max : Vec3f) : Res (list Vertex) :=
  let res := map shared_frac shared in
  d ← vec_sub domain_max domain_min;
  ext ← broadcast3 d;
  let res := map (fun r => map3 F32.mul r ext) res in
  mn ← broadcast3 domain_min;
  Ok (map (fun r => map3 F32.add r mn) res).

(** ** The tag object tree *)

(** Modelled from the spec: the [TagObject] class of [tag_tools] is not
    part of the sources at hand. A node carries a [value]; the value is a
    mapping from byte-string keys to nodes, an ordered sequence of nodes,
    a scalar (integer, float or string), or again a node (the code reaches
    some mappings through [.value.value]). *)
Inductive TagObject : Type :=
| Tag (value : TagValue)
with TagValue : Type :=
| VInt (n : Z)
| VFloat (x : float64)
| VStr (s : string)
| VSeq (items : list TagObject)
| VMap (entries : gmap string TagObject)
| VRef (target : TagObject).

Definition value (t : TagObject) : TagValue :=
  match t with Tag v => v end.

(** [repr] of a byte-string key, as it shows in a [KeyError]. *)
Definition bytes_repr (k : string) : string := "b'" +:+ k +:+ "'".

(** [v[k]] with a byte-string key [k]: only a mapping can be looked up. *)
Definition getitem (v : TagValue) (k : string) : Res TagObject :=
  match v with
  | VMap d => match d !! k with
              | Some t => Ok t
              | None => Raise (KeyError (bytes_repr k))
              end
  | _ => Raise TypeError
  end.

(** [v.value] where [v] is itself the value of a node: only a node has
    the attribute. *)
Definition attr_value (v : TagValue) : Res TagValue :=
  match v with
  | VRef t => Ok (value t)
  | _ => Raise AttributeError
  end.

(** [[x.value for x in v]], also the head of every [for x in v] loop of
    the code, whose body starts with [x.value]: the keys of a mapping and
    the characters of a string have no [value]. *)
Definition iter_values (v : TagValue) : Res (list TagValue) :=
  match v with
  | VSeq l => Ok (map value l)
  | VMap d => if decide (d = ∅) then Ok [] else Raise AttributeError
  | VStr s => if decide (s = "") then Ok [] else Raise AttributeError
  | VInt _ | VFloat _ | VRef _ => Raise TypeError
  end.

(** [v[:3]]. *)
Definition slice3 (v : TagValue) : Res TagValue :=
  match v with
  | VSeq l => Ok (VSeq (take 3 l))
  | VStr s => Ok (VStr (String.substring 0 3 s))
  | _ => Raise TypeError
  end.

(** [k in v] with a byte-string key [k]. A sequence holds nodes, none of
    which equals a byte string. *)
Definition contains (v : TagValue) (k : string) : Res bool :=
  match v with
  | VMap d => Ok (bool_decide (is_Some (d !! k)))
  | VSeq _ => Ok false
  | _ => Raise TypeError
  end.

(** [v != s] for a string literal [s]: a value of another kind differs
    from every string. *)
Definition ne_str (v : TagValue) (s : string) : bool :=
  match v with
  | VStr s' => negb (bool_decide (s' = s))
  | _ => true
  end.

(** [len(v)]. *)
Definition py_len (v : TagValue) : Res Z :=
  match v with
  | VSeq l => Ok (len l)
  | VMap d => Ok (Z.of_nat (size d))
  | VStr s => Ok (Z.of_nat (String.length s))
  | _ => Raise TypeError
  end.

(** [v[0].value]: the element of a sequence is a node; the characters of
    a string have no [value]; a mapping with byte-string keys has no key
    [0]. *)
Definition getitem0_value (v : TagValue) : Res TagValue :=
  match v with
  | VSeq l => value <$> py_index l 0
  | VMap _ => Raise (KeyError "0")
  | VStr _ => Raise AttributeError
  | _ => Raise TypeError
  end.

(** ** Building NumPy arrays from tag scalars

    The embedding covers scalars of the kind the array asks for: integers
    and floats for a [float32] array, integers for the integer arrays. A
    scalar of another kind is reported as [TypeError]. *)

Definition scalar_f32 (v : TagValue) : Res float32 :=
  match v with
  | VInt n => if is_finite (F64.of_Z n) then Ok (F64.to_f32 (F64.of_Z n))
              else Raise OverflowError
  | VFloat x => Ok (F64.to_f32 x)
  | _ => Raise TypeError
  end.

Definition scalar_int (lo hi : Z) (v : TagValue) : Res Z :=
  match v with
  | VInt n => if (lo <=? n) && (n <? hi) then Ok n else Raise OverflowError
  | _ => Raise TypeError
  end.

Definition np_array_f32 (vs : list TagValue) : Res Vec3f := mapM scalar_f32 vs.
Definition np_array_u32 (vs : list TagValue) : Res (list Z) :=
  mapM (scalar_int 0 (2 ^ 32)) vs.
Definition np_array_u64 (vs : list TagValue) : Res (list Z) :=
  mapM (scalar_int 0 (2 ^ 64)) vs.
Definition np_array_i64 (vs : list TagValue) : Res (list Z) :=
  mapM (scalar_int (- 2 ^ 63) (2 ^ 63)) vs.

(** The element type of the array [np.stack] builds from index lists.
    NumPy infers it: a list of integers of the [int64] range becomes an
    [int64] array, an empty list a [float64] array ([np.asanyarray([])]
    is of floats), and the stacked array takes the common type of the
    rows, which is [float64] as soon as one row is. An array of floats
    built in this way has no entry, so that the rows alone represent the
    array, and its element type is read off them. *)
Inductive dtype : Type := Int64 | Float64.

Definition row_dtype (row : list Z) : dtype :=
  match row with
  | [] => Float64
  | _ :: _ => Int64
  end.

Definition result_type (a b : dtype) : dtype :=
  match a, b with
  | Int64, Int64 => Int64
  | _, _ => Float64
  end.

Definition array_dtype (rows : list (list Z)) : dtype :=
  foldr (fun row d => result_type (row_dtype row) d) Int64 rows.

(** A Python integer used as operand of an operation on a [float64]
    array is converted to [float64]; it raises if it is too large. *)
Definition as_f64 (z : Z) : Res float64 :=
  if is_finite (F64.of_Z z) then Ok (F64.of_Z z) else Raise OverflowError.

(** [np.stack] of a list of rows: at least one row, all of one length.
    The result has the element type [array_dtype] of its rows. *)
Definition np_stack (rows : list (list Z)) : Res (list (list Z)) :=
  match rows with
  | [] => Raise ValueError
  | r :: rest =>
      if forallb (fun r' => (length r' =? length r)%nat) rest
      then Ok rows
      else Raise ValueError
  end.

(** The attribute of a dataclass field declared [int]. The source stores
    whatever the node holds; the embedding keeps integers only. *)
Definition int_field (v : TagValue) : Res Z :=
  match v with
  | VInt n => Ok n
  | _ => Raise TypeError
  end.

(** [[x.value for x in node[b'domain'].value[key].value[:3]]] as a
    [float32] array. *)
Definition read_domain (node : TagValue) (key : string) : Res Vec3f :=
  d ← getitem node "domain";
  b ← getitem (value d) key;
  s ← slice3 (value b);
  xs ← iter_values s;
  np_array_f32 xs.

(** ** Sections *)

Module HavokSection.
Record t : Type := {
  domain_min : Vec3f;
  domain_max : Vec3f;
  codec_params : CodecParams;
  firstPackedVertexIndex : Z;
  firstSharedVertexIndex : Z;
  firstPrimitiveIndex : Z;
  numPackedVertices : Z;
  numPrimitives : Z;
  firstDataRunIndex : Z;
  numDataRuns : Z
}.

(** [section[key].value] of a field declared [int]. *)
Definition read_int (section : TagValue) (key : string) : Res Z :=
  f ← getitem section key;
  int_field (value f).

(** [HavokSection.__init__]. *)
Definition init (section : TagValue) : Res t :=
  dmin ← read_domain section "min";
  dmax ← read_domain section "max";
  c ← getitem section "codecParms";
  codec_values ← iter_values (value c);
  mn ← np_array_f32 (take 3 codec_values);
  sc ← np_array_f32 (take 3 (drop 3 codec_values));
  fpv ← read_int section "firstPackedVertexIndex";
  fsv ← read_int section "firstSharedVertexIndex";
  fp ← read_int section "firstPrimitiveIndex";
  npv ← read_int section "numPackedVertices";
  np ← read_int section "numPrimitives";
  fdr ← read_int section "firstDataRunIndex";
  ndr ← read_int section "numDataRuns";
  Ok {| domain_min := dmin; domain_max := dmax;
        codec_params := {| min_xyz := mn; scale_xyz := sc |};
        firstPackedVertexIndex := fpv; firstSharedVertexIndex := fsv;
        firstPrimitiveIndex := fp; numPackedVertices := npv;
        numPrimitives := np; firstDataRunIndex := fdr;
        numDataRuns := ndr |}.
End HavokSection.

(** ** Index resolution of one section

    The four array statements on [prim_slice] work on the elements of the
    slice in row-major order; [flat] is that order. *)

(** [xs[mask]]. *)
Fixpoint select (mask : list bool) (xs : list Z) : list Z :=
  match mask, xs with
  | b :: mask', x :: xs' => if b then x :: select mask' xs' else select mask' xs'
  | _, _ => []
  end.

(** [xs[mask] = vals], [vals] holding one value per selected place. *)
Fixpoint scatter (mask : list bool) (xs vals : list Z) : list Z :=
  match mask, xs with
  | true :: mask', x :: xs' =>
      match vals with
      | v :: vals' => v :: scatter mask' xs' vals'
      | [] => x :: scatter mask' xs' []
      end
  | false :: mask', x :: xs' => x :: scatter mask' xs' vals
  | _, _ => xs
  end.

(** [xs[~mask] += d] on an [int64] array. *)
Fixpoint add_unmasked (mask : list bool) (xs : list Z) (d : Z) : list Z :=
  match mask, xs with
  | b :: mask', x :: xs' =>
      (if b then x else wrap_i64 (x + d)) :: add_unmasked mask' xs' d
  | _, _ => xs
  end.

(** The rows of a flat array, given the row lengths. *)
Fixpoint unflatten (widths : list nat) (flat : list Z) : list (list Z) :=
  match widths with
  | [] => []
  | w :: widths' => take w flat :: unflatten widths' (drop w flat)
  end.

(** The body of the statements on [prim_slice], on the flat slice:
[[
   mask = prim_slice >= sec.numPackedVertices
   shared_indices = prim_slice - sec.numPackedVertices
   prim_slice[mask] = self.packedVertices.size
       + self.sharedVerticesIndex[sec.firstSharedVertexIndex + shared_indices[mask]]
   prim_slice[~mask] += sec.firstPackedVertexIndex
]]
    on an [int64] array. [shared_indices] and the index array are [int64];
    the gathered entries are [uint32] and so is their sum with the Python
    integer [packedVertices.size]. *)
Definition resolve_flat (sec : HavokSection.t) (sharedVerticesIndex : list Z)
    (packed_size : Z) (flat : list Z) : Res (list Z) :=
  let mask := map (fun v => HavokSection.numPackedVertices sec <=? v) flat in
  n ← as_i64 (HavokSection.numPackedVertices sec);
  let shared_indices := map (fun v => wrap_i64 (v - n)) flat in
  fs ← as_i64 (HavokSection.firstSharedVertexIndex sec);
  let idx := map (fun k => wrap_i64 (fs + k)) (select mask shared_indices) in
  gathered ← mapM (py_index sharedVerticesIndex) idx;
  size ← as_u32 packed_size;
  let flat := scatter mask flat (map (fun x => wrap_u32 (size + x)) gathered) in
  fp ← as_i64 (HavokSection.firstPackedVertexIndex sec);
  Ok (add_unmasked mask flat fp).

(** The same statements on a [float64] array: the comparison and the
    subtraction convert [numPackedVertices] to [float64], the sum converts
    [firstSharedVertexIndex], and [sharedVerticesIndex] then refuses the
    index array, which is of floats, whatever it holds and also when it
    is empty. *)
Definition resolve_float (sec : HavokSection.t) : Res (list Z) :=
  _ ← as_f64 (HavokSection.numPackedVertices sec);
  _ ← as_f64 (HavokSection.firstSharedVertexIndex sec);
  Raise IndexError.

(** The rewrite of the primitive slice of one section, written back into
    [primitives] (the slice is a view, of the element type of
    [primitives]). *)
Definition resolve_section (sec : HavokSection.t) (sharedVerticesIndex : list Z)
    (packed_size : Z) (primitives : list (list Z)) : Res (list (list Z)) :=
  let a := HavokSection.firstPrimitiveIndex sec in
  let b := HavokSection.firstPrimitiveIndex sec + HavokSection.numPrimitives sec in
  let prim_slice := py_slice primitives a b in
  flat ← match array_dtype primitives with
         | Int64 => resolve_flat sec sharedVerticesIndex packed_size
                      (concat prim_slice)
         | Float64 => resolve_float sec
         end;
  Ok (slice_store primitives a b (unflatten (map length prim_slice) flat)).

(** ** Geometries *)

Module HavokGeometry.
(** A row of [verts] is [None] until it has been stored to: [np.empty]
    leaves the rows uninitialised. *)
Record t : Type := {
  name : TagValue;
  domain_min : Vec3f;
  domain_max : Vec3f;
  primitives : list (list Z);
  sharedVertices : list Z;
  sharedVerticesIndex : list Z;
  packedVertices : list Z;
  sections : list HavokSection.t;
  verts : list (option Vertex)
}.

(** [[_i.value for _i in x.value[b'indices'].value]] for the value
    [xv] of one primitive [x]. *)
Definition read_indices (xv : TagValue) : Res (list Z) :=
  i ← getitem xv "indices";
  vs ← iter_values (value i);
  np_array_i64 vs.

(** [[x.value for x in meshTree[key].value]]. *)
Definition read_values (meshTree : TagValue) (key : string) : Res (list TagValue) :=
  a ← getitem meshTree key;
  iter_values (value a).

(** The body of [for sec in self.sections], on the two arrays it
    stores to. *)
Definition section_step (packedVertices sharedVerticesIndex : list Z)
    (st : list (option Vertex) * list (list Z)) (sec : HavokSection.t)
    : Res (list (option Vertex) * list (list Z)) :=
  let '(verts, primitives) := st in
  let a := HavokSection.firstPackedVertexIndex sec in
  let b := HavokSection.firstPackedVertexIndex sec
           + HavokSection.numPackedVertices sec in
  verts ←
    (if 0 <? HavokSection.numPackedVertices sec
     then
       let packed_slice := py_slice packedVertices a b in
       decoded ← unpack_packed_vertices packed_slice
                   (HavokSection.codec_params sec)
                   (HavokSection.domain_min sec)
                   (HavokSection.domain_max sec);
       slice_assign verts a b (map Some decoded)
     else Ok verts);
  primitives ← resolve_section sec sharedVerticesIndex (len packedVertices) primitives;
  Ok (verts, primitives).

(** [HavokGeometry.__init__]. *)
Definition init (name : TagValue) (meshTree : TagValue) : Res t :=
  dmin ← read_domain meshTree "min";
  dmax ← read_domain meshTree "max";
  prims ← read_values meshTree "primitives";
  rows ← mapM read_indices prims;
  primitives ← np_stack rows;
  svi ← read_values meshTree "sharedVerticesIndex";
  sharedVerticesIndex ← np_array_u32 svi;
  secs ← read_values meshTree "sections";
  sections ← mapM HavokSection.init secs;
  sv ← read_values meshTree "sharedVertices";
  sharedVertices ← np_array_u64 sv;
  pv ← read_values meshTree "packedVertices";
  packedVertices ← np_array_u32 pv;
  let verts : list (option Vertex) :=
    replicate (length packedVertices + length sharedVertices) None in
  shared ← unpack_shared_vertices sharedVertices dmin dmax;
  verts ← slice_assign verts (len packedVertices) (len verts) (map Some shared);
  st ← for_each (section_step packedVertices sharedVerticesIndex)
         (verts, primitives) sections;
  Ok {| name := name; domain_min := dmin; domain_max := dmax;
        primitives := snd st; sharedVertices := sharedVertices;
        sharedVerticesIndex := sharedVerticesIndex;
        packedVertices := packedVertices; sections := sections;
        verts := fst st |}.

(** [row[cols]] for a list of column numbers. *)
Definition columns (cols : list Z) (row : list Z) : Res (list Z) :=
  mapM (py_index row) cols.

(** [.reshape(-1, 3)] of a flat array. *)
Fixpoint reshape3 (flat : list Z) : list (Z * Z * Z) :=
  match flat with
  | a :: b :: c :: flat' => (a, b, c) :: reshape3 flat'
  | _ => []
  end.

Definition dupes (tri : Z * Z * Z) : bool :=
  let '(t0, t1, t2) := tri in
  (t0 =? t1) || (t1 =? t2) || (t0 =? t2).

(** The [tris] property:
[[
 _tris = self.primitives[:, [0, 1, 2, 0, 2, 3]].reshape(-1, 3)
 dupes = (_tris[:, 0] == _tris[:, 1]) | (_tris[:, 1] == _tris[:, 2]) | (_tris[:, 0] == _tris[:, 2])
 return _tris[~dupes]
]] *)
Definition tris (primitives : list (list Z)) : Res (list (Z * Z * Z)) :=
  picked ← mapM (columns [0; 1; 2; 0; 2; 3]) primitives;
  let _tris := reshape3 (concat picked) in
  Ok (List.filter (fun tri => negb (dupes tri)) _tris).
End HavokGeometry.

(** ** The extractor *)

Section Extractor.
(** [TagFileType] and [TagReader] come from [tag_tools], which is not
    part of the sources at hand; they are parameters of the walk. *)
Context {TagFileType : Type} `{EqDecision TagFileType}.
Context {IO : Type}.
Variable Object : TagFileType.
Variable checkIO : IO -> TagFileType.
Variable fromIO : IO -> Res TagObject.

(** [body.value[b'shape'].value.value] for the value [body] of a body
    info. *)
Definition shape_of (body : TagValue) : Res TagValue :=
  sh ← getitem body "shape";
  attr_value (value sh).

(** The body of [for subSubVal in subVal[b'bodyCinfos'].value]. *)
Definition body_step (out : list HavokGeometry.t) (body : TagValue)
    : Res (list HavokGeometry.t) :=
  shape ← shape_of body;
  has_data ← contains shape "data";
  if has_data : bool then
    name ← getitem body "name";
    shape ← shape_of body;
    data ← getitem shape "data";
    dv ← attr_value (value data);
    meshTree ← getitem dv "meshTree";
    g ← HavokGeometry.init (value name) (value meshTree);
    Ok (out ++ [g])
  else Ok out.

(** The body of [for val in vals]. *)
Definition handle_step (out : list HavokGeometry.t) (val : TagValue)
    : Res (list HavokGeometry.t) :=
  v ← attr_value val;
  name ← getitem v "name";
  if ne_str (value name) "Collision Physics Data" then Ok out
  else
    var ← getitem v "variant";
    subVal ← attr_value (value var);
    has_bodies ← contains subVal "bodyCinfos";
    if has_bodies : bool then
      bodies ← getitem subVal "bodyCinfos";
      bodies ← iter_values (value bodies);
      for_each body_step out bodies
    else Ok out.

(** What follows the two assertions. *)
Definition extract (root_tag : TagObject) : Res (list HavokGeometry.t) :=
  nv ← getitem (value root_tag) "namedVariants";
  first ← getitem0_value (value nv);
  var ← getitem first "variant";
  vv ← attr_value (value var);
  rh ← getitem vv "resourceHandles";
  vals ← iter_values (value rh);
  for_each handle_step [] vals.

Definition read_geoms_from_havok (f : IO) : Res (list HavokGeometry.t) :=
  _ ← py_assert (bool_decide (checkIO f = Object));
  root_tag ← fromIO f;
  nv ← getitem (value root_tag) "namedVariants";
  n ← py_len (value nv);
  _ ← py_assert (n =? 1);
  extract root_tag.
End Extractor.

(** ** Specification-side definitions

    The definitions below follow the words of the specification; the
    theorems compare them with the embedding of the code above. *)

(** A quad [(a, b, c, d)] and its row in the [primitives] array. *)
Definition Quad : Type := Z * Z * Z * Z.

Definition quad_row (q : Quad) : list Z :=
  let '(a, b, c, d) := q in [a; b; c; d].

(** The two candidate triangles of the fan split, first candidate first. *)
Definition candidates (q : Quad) : list (Z * Z * Z) :=
  let '(a, b, c, d) := q in [(a, b, c); (a, c, d)].

(** A candidate is degenerate if any two of its three indices are equal. *)
Definition degenerate (tri : Z * Z * Z) : Prop :=
  let '(a, b, c) := tri in a = b \/ b = c \/ a = c.

#[global] Instance degenerate_dec tri : Decision (degenerate tri).
Proof. destruct tri as [[a b] c]; simpl; apply _. Defined.

(** Quad by quad, the candidates that are not degenerate. *)
Definition triangulate (quads : list Quad) : list (Z * Z * Z) :=
  flat_map (fun q => filter (fun tri => ~ degenerate tri) (candidates q)) quads.

(** What the extractor looks at in a body info: whether it has shape
    data and, if so, its [name] and its [shape.data.meshTree] subtree. *)
Inductive BodyInfo : Type :=
| NoShapeData
| ShapeData (name meshTree : TagValue).

(** What the extractor looks at in a resource entry: its [name] and, for
    an entry of the wanted name, the [bodyCinfos] sequence of its variant
    when there is one. *)
Record ResourceEntry : Type := {
  entry_name : TagValue;
  bodyCinfos : option (list BodyInfo)
}.

Definition as_map (v : TagValue) : option (gmap string TagObject) :=
  match v with VMap d => Some d | _ => None end.

Definition as_seq (v : TagValue) : option (list TagObject) :=
  match v with VSeq l => Some l | _ => None end.

(** The mapping reached through [.value.value] from a node. *)
Definition ref_map (t : TagObject) : option (gmap string TagObject) :=
  match value t with
  | VRef t' => as_map (value t')
  | _ => None
  end.

(** The value [body] of a body info read as a [BodyInfo]; [None] when a
    node on the way has not the expected kind. *)
Definition body_view (body : TagValue) : option BodyInfo :=
  d ← as_map body;
  shape ← d !! "shape";
  sd ← ref_map shape;
  match sd !! "data" with
  | None => Some NoShapeData
  | Some data =>
      dd ← ref_map data;
      name ← d !! "name";
      meshTree ← dd !! "meshTree";
      Some (ShapeData (value name) (value meshTree))
  end.

(** The value [val] of a resource handle read as a [ResourceEntry]. *)
Definition entry_view (val : TagValue) : option ResourceEntry :=
  match val with
  | VRef t =>
      d ← as_map (value t);
      name ← d !! "name";
      if ne_str (value name) "Collision Physics Data"
      then Some {| entry_name := value name; bodyCinfos := None |}
      else
        var ← d !! "variant";
        sub ← ref_map var;
        match sub !! "bodyCinfos" with
        | None => Some {| entry_name := value name; bodyCinfos := None |}
        | Some bodies =>
            l ← as_seq (value bodies);
            infos ← mapM body_view (map value l);
            Some {| entry_name := value name; bodyCinfos := Some infos |}
        end
  | _ => None
  end.

(** The root tag read as the list of its resource entries: a single
    named variant whose variant holds the [resourceHandles] sequence. *)
Definition root_view (root_tag : TagObject) : option (list ResourceEntry) :=
  d ← as_map (value root_tag);
  nv ← d !! "namedVariants";
  l ← as_seq (value nv);
  match l with
  | [first] =>
      fd ← as_map (value first);
      var ← fd !! "variant";
      vd ← ref_map var;
      rh ← vd !! "resourceHandles";
      vals ← as_seq (value rh);
      mapM entry_view (map value vals)
  | _ => None
  end.

(** The bodies the specification selects, as (name, meshTree) pairs in
    traversal order: entries named "Collision Physics Data", their
    [bodyCinfos] if present, the bodies with shape data. *)
Definition bodies_with_shape_data (infos : list BodyInfo) : list (TagValue * TagValue) :=
  flat_map (fun b => match b with
                     | ShapeData n m => [(n, m)]
                     | NoShapeData => []
                     end) infos.

Definition selected (entries : list ResourceEntry) : list (TagValue * TagValue) :=
  flat_map (fun e =>
              if ne_str (entry_name e) "Collision Physics Data" then []
              else match bodyCinfos e with
                   | Some infos => bodies_with_shape_data infos
                   | None => []
                   end) entries.

(** One Geometry from a selected body. *)
Definition build (b : TagValue * TagValue) : Res HavokGeometry.t :=
  HavokGeometry.init (fst b) (snd b).
Arguments build : simpl never.

(** ** Sample inputs *)

Definition mk_map (l : list (string * TagValue)) : TagValue :=
  VMap (list_to_map (map (fun kv => (fst kv, Tag (snd kv))) l)).
Definition mk_seq (l : list TagValue) : TagValue := VSeq (map Tag l).
Definition mk_ints (l : list Z) : TagValue := mk_seq (map VInt l).
Definition mk_ref (v : TagValue) : TagValue := VRef (Tag v).

(** A domain [[lo, hi]] on the three axes (a fourth component, as a
    four-float vector has it, is cut off by [[:3]]). *)
Definition mk_domain (lo hi : Z) : TagValue :=
  mk_map [("min", mk_ints [lo; lo; lo; 0]); ("max", mk_ints [hi; hi; hi; 0])].

Definition mk_section (lo hi : Z) (codec : list Z)
    (firstPacked firstShared firstPrim numPacked numPrims : Z) : TagValue :=
  mk_map [("domain", mk_domain lo hi); ("codecParms", mk_ints codec);
          ("firstPackedVertexIndex", VInt firstPacked);
          ("firstSharedVertexIndex", VInt firstShared);
          ("firstPrimitiveIndex", VInt firstPrim);
          ("numPackedVertices", VInt numPacked);
          ("numPrimitives", VInt numPrims);
          ("firstDataRunIndex", VInt 0);
          ("numDataRuns", VInt 0)].

Definition mk_mesh (lo hi : Z) (prims : list (list Z)) (svi : list Z)
    (sections : list TagValue) (shared packed : list Z) : TagValue :=
  mk_map [("domain", mk_domain lo hi);
          ("primitives", mk_seq (map (fun r => mk_map [("indices", mk_ints r)]) prims));
          ("sharedVerticesIndex", mk_ints svi);
          ("sections", mk_seq sections);
          ("sharedVertices", mk_ints shared);
          ("packedVertices", mk_ints packed)].

Definition mk_body (name : string) (meshTree : TagValue) : TagValue :=
  mk_map [("name", VStr name);
          ("shape", mk_ref (mk_map [("data", mk_ref (mk_map [("meshTree", meshTree)]))]))].

Definition mk_body_without_data (name : string) : TagValue :=
  mk_map [("name", VStr name); ("shape", mk_ref (mk_map []))].

Definition mk_entry (name : string) (bodies : list TagValue) : TagValue :=
  mk_ref (mk_map [("name", VStr name);
                  ("variant", mk_ref (mk_map [("bodyCinfos", mk_seq bodies)]))]).

Definition mk_root (entries : list TagValue) : TagObject :=
  Tag (mk_map [("namedVariants",
                mk_seq [mk_map [("variant",
                                 mk_ref (mk_map [("resourceHandles", mk_seq entries)]))]])]).

(** One section owning two packed vertices and one quad; the shared-index
    table is [[5]] and six shared vertices follow the packed ones. *)
Definition sample_mesh : TagValue :=
  mk_mesh 0 1 [[0; 1; 2; 2]] [5]
    [mk_section 0 1 [0; 0; 0; 1; 1; 1] 0 0 0 2 1]
    [0; 0; 0; 0; 0; 0x1FFFFF] [0; 1].

(** A mesh whose only section lacks every key. *)
Definition broken_mesh : TagValue :=
  mk_mesh 0 1 [[0; 1; 2; 2]] [5] [mk_map []] [0; 0; 0; 0; 0; 0x1FFFFF] [0; 1].

(** Two resource entries; the one of the wanted name holds a body with
    shape data and a body without. *)
Definition sample_root : TagObject :=
  mk_root [mk_entry "Other Data" [mk_body "n_other" sample_mesh];
           mk_entry "Collision Physics Data"
             [mk_body "n_hull" sample_mesh; mk_body_without_data "n_box"]].

(** Two bodies with shape data, the second one with a broken section. *)
Definition half_broken_root : TagObject :=
  mk_root [mk_entry "Collision Physics Data"
             [mk_body "n_hull" sample_mesh; mk_body "n_turret" broken_mesh]].

(** A tag file with no named variant, and one with two. *)
Definition no_variant_root : TagObject :=
  Tag (mk_map [("namedVariants", mk_seq [])]).
Definition two_variant_root : TagObject :=
  Tag (mk_map [("namedVariants", mk_seq [mk_map []; mk_map []])]).

(** A reader for the samples: the stream is the parsed tree itself and
    the file type is a flag. *)
Definition sample_checkIO (f : bool * TagObject) : bool := fst f.
Definition sample_fromIO (f : bool * TagObject) : Res TagObject := Ok (snd f).


Definition half_broken_entries : list ResourceEntry :=
  [ {| entry_name := VStr "Collision Physics Data";
       bodyCinfos := Some [ShapeData (VStr "n_hull") sample_mesh;
                           ShapeData (VStr "n_turret") broken_mesh] |} ].

(** The keys [HavokSection.__init__] looks up in the section mapping, in
    the order of evaluation. *)
Definition section_keys : list string :=
  ["domain"; "codecParms"; "firstPackedVertexIndex"; "firstSharedVertexIndex";
   "firstPrimitiveIndex"; "numPackedVertices"; "numPrimitives";
   "firstDataRunIndex"; "numDataRuns"].

(** What [HavokSection.__init__] evaluates for one of these keys. *)
Definition section_part (section : TagValue) (k : string) : Res unit :=
  if String.eqb k "domain" then
    _ ← read_domain section "min";
    _ ← read_domain section "max";
    Ok tt
  else if String.eqb k "codecParms" then
    c ← getitem section "codecParms";
    codec_values ← iter_values (value c);
    _ ← np_array_f32 (take 3 codec_values);
    _ ← np_array_f32 (take 3 (drop 3 codec_values));
    Ok tt
  else
    _ ← HavokSection.read_int section k;
    Ok tt.

(** What [HavokGeometry.__init__] evaluates before it builds the
    sections. *)
Definition geometry_head (meshTree : TagValue) : Res unit :=
  _ ← read_domain meshTree "min";
  _ ← read_domain meshTree "max";
  prims ← HavokGeometry.read_values meshTree "primitives";
  rows ← mapM HavokGeometry.read_indices prims;
  _ ← np_stack rows;
  svi ← HavokGeometry.read_values meshTree "sharedVerticesIndex";
  _ ← np_array_u32 svi;
  Ok tt.

(** A section whose [domain.min] is an empty sequence and whose
    [codecParms] holds two values only. *)
Definition short_section : TagValue :=
  mk_map [("domain", mk_map [("min", mk_ints []); ("max", mk_ints [1; 1; 1])]);
          ("codecParms", mk_ints [0; 1]);
          ("firstPackedVertexIndex", VInt 0);
          ("firstSharedVertexIndex", VInt 0);
          ("firstPrimitiveIndex", VInt 0);
          ("numPackedVertices", VInt 0);
          ("numPrimitives", VInt 0);
          ("firstDataRunIndex", VInt 0);
          ("numDataRuns", VInt 0)].

(** A section with a [domain] that has no [min]. *)
Definition no_min_section : TagValue :=
  mk_map [("domain", mk_map [("max", mk_ints [1; 1; 1])])].

(** The rewrite of one corner value [v] of a section: a section-local
    packed index is offset by [firstPackedVertexIndex] (an [int64] sum);
    a shared reference goes through [sharedVerticesIndex] and is offset by
    the number of packed vertices (a [uint32] sum). *)
Definition resolve_corner (sec : HavokSection.t) (sharedVerticesIndex : list Z)
    (packed_size : Z) (v : Z) : Res Z :=
  if HavokSection.numPackedVertices sec <=? v then
    x ← py_index sharedVerticesIndex
          (wrap_i64 (HavokSection.firstSharedVertexIndex sec
                     + wrap_i64 (v - HavokSection.numPackedVertices sec)));
    Ok (wrap_u32 (packed_size + x))
  else Ok (wrap_i64 (v + HavokSection.firstPackedVertexIndex sec)).

(** Row [i] lies in the primitive slice of [sec], for an array of [n]
    rows. *)
Definition in_prim_slice (sec : HavokSection.t) (n : Z) (i : nat) : Prop :=
  let r := slice_range n (HavokSection.firstPrimitiveIndex sec)
             (HavokSection.firstPrimitiveIndex sec + HavokSection.numPrimitives sec) in
  (fst r <= i < snd r)%nat.

(** The scalar operands of the rewrite fit the integer types of the
    arrays they meet. *)
Definition operands_fit (sec : HavokSection.t) (packed_size : Z) : Prop :=
  - 2 ^ 63 <= HavokSection.numPackedVertices sec < 2 ^ 63
  /\ - 2 ^ 63 <= HavokSection.firstSharedVertexIndex sec < 2 ^ 63
  /\ - 2 ^ 63 <= HavokSection.firstPackedVertexIndex sec < 2 ^ 63
  /\ 0 <= packed_size < 2 ^ 32.

(** A section record: two packed vertices starting at global index 3, one
    quad, shared references starting at entry 0 of the table. *)
Definition sample_section : HavokSection.t :=
  {| HavokSection.domain_min := [F32.zero; F32.zero; F32.zero];
     HavokSection.domain_max := [F32.one; F32.one; F32.one];
     HavokSection.codec_params :=
       {| min_xyz := [F32.zero; F32.zero; F32.zero];
          scale_xyz := [F32.one; F32.one; F32.one] |};
     HavokSection.firstPackedVertexIndex := 3;
     HavokSection.firstSharedVertexIndex := 0;
     HavokSection.firstPrimitiveIndex := 1;
     HavokSection.numPackedVertices := 2;
     HavokSection.numPrimitives := 1;
     HavokSection.firstDataRunIndex := 0;
     HavokSection.numDataRuns := 0 |}.

(** One section owning the single packed vertex and the single quad; the
    quad refers to the packed vertex and three times to shared reference
    0, whose table entry is the largest [uint32]. *)
Definition wrapping_mesh : TagValue :=
  mk_mesh 0 1 [[0; 1; 1; 1]] [4294967295]
    [mk_section 0 1 [0; 0; 0; 1; 1; 1] 0 0 0 1 1] [0] [0].

(** As [sample_mesh], with a single shared vertex: the table entry 5
    points past the end of the shared vertices. *)
Definition out_of_range_mesh : TagValue :=
  mk_mesh 0 1 [[0; 1; 2; 2]] [5]
    [mk_section 0 1 [0; 0; 0; 1; 1; 1] 0 0 0 2 1] [0] [0; 1].

(** Index [i] lies in the packed-vertex range
    [[firstPackedVertexIndex, firstPackedVertexIndex + numPackedVertices)]
    of [sec]. *)
Definition owns (sec : HavokSection.t) (i : Z) : Prop :=
  HavokSection.firstPackedVertexIndex sec <= i
  < HavokSection.firstPackedVertexIndex sec + HavokSection.numPackedVertices sec.

(** The packed-vertex ranges of the sections are pairwise disjoint and
    their union is [[0, total)]. *)
Definition packed_ranges_partition (sections : list HavokSection.t) (total : Z) : Prop :=
  (forall (k k' : nat) s s' i,
     sections !! k = Some s -> sections !! k' = Some s' -> k <> k' ->
     ~ (owns s i /\ owns s' i))
  /\ (forall s i, In s sections -> owns s i -> 0 <= i < total)
  /\ (forall i, 0 <= i < total -> exists s, In s sections /\ owns s i).

(** A coordinate inside, resp. outside, the interval [[lo, hi]], with the
    comparisons of IEEE-754 (every comparison with NaN is false). *)
Definition inside (lo x hi : spec_float) : Prop :=
  F32.leb lo x = true /\ F32.leb x hi = true.

Definition outside (lo x hi : spec_float) : Prop :=
  F32.ltb x lo = true \/ F32.ltb hi x = true.

(** One packed vertex decoded with three-component parameters. *)
Definition decode_packed (p : Z) (scale mn lo hi : Vertex) : Vertex :=
  clip3 (map3 F32.add (map3 F32.mul (packed_raw p) scale) mn) lo hi.

(** One shared vertex decoded with a three-component domain. *)
Definition decode_shared (s : Z) (lo hi : Vertex) : Vertex :=
  map3 F32.add (map3 F32.mul (shared_frac s) (map3 F32.sub hi lo)) lo.

Definition vx (v : Vertex) : spec_float := fst (fst v).
Definition vy (v : Vertex) : spec_float := snd (fst v).
Definition vz (v : Vertex) : spec_float := snd v.

Definition vec (v : Vertex) : list spec_float := [vx v; vy v; vz v].

(** Component-wise [lo <= hi]. *)
Definition le3 (lo hi : Vertex) : Prop :=
  F32.leb (vx lo) (vx hi) = true
  /\ F32.leb (vy lo) (vy hi) = true
  /\ F32.leb (vz lo) (vz hi) = true.

(** The raw integers [0 .. n-1]. *)
Definition upto (n : nat) : list Z := map Z.of_nat (seq 0 n).

Definition inside3 (lo v hi : Vertex) : Prop :=
  inside (vx lo) (vx v) (vx hi)
  /\ inside (vy lo) (vy v) (vy hi)
  /\ inside (vz lo) (vz v) (vz hi).

(** Some coordinate of [v] lies outside its interval. *)
Definition outside3 (lo v hi : Vertex) : Prop :=
  outside (vx lo) (vx v) (vx hi)
  \/ outside (vy lo) (vy v) (vy hi)
  \/ outside (vz lo) (vz v) (vz hi).

Definition nan_free (v : Vertex) : Prop :=
  is_nan (vx v) = false /\ is_nan (vy v) = false /\ is_nan (vz v) = false.

Definition finite3 (v : Vertex) : Prop :=
  is_finite (vx v) = true /\ is_finite (vy v) = true /\ is_finite (vz v) = true.

(** Numerical equality of the three coordinates ([-0.0 == 0.0]). *)
Definition eq3 (u v : Vertex) : Prop :=
  F32.eqb (vx u) (vx v) = true
  /\ F32.eqb (vy u) (vy v) = true
  /\ F32.eqb (vz u) (vz v) = true.

Definition zeros : Vertex := (F32.zero, F32.zero, F32.zero).
Definition ones : Vertex := (F32.one, F32.one, F32.one).

(** One section with the packed vertex 0 and a codec scale of 2^128 on
    every axis, a number too large for [float32], in the domain
    [[0, 1]]. *)
Definition nan_mesh : TagValue :=
  mk_mesh 0 1 [[0; 0; 0; 0]] []
    [mk_section 0 1 [0; 0; 0; 2 ^ 128; 2 ^ 128; 2 ^ 128] 0 0 0 1 1] [] [0].

(** The value [raw * scale + min] before clamping. *)
Definition affine_packed (p : Z) (scale mn : Vertex) : Vertex :=
  map3 F32.add (map3 F32.mul (packed_raw p) scale) mn.

(** [np.float32(a / b)] for two Python integers. *)
Definition f32_of_ratio (a b : Z) : spec_float :=
  F64.to_f32 (F64.div (F64.of_Z a) (F64.of_Z b)).

(** The domain [[-0.7, 0.5]] on the three axes. *)
Definition lo_07 : Vertex :=
  (f32_of_ratio (-7) 10, f32_of_ratio (-7) 10, f32_of_ratio (-7) 10).
Definition hi_05 : Vertex :=
  (f32_of_ratio 1 2, f32_of_ratio 1 2, f32_of_ratio 1 2).

(** ** Rounding invariants *)

(** The mantissa of a shift record is at most [2^k], and below it when
    bits have been lost. *)
Definition bound_inv (k : Z) (mrs : shr_record) : Prop :=
  0 <= shr_m mrs <= 2 ^ k
  /\ (loc_of_shr_record mrs <> loc_Exact -> shr_m mrs < 2 ^ k).


(** The parameters of a binary format the lemmas below apply to. *)
Definition format_ok (prec emax : Z) : Prop :=
  0 < prec /\ prec <= emax /\ 2 <= emax.


(** A result that is [+0] or a positive number of value at most one, in
    the format of precision [prec]. *)
Definition le_one (prec : Z) (r : spec_float) : Prop :=
  r = S754_zero false
  \/ exists m e, r = S754_finite false m e
                 /\ e <= 1 - prec /\ Zpos m <= 2 ^ (- e).

(** ** Further definitions: broadcasting, shapes, composition

    The definitions below state the properties of the later parts of the
    development. *)

(** A 1-D operand NumPy broadcasts against the rows of an (n,3) array:
    it has one or three entries. *)
Definition broadcastable (v : list spec_float) : Prop :=
  length v = 1%nat \/ length v = 3%nat.

Definition is_zero (x : spec_float) : bool :=
  match x with S754_zero _ => true | _ => false end.

(** Component-wise [u < v]. *)
Definition lt3 (u v : Vertex) : Prop :=
  F32.ltb (vx u) (vx v) = true
  /\ F32.ltb (vy u) (vy v) = true
  /\ F32.ltb (vz u) (vz v) = true.

(** The [primitives] array as [HavokGeometry.__init__] reads it from the
    tree, before any section rewrites it. *)
Definition raw_primitives (meshTree : TagValue) : Res (list (list Z)) :=
  prims ← HavokGeometry.read_values meshTree "primitives";
  rows ← mapM HavokGeometry.read_indices prims;
  np_stack rows.

#[global] Instance in_prim_slice_dec sec n i : Decision (in_prim_slice sec n i).
Proof. unfold in_prim_slice. apply _. Defined.

(** The rewrites a corner value [v] of row [i] goes through in the loop
    over the sections: one per section whose primitive slice holds row
    [i], in the order of the sections. *)
Fixpoint resolve_through (sections : list HavokSection.t)
    (sharedVerticesIndex : list Z) (packed_size n : Z) (i : nat) (v : Z) : Res Z :=
  match sections with
  | [] => Ok v
  | sec :: rest =>
      if decide (in_prim_slice sec n i)
      then v' ← resolve_corner sec sharedVerticesIndex packed_size v;
           resolve_through rest sharedVerticesIndex packed_size n i v'
      else resolve_through rest sharedVerticesIndex packed_size n i v
  end.

(** The primitive slices of the sections are pairwise disjoint, for an
    array of [n] rows. *)
Definition prim_slices_disjoint (sections : list HavokSection.t) (n : Z) : Prop :=
  forall (k k' : nat) s s' i,
    sections !! k = Some s -> sections !! k' = Some s' -> k <> k' ->
    ~ (in_prim_slice s n i /\ in_prim_slice s' n i).

(** The packed-vertex range of [sec] lies within [[0, total)]. *)
Definition packed_range_within (total : Z) (sec : HavokSection.t) : Prop :=
  0 <= HavokSection.firstPackedVertexIndex sec
  /\ 0 <= HavokSection.numPackedVertices sec
  /\ HavokSection.firstPackedVertexIndex sec + HavokSection.numPackedVertices sec
     <= total.

(** The first four entries of a row. *)
Definition row_quad (row : list Z) : option Quad :=
  match row with
  | a :: b :: c :: d :: _ => Some (a, b, c, d)
  | _ => None
  end.

(** The six entries [row[[0, 1, 2, 0, 2, 3]]] of a quad. *)
Definition fan_entries (q : Quad) : list Z :=
  let '(a, b, c, d) := q in [a; b; c; a; c; d].

(** The corners of a quad. *)
Definition corners (q : Quad) : list Z :=
  let '(a, b, c, d) := q in [a; b; c; d].

(** Two sections that split three packed vertices and two quads between
    them; the second refers to the shared vertices through entries 1 and
    2 of the table. *)
Definition two_section_mesh : TagValue :=
  mk_mesh 0 1 [[0; 1; 2; 2]; [0; 1; 1; 2]] [1; 0; 1]
    [mk_section 0 1 [0; 0; 0; 1; 1; 1] 0 0 0 2 1;
     mk_section 0 1 [0; 0; 0; 1; 1; 1] 2 1 1 1 1]
    [0; 0x1FFFFF] [0; 1; 2].

(** Two sections with the same primitive slice: the quad is rewritten
    twice. *)
Definition overlapping_mesh : TagValue :=
  mk_mesh 0 1 [[0; 0; 0; 0]] [0]
    [mk_section 0 1 [0; 0; 0; 1; 1; 1] 1 0 0 1 1;
     mk_section 0 1 [0; 0; 0; 1; 1; 1] 1 0 0 1 1]
    [0] [0; 1; 2].

(** Three packed vertices of which the only section owns the first
    two. *)
Definition uncovered_mesh : TagValue :=
  mk_mesh 0 1 [[0; 1; 2; 2]] [0]
    [mk_section 0 1 [0; 0; 0; 1; 1; 1] 0 0 0 2 1]
    [0] [0; 1; 2].

(** The conditions on a constructed geometry, with raw primitive array
    [prims0], under which the index rewrite yields rows of [verts]: the
    primitive slices of the sections are pairwise disjoint and cover the
    array, the packed ranges lie within the packed vertices, the table
    points into the shared vertices, the vertex count stays below 2^32,
    and no raw index is negative. *)
Definition index_conditions (g : HavokGeometry.t) (prims0 : list (list Z)) : Prop :=
  prim_slices_disjoint (HavokGeometry.sections g) (len prims0)
  /\ (forall i, (i < length prims0)%nat ->
        exists s, In s (HavokGeometry.sections g) /\ in_prim_slice s (len prims0) i)
  /\ Forall (packed_range_within (len (HavokGeometry.packedVertices g)))
       (HavokGeometry.sections g)
  /\ Forall (fun x => 0 <= x < len (HavokGeometry.sharedVertices g))
       (HavokGeometry.sharedVerticesIndex g)
  /\ len (HavokGeometry.packedVertices g) + len (HavokGeometry.sharedVertices g)
     <= 2 ^ 32
  /\ (forall row v, In row prims0 -> In v row -> 0 <= v).

(** A section mapping with given [domain.min], [domain.max] and
    [codecParms] sequences; [d] holds the other entries of the section and
    [dom] the other entries of its domain. *)
Definition section_with (d dom : gmap string TagObject)
    (mn mx codec : list TagObject) : TagValue :=
  VMap (<["domain" := Tag (VMap (<["min" := Tag (VSeq mn)]>
                                   (<["max" := Tag (VSeq mx)]> dom)))]>
          (<["codecParms" := Tag (VSeq codec)]> d)).

(** The seven integer entries of a section, all zero. *)
Definition zero_counts : gmap string TagObject :=
  list_to_map (map (fun k => (k, Tag (VInt 0)))
                 ["firstPackedVertexIndex"; "firstSharedVertexIndex";
                  "firstPrimitiveIndex"; "numPackedVertices"; "numPrimitives";
                  "firstDataRunIndex"; "numDataRuns"]).

(** The four vectors the packed decode of a section broadcasts have one
    or three entries each. *)
Definition codec_shapes_ok (sec : HavokSection.t) : Prop :=
  broadcastable (scale_xyz (HavokSection.codec_params sec))
  /\ broadcastable (min_xyz (HavokSection.codec_params sec))
  /\ broadcastable (HavokSection.domain_min sec)
  /\ broadcastable (HavokSection.domain_max sec).

(** The position in [sharedVerticesIndex] a shared reference [v] of
    [sec] is looked up at. *)
Definition table_position (sec : HavokSection.t) (v : Z) : Z :=
  HavokSection.firstSharedVertexIndex sec + (v - HavokSection.numPackedVertices sec).

(** The values of the resource handles of a root tag with a single named
    variant; [None] when a node on the way has not the expected kind. *)
Definition root_handles (root_tag : TagObject) : option (list TagValue) :=
  d ← as_map (value root_tag);
  nv ← d !! "namedVariants";
  l ← as_seq (value nv);
  match l with
  | [first] =>
      fd ← as_map (value first);
      var ← fd !! "variant";
      vd ← ref_map var;
      rh ← vd !! "resourceHandles";
      vals ← as_seq (value rh);
      Some (map value vals)
  | _ => None
  end.

(** The values of the body infos of a resource handle named
    "Collision Physics Data" that has a [bodyCinfos] sequence. *)
Definition entry_bodies (val : TagValue) : option (list TagValue) :=
  match val with
  | VRef t =>
      d ← as_map (value t);
      name ← d !! "name";
      if ne_str (value name) "Collision Physics Data" then None
      else
        var ← d !! "variant";
        sub ← ref_map var;
        bodies ← sub !! "bodyCinfos";
        l ← as_seq (value bodies);
        Some (map value l)
  | _ => None
  end.

(** A tag file whose second body info has no [shape] entry. *)
Definition shapeless_root : TagObject :=
  mk_root [mk_entry "Other Data" [];
           mk_entry "Collision Physics Data"
             [mk_body "n_hull" sample_mesh; mk_map [("name", VStr "n_gun")];
              mk_body "n_turret" sample_mesh]].

(** ** The loader

    The parts of [load_havok_file] ([tank_viewer/havok/loader.py]) that
    compute the arguments of the Blender calls: the path of the havok
    file, the names of the objects and the vertex array with its axes
    swapped. *)

(** [s.replace(old, new)] for a non-empty [old]: the occurrences of [old]
    are replaced from the left, the search resuming behind each
    occurrence. [skip] counts the characters of the occurrence at hand
    that are still to be passed over. *)
Fixpoint replace_from (skip : nat) (old new s : string) : string :=
  match s with
  | EmptyString => EmptyString
  | String c s' =>
      match skip with
      | S k => replace_from k old new s'
      | O =>
          if String.prefix old s
          then new +:+ replace_from (String.length old - 1) old new s'
          else String c (replace_from 0 old new s')
      end
  end.

Definition str_replace (old new s : string) : string := replace_from 0 old new s.

(** [filepath = model['File'].replace('.model', '.havok')]. *)
Definition havok_path (file : string) : string :=
  str_replace ".model" ".havok" file.

(** [str(i)] of a natural number. *)
Definition str_of_nat (i : nat) : string :=
  DecimalString.NilZero.string_of_uint (Nat.to_uint i).

(** [ob_name = os.path.basename(filepath).replace('.', '_') + f'_{geom.name}_{i}']
    for a geometry named by the string [name]; [basename] stands for
    [os.path.basename], which depends on the platform. *)
Definition ob_name (basename : string -> string) (filepath name : string)
    (i : nat) : string :=
  str_replace "." "_" (basename filepath) +:+ "_" +:+ name +:+ "_" +:+ str_of_nat i.

(** [f'Mesh_{ob_name}']. *)
Definition mesh_name (ob_name : string) : string := "Mesh_" +:+ ob_name.

(** The character [_]. *)
Definition underscore : Ascii.ascii := Ascii.ascii_of_nat 95.

(** The character [c] occurs in [s]. *)
Fixpoint has_char (c : Ascii.ascii) (s : string) : Prop :=
  match s with
  | EmptyString => False
  | String c' s' => c' = c \/ has_char c s'
  end.

(** [sub] occurs in [s]. *)
Definition occurs (sub s : string) : Prop :=
  exists a b, s = a +:+ sub +:+ b.

(** Two sections that both own the only packed vertex, with different
    codecs: the second one decodes it last. *)
Definition twice_owned_mesh : TagValue :=
  mk_mesh 0 5 [[0; 0; 0; 0]] [0]
    [mk_section 0 5 [0; 0; 0; 1; 1; 1] 0 0 0 1 1;
     mk_section 0 5 [1; 1; 1; 2; 2; 2] 0 0 1 1 0]
    [0] [1].

(** The arrays [HavokGeometry.__init__] reads from the tree, before it
    allocates [verts]. *)
Record MeshArrays : Type := {
  a_domain_min : Vec3f;
  a_domain_max : Vec3f;
  a_primitives : list (list Z);
  a_sharedVerticesIndex : list Z;
  a_sections : list HavokSection.t;
  a_sharedVertices : list Z;
  a_packedVertices : list Z
}.

(** The reading part of [HavokGeometry.__init__], in its order. *)
Definition read_arrays (meshTree : TagValue) : Res MeshArrays :=
  dmin ← read_domain meshTree "min";
  dmax ← read_domain meshTree "max";
  primitives ← raw_primitives meshTree;
  svi ← HavokGeometry.read_values meshTree "sharedVerticesIndex";
  sharedVerticesIndex ← np_array_u32 svi;
  secs ← HavokGeometry.read_values meshTree "sections";
  sections ← mapM HavokSection.init secs;
  sv ← HavokGeometry.read_values meshTree "sharedVertices";
  sharedVertices ← np_array_u64 sv;
  pv ← HavokGeometry.read_values meshTree "packedVertices";
  packedVertices ← np_array_u32 pv;
  Ok {| a_domain_min := dmin; a_domain_max := dmax;
        a_primitives := primitives;
        a_sharedVerticesIndex := sharedVerticesIndex;
        a_sections := sections;
        a_sharedVertices := sharedVertices;
        a_packedVertices := packedVertices |}.

(** A corner value [v] of a row in the primitive slice of [sec] that the
    rewrite can resolve: a packed index of the section, or a shared
    reference whose table position lies inside the table. *)
Definition corner_ok (sec : HavokSection.t) (sharedVerticesIndex : list Z)
    (v : Z) : Prop :=
  v < HavokSection.numPackedVertices sec
  \/ (- 2 ^ 63 <= v - HavokSection.numPackedVertices sec < 2 ^ 63
      /\ - 2 ^ 63 <= table_position sec v < 2 ^ 63
      /\ - len sharedVerticesIndex <= table_position sec v
         < len sharedVerticesIndex).

(** A section the loop of [HavokGeometry.__init__] can process, for
    [total] packed vertices. *)
Definition section_ok (total : Z) (sec : HavokSection.t) : Prop :=
  packed_range_within total sec
  /\ (0 < HavokSection.numPackedVertices sec -> codec_shapes_ok sec)
  /\ - 2 ^ 63 <= HavokSection.firstSharedVertexIndex sec < 2 ^ 63.

(** The arrays of a mesh on which [HavokGeometry.__init__] returns: the
    domain bounds have one or three components, there are fewer than 2^32
    packed vertices, every section can be processed, the primitive array
    is of integers if there is a section to rewrite it, the primitive
    slices of the sections are pairwise disjoint, and every corner in a
    slice can be resolved by its section. *)
Definition arrays_ok (a : MeshArrays) : Prop :=
  broadcastable (a_domain_min a) /\ broadcastable (a_domain_max a)
  /\ len (a_packedVertices a) < 2 ^ 32
  /\ Forall (section_ok (len (a_packedVertices a))) (a_sections a)
  /\ (a_sections a <> [] -> array_dtype (a_primitives a) = Int64)
  /\ prim_slices_disjoint (a_sections a) (len (a_primitives a))
  /\ (forall s i row v,
        In s (a_sections a) ->
        in_prim_slice s (len (a_primitives a)) i ->
        a_primitives a !! i = Some row -> In v row ->
        corner_ok s (a_sharedVerticesIndex a) v).

(** A node NumPy takes into a [float32] array: an integer in the range of
    a Python [float], or a float. *)
Definition numeric (t : TagObject) : Prop :=
  match value t with
  | VInt n => is_finite (F64.of_Z n) = true
  | VFloat _ => True
  | _ => False
  end.

(** The keys of the seven integer entries of a section. *)
Definition count_keys : list string :=
  ["firstPackedVertexIndex"; "firstSharedVertexIndex"; "firstPrimitiveIndex";
   "numPackedVertices"; "numPrimitives"; "firstDataRunIndex"; "numDataRuns"].

(** * Properties *)

(** ** The result monad *)

Lemma bind_Ok {A B} (m : Res A) (f : A -> Res B) (b : B) :
  m ≫= f = Ok b <-> exists a, m = Ok a /\ f a = Ok b.
Proof.
  destruct m as [a|e]; simpl; split.
  - intros H; exists a; auto.
  - intros (a' & Ha & H); inversion Ha; subst; auto.
  - discriminate.
  - intros (a' & Ha & _); discriminate.
Qed.

Lemma bind_Raise {A B} (m : Res A) (f : A -> Res B) (e : PyExc) :
  m ≫= f = Raise e <-> m = Raise e \/ exists a, m = Ok a /\ f a = Raise e.
Proof.
  destruct m as [a|e']; simpl; split.
  - intros H; right; exists a; auto.
  - intros [H|(a' & Ha & H)]; [discriminate|]. inversion Ha; subst; auto.
  - intros H; left; congruence.
  - intros [H|(a' & Ha & _)]; [congruence|discriminate].
Qed.

(** Splits a hypothesis [m ≫= f = Ok b] into its two halves, as often
    as it applies. *)
Ltac res_inv :=
  repeat match goal with
  | H : _ ≫= _ = Ok _ |- _ =>
      apply bind_Ok in H; destruct H as (? & ? & H)
  | H : Ok _ = Ok _ |- _ => inversion H; subst; clear H
  | H : Raise _ = Ok _ |- _ => discriminate H
  | H : mret _ = Ok _ |- _ => inversion H; subst; clear H
  end.

Lemma mapM_Ok_map {A B} (f : A -> Res B) (g : A -> B) (l : list A) :
  (forall x, In x l -> f x = Ok (g x)) -> mapM f l = Ok (map g l).
Proof.
  induction l as [|x l IH]; intros H; simpl; [reflexivity|].
  rewrite (H x) by (left; reflexivity). simpl.
  rewrite IH by (intros y Hy; apply H; right; exact Hy). reflexivity.
Qed.

Lemma mapM_Ok_length {A B} (f : A -> Res B) (l : list A) (r : list B) :
  mapM f l = Ok r -> length r = length l.
Proof.
  revert r; induction l as [|x l IH]; intros r H; simpl in H.
  - inversion H; reflexivity.
  - res_inv. simpl. f_equal. eauto.
Qed.

Lemma mapM_Ok_lookup {A B} (f : A -> Res B) (l : list A) (r : list B) :
  mapM f l = Ok r ->
  forall i x, l !! i = Some x -> exists y, r !! i = Some y /\ f x = Ok y.
Proof.
  revert r; induction l as [|a l IH]; intros r H i x Hi; simpl in H.
  - destruct i; discriminate.
  - res_inv. destruct i as [|i]; simpl in Hi.
    + inversion Hi; subst. eexists; split; [reflexivity|assumption].
    + edestruct IH as (y & Hy1 & Hy2); [eassumption|eassumption|].
      exists y; split; assumption.
Qed.

(** ** Triangulation *)

Lemma columns_quad (q : Quad) :
  HavokGeometry.columns [0; 1; 2; 0; 2; 3] (quad_row q)
  = Ok (let '(a, b, c, d) := q in [a; b; c; a; c; d]).
Proof. destruct q as [[[a b] c] d]. reflexivity. Qed.

Lemma reshape3_fan (quads : list Quad) :
  HavokGeometry.reshape3
    (concat (map (fun q : Quad => let '(a, b, c, d) := q in [a; b; c; a; c; d]) quads))
  = flat_map candidates quads.
Proof.
  induction quads as [|[[[a b] c] d] quads IH]; simpl; [reflexivity|].
  rewrite IH. reflexivity.
Qed.

Lemma negb_dupes_degenerate (tri : Z * Z * Z) :
  negb (HavokGeometry.dupes tri) = bool_decide (~ degenerate tri).
Proof.
  destruct tri as [[a b] c]. unfold HavokGeometry.dupes, degenerate.
  destruct (Z.eqb_spec a b), (Z.eqb_spec b c), (Z.eqb_spec a c); simpl;
    symmetry; (apply bool_decide_eq_true; intuition congruence)
    || (apply bool_decide_eq_false; intuition congruence).
Qed.

Lemma filter_bool_decide {A} (P : A -> Prop) `{forall x, Decision (P x)} (l : list A) :
  List.filter (fun x => bool_decide (P x)) l = filter P l.
Proof.
  induction l as [|x l IH]; simpl; [reflexivity|].
  rewrite filter_cons. destruct (decide (P x)) as [Hx|Hx].
  - rewrite bool_decide_eq_true_2 by assumption. f_equal. exact IH.
  - rewrite bool_decide_eq_false_2 by assumption. exact IH.
Qed.

Lemma filter_flat_map {A B} (P : B -> Prop) `{forall x, Decision (P x)}
    (f : A -> list B) (l : list A) :
  filter P (flat_map f l) = flat_map (fun x => filter P (f x)) l.
Proof.
  induction l as [|x l IH]; simpl; [reflexivity|].
  rewrite filter_app, IH. reflexivity.
Qed.

(** C4. For every sequence of quads the [tris] property yields, quad by
    quad and in quad order, the candidates [(a,b,c)] then [(a,c,d)] with
    exactly the degenerate candidates (two equal indices) dropped; quad
    [(1,2,3,4)] gives [(1,2,3)] then [(1,3,4)], quad [(1,1,2,3)] gives
    only [(1,2,3)]. *)
Theorem tris_triangulates :
  (forall quads : list Quad,
     HavokGeometry.tris (map quad_row quads) = Ok (triangulate quads))
  /\ (forall tri quads,
        tri ∈ triangulate quads <->
        exists q, q ∈ quads /\ tri ∈ candidates q /\ ~ degenerate tri)
  /\ HavokGeometry.tris [[1; 2; 3; 4]] = Ok [(1, 2, 3); (1, 3, 4)]
  /\ HavokGeometry.tris [[1; 1; 2; 3]] = Ok [(1, 2, 3)].
Proof.
  split; [|split; [|split; reflexivity]].
  - intros quads. unfold HavokGeometry.tris.
    rewrite (mapM_Ok_map _
      (fun r => match r with
                | [a; b; c; d] => [a; b; c; a; c; d]
                | _ => []
                end)).
    + simpl. f_equal. unfold triangulate.
      rewrite <- filter_flat_map, <- filter_bool_decide.
      rewrite map_map.
      erewrite (map_ext _ (fun q : Quad => let '(a, b, c, d) := q in [a; b; c; a; c; d]))
        by (intros [[[a b] c] d]; reflexivity).
      rewrite reshape3_fan.
      apply List.filter_ext. intros tri. apply negb_dupes_degenerate.
    + intros r Hr. apply in_map_iff in Hr. destruct Hr as ([[[a b] c] d] & <- & _).
      reflexivity.
  - intros tri quads. unfold triangulate.
    rewrite list_elem_of_In, in_flat_map. split.
    + intros (q & Hq & Ht). apply list_elem_of_In, list_elem_of_filter in Ht.
      exists q. rewrite list_elem_of_In. tauto.
    + intros (q & Hq & Ht & Hd). exists q. rewrite list_elem_of_In in Hq.
      split; [assumption|]. apply list_elem_of_In, list_elem_of_filter. tauto.
Qed.

(** ** The extractor *)

Lemma mapM_app_Res {A B} (f : A -> Res B) (l1 l2 : list A) :
  mapM f (l1 ++ l2) = (a ← mapM f l1; b ← mapM f l2; Ok (a ++ b)).
Proof.
  induction l1 as [|x l1 IH]; simpl.
  - destruct (mapM f l2); reflexivity.
  - destruct (f x) as [y|e]; simpl; [|reflexivity].
    rewrite IH. destruct (mapM f l1) as [a|e]; simpl; [|reflexivity].
    destruct (mapM f l2); reflexivity.
Qed.

Lemma body_step_view (out : list HavokGeometry.t) (body : TagValue) (info : BodyInfo) :
  body_view body = Some info ->
  body_step out body =
  match info with
  | NoShapeData => Ok out
  | ShapeData n m => g ← HavokGeometry.init n m; Ok (out ++ [g])
  end.
Proof.
  unfold body_view, body_step, shape_of, ref_map, as_map.
  destruct body as [| | | |d|]; simpl; try discriminate.
  destruct (d !! "shape") as [[shv]|] eqn:Hshape; simpl; [|discriminate].
  destruct shv as [| | | | |[sv]]; simpl; try discriminate.
  destruct sv as [| | | |sd|]; simpl; try discriminate.
  destruct (sd !! "data") as [[dv]|] eqn:Hdata; simpl.
  - destruct dv as [| | | | |[ddv]]; simpl; try discriminate.
    destruct ddv as [| | | |dd|]; simpl; try discriminate.
    destruct (d !! "name") as [nm|] eqn:Hname; simpl; [|discriminate].
    destruct (dd !! "meshTree") as [mt|] eqn:Hmt; simpl; [|discriminate].
    intros H; inversion H; subst; clear H. reflexivity.
  - intros H; inversion H; subst; clear H. reflexivity.
Qed.

Lemma for_each_body_step (bodies : list TagValue) (infos : list BodyInfo) :
  Forall2 (fun v b => body_view v = Some b) bodies infos ->
  forall out,
    for_each body_step out bodies =
    (gs ← mapM build (bodies_with_shape_data infos); Ok (out ++ gs)).
Proof.
  induction 1 as [|v b bodies infos Hv _ IH]; intros out; simpl.
  - rewrite app_nil_r. reflexivity.
  - rewrite (body_step_view _ _ _ Hv). destruct b as [|n m]; simpl.
    + apply IH.
    + change (build (n, m)) with (HavokGeometry.init n m).
      destruct (HavokGeometry.init n m) as [g|e]; simpl; [|reflexivity].
      rewrite IH. destruct (mapM build (bodies_with_shape_data infos)); simpl;
        [|reflexivity].
      rewrite <- app_assoc. reflexivity.
Qed.

Lemma handle_step_view (out : list HavokGeometry.t) (val : TagValue) (e : ResourceEntry) :
  entry_view val = Some e ->
  handle_step out val = (gs ← mapM build (selected [e]); Ok (out ++ gs)).
Proof.
  unfold entry_view, handle_step, ref_map, as_map, as_seq, selected.
  destruct val as [| | | | |[v]]; simpl; try discriminate.
  destruct v as [| | | |d|]; simpl; try discriminate.
  destruct (d !! "name") as [nm|] eqn:Hname; simpl; [|discriminate].
  destruct (ne_str (value nm) "Collision Physics Data") eqn:Hne.
  - intros H; inversion H; subst; clear H. simpl. rewrite Hne.
    simpl. rewrite app_nil_r. reflexivity.
  - destruct (d !! "variant") as [[varv]|] eqn:Hvar; simpl; [|discriminate].
    destruct varv as [| | | | |[sv]]; simpl; try discriminate.
    destruct sv as [| | | |sub|]; simpl; try discriminate.
    destruct (sub !! "bodyCinfos") as [[bv]|] eqn:Hbodies; simpl.
    + destruct bv as [| | |l| |]; simpl; try discriminate.
      destruct (mapM body_view (map value l)) as [infos|] eqn:Hinfos; simpl;
        [|discriminate].
      intros H; inversion H; subst; clear H. simpl. rewrite Hne.
      rewrite app_nil_r. apply for_each_body_step.
      apply mapM_Some in Hinfos. exact Hinfos.
    + intros H; inversion H; subst; clear H. simpl. rewrite Hne.
      simpl. rewrite app_nil_r. reflexivity.
Qed.

Lemma selected_cons (e : ResourceEntry) (entries : list ResourceEntry) :
  selected (e :: entries) = selected [e] ++ selected entries.
Proof. unfold selected. simpl. rewrite app_nil_r. reflexivity. Qed.

Lemma for_each_handle_step (vals : list TagValue) (entries : list ResourceEntry) :
  Forall2 (fun v e => entry_view v = Some e) vals entries ->
  forall out,
    for_each handle_step out vals =
    (gs ← mapM build (selected entries); Ok (out ++ gs)).
Proof.
  induction 1 as [|v e vals entries Hv _ IH]; intros out.
  - simpl. rewrite app_nil_r. reflexivity.
  - simpl for_each. rewrite (handle_step_view _ _ _ Hv).
    rewrite (selected_cons e entries), mapM_app_Res.
    destruct (mapM build (selected [e])) as [gs1|err]; simpl; [|reflexivity].
    rewrite IH. destruct (mapM build (selected entries)); simpl; [|reflexivity].
    rewrite app_assoc. reflexivity.
Qed.

(** On a tree of the expected shape the walk builds the selected bodies
    in order, and stops at the first construction that raises. *)
Lemma extract_selected (root_tag : TagObject) (entries : list ResourceEntry) :
  root_view root_tag = Some entries ->
  extract root_tag = mapM build (selected entries).
Proof.
  unfold root_view, extract, ref_map, as_map, as_seq.
  destruct root_tag as [rv]; simpl.
  destruct rv as [| | | |d|]; simpl; try discriminate.
  destruct (d !! "namedVariants") as [[nvv]|] eqn:Hnv; simpl; [|discriminate].
  destruct nvv as [| | |l| |]; simpl; try discriminate.
  destruct l as [|[fv] [|]]; simpl; try discriminate.
  destruct fv as [| | | |fd|]; simpl; try discriminate.
  destruct (fd !! "variant") as [[varv]|] eqn:Hvar; simpl; [|discriminate].
  destruct varv as [| | | | |[vv]]; simpl; try discriminate.
  destruct vv as [| | | |vd|]; simpl; try discriminate.
  destruct (vd !! "resourceHandles") as [[rhv]|] eqn:Hrh; simpl; [|discriminate].
  destruct rhv as [| | |vals| |]; simpl; try discriminate.
  intros Hvals. apply mapM_Some in Hvals.
  rewrite (for_each_handle_step _ _ Hvals).
  destruct (mapM build (selected entries)); reflexivity.
Qed.

Lemma root_view_one_variant (root_tag : TagObject) (entries : list ResourceEntry) :
  root_view root_tag = Some entries ->
  exists nv, getitem (value root_tag) "namedVariants" = Ok nv
             /\ py_len (value nv) = Ok 1.
Proof.
  unfold root_view, as_map, as_seq.
  destruct root_tag as [rv]; simpl.
  destruct rv as [| | | |d|]; simpl; try discriminate.
  destruct (d !! "namedVariants") as [[nvv]|] eqn:Hnv; simpl; [|discriminate].
  destruct nvv as [| | |l| |]; simpl; try discriminate.
  destruct l as [|fv [|]]; simpl; try discriminate.
  intros _. eexists; split; reflexivity.
Qed.

Section ExtractorFacts.
Context {TagFileType : Type} `{EqDecision TagFileType} {IO : Type}.
Variable Object : TagFileType.
Variable checkIO : IO -> TagFileType.
Variable fromIO : IO -> Res TagObject.

Lemma read_geoms_selected (f : IO) (root_tag : TagObject) (entries : list ResourceEntry) :
  checkIO f = Object ->
  fromIO f = Ok root_tag ->
  root_view root_tag = Some entries ->
  read_geoms_from_havok Object checkIO fromIO f = mapM build (selected entries).
Proof.
  intros Hf Hroot Hview. unfold read_geoms_from_havok.
  rewrite bool_decide_eq_true_2 by assumption. simpl.
  rewrite Hroot. simpl.
  destruct (root_view_one_variant _ _ Hview) as (nv & Hnv & Hlen).
  rewrite Hnv. simpl. rewrite Hlen. simpl.
  apply extract_selected. assumption.
Qed.
End ExtractorFacts.



Lemma mapM_Raise_first {A B} (f : A -> Res B) (pre post : list A) (x : A) (e : PyExc) :
  Forall (fun y => is_Ok (f y) = true) pre ->
  f x = Raise e ->
  mapM f (pre ++ x :: post) = Raise e.
Proof.
  induction 1 as [|y pre Hy _ IH]; intros Hx; simpl.
  - rewrite Hx. reflexivity.
  - destruct (f y); [|discriminate]. simpl. rewrite IH by assumption. reflexivity.
Qed.



(** C6, as amended. When the construction of one selected body raises,
    and the bodies before it were built, [read_geoms_from_havok] raises
    that exception: the run is aborted and no geometry is returned. *)
Theorem read_geoms_aborts_on_failing_body
    {TagFileType : Type} `{EqDecision TagFileType} {IO : Type}
    (Object : TagFileType) (checkIO : IO -> TagFileType)
    (fromIO : IO -> Res TagObject)
    (f : IO) (root_tag : TagObject) (entries : list ResourceEntry)
    (pre post : list (TagValue * TagValue)) (name meshTree : TagValue)
    (e : PyExc) :
  checkIO f = Object ->
  fromIO f = Ok root_tag ->
  root_view root_tag = Some entries ->
  selected entries = pre ++ (name, meshTree) :: post ->
  Forall (fun b => is_Ok (HavokGeometry.init (fst b) (snd b)) = true) pre ->
  HavokGeometry.init name meshTree = Raise e ->
  read_geoms_from_havok Object checkIO fromIO f = Raise e.
Proof.
  intros Hf Hroot Hview Hsel Hpre Hbad.
  rewrite (read_geoms_selected Object checkIO fromIO f _ _ Hf Hroot Hview), Hsel.
  apply mapM_Raise_first; assumption.
Qed.

Lemma read_geoms_aborts_on_failing_body_witness :
  is_Ok (HavokGeometry.init (VStr "n_hull") sample_mesh) = true
  /\ HavokGeometry.init (VStr "n_turret") broken_mesh = Raise (KeyError "b'domain'")
  /\ read_geoms_from_havok true sample_checkIO sample_fromIO (true, half_broken_root)
     = Raise (KeyError "b'domain'").
Proof.
  assert (Hgood : is_Ok (HavokGeometry.init (VStr "n_hull") sample_mesh) = true)
    by (vm_compute; reflexivity).
  assert (Hbad : HavokGeometry.init (VStr "n_turret") broken_mesh
                 = Raise (KeyError "b'domain'"))
    by (vm_compute; reflexivity).
  split; [exact Hgood|split; [exact Hbad|]].
  apply (read_geoms_aborts_on_failing_body true sample_checkIO sample_fromIO
           (true, half_broken_root) half_broken_root half_broken_entries
           [(VStr "n_hull", sample_mesh)] [] (VStr "n_turret") broken_mesh).
  - reflexivity.
  - reflexivity.
  - vm_compute; reflexivity.
  - reflexivity.
  - constructor; [exact Hgood|constructor].
  - exact Hbad.
Defined.

(** C6, as stated, fails: of two bodies with shape data the first one
    constructs, the second has a section without its keys, and the whole
    call raises instead of returning the first geometry. *)
Lemma one_broken_body_aborts_the_batch :
  (exists g, HavokGeometry.init (VStr "n_hull") sample_mesh = Ok g)
  /\ root_view half_broken_root = Some half_broken_entries
  /\ ~ exists gs,
         read_geoms_from_havok true sample_checkIO sample_fromIO
           (true, half_broken_root) = Ok gs.
Proof.
  split; [|split].
  - destruct (HavokGeometry.init (VStr "n_hull") sample_mesh) as [g|e] eqn:Hg;
      [exists g; reflexivity|vm_compute in Hg; discriminate Hg].
  - vm_compute; reflexivity.
  - intros [gs Hgs]. vm_compute in Hgs. discriminate Hgs.
Qed.

(** C10. [read_geoms_from_havok] raises [AssertionError] when the stream
    is not an Object tag file, and when the [namedVariants] sequence of
    the root tag has not exactly one element; with an Object file and
    exactly one named variant both assertions pass and the call is the
    extraction itself. *)
Theorem read_geoms_assertions
    {TagFileType : Type} `{EqDecision TagFileType} {IO : Type}
    (Object : TagFileType) (checkIO : IO -> TagFileType)
    (fromIO : IO -> Res TagObject) (f : IO) :
  (checkIO f <> Object ->
   read_geoms_from_havok Object checkIO fromIO f = Raise AssertionError)
  /\ (forall root_tag nv l,
        checkIO f = Object ->
        fromIO f = Ok root_tag ->
        getitem (value root_tag) "namedVariants" = Ok nv ->
        value nv = VSeq l ->
        (length l <> 1%nat ->
         read_geoms_from_havok Object checkIO fromIO f = Raise AssertionError)
        /\ (length l = 1%nat ->
            read_geoms_from_havok Object checkIO fromIO f = extract root_tag)).
Proof.
  unfold read_geoms_from_havok. split.
  - intros Hf. rewrite bool_decide_eq_false_2 by assumption. reflexivity.
  - intros root_tag nv l Hf Hroot Hnv Hl.
    rewrite bool_decide_eq_true_2 by assumption. simpl.
    rewrite Hroot. simpl. rewrite Hnv. simpl. rewrite Hl. simpl.
    unfold len. split; intros Hlen.
    + destruct (Z.eqb_spec (Z.of_nat (length l)) 1) as [Heq|Hneq];
        [exfalso; lia|reflexivity].
    + rewrite Hlen. reflexivity.
Qed.

Lemma read_geoms_assertions_witness :
  read_geoms_from_havok true sample_checkIO sample_fromIO (false, sample_root)
  = Raise AssertionError
  /\ read_geoms_from_havok true sample_checkIO sample_fromIO (true, no_variant_root)
     = Raise AssertionError
  /\ read_geoms_from_havok true sample_checkIO sample_fromIO (true, two_variant_root)
     = Raise AssertionError
  /\ read_geoms_from_havok true sample_checkIO sample_fromIO (true, sample_root)
     = extract sample_root.
Proof.
  split; [|split; [|split]].
  - apply (read_geoms_assertions true sample_checkIO sample_fromIO (false, sample_root)).
    discriminate.
  - eapply (proj2 (read_geoms_assertions true sample_checkIO sample_fromIO
                     (true, no_variant_root)) no_variant_root _ []);
      [reflexivity|reflexivity|vm_compute; reflexivity|reflexivity|].
    simpl; lia.
  - eapply (proj2 (read_geoms_assertions true sample_checkIO sample_fromIO
                     (true, two_variant_root)) two_variant_root _ [_; _]);
      [reflexivity|reflexivity|vm_compute; reflexivity|reflexivity|].
    simpl; lia.
  - eapply (proj2 (read_geoms_assertions true sample_checkIO sample_fromIO
                     (true, sample_root)) sample_root _ [_]);
      [reflexivity|reflexivity|vm_compute; reflexivity|reflexivity|].
    reflexivity.
Defined.

(** ** Section construction *)

Lemma is_Ok_true {A} (r : Res A) : is_Ok r = true -> exists a, r = Ok a.
Proof. destruct r as [a|e]; [eauto|discriminate]. Qed.

Lemma getitem_missing (d : gmap string TagObject) (k : string) :
  d !! k = None -> getitem (VMap d) k = Raise (KeyError (bytes_repr k)).
Proof. intros H. simpl. rewrite H. reflexivity. Qed.

Lemma read_int_missing (d : gmap string TagObject) (k : string) :
  d !! k = None ->
  HavokSection.read_int (VMap d) k = Raise (KeyError (bytes_repr k)).
Proof. intros H. unfold HavokSection.read_int. rewrite getitem_missing by assumption. reflexivity. Qed.

Lemma read_domain_missing (d : gmap string TagObject) (key : string) :
  d !! "domain" = None ->
  read_domain (VMap d) key = Raise (KeyError "b'domain'").
Proof. intros H. unfold read_domain. rewrite getitem_missing by assumption. reflexivity. Qed.

(** Turns the success of the parts evaluated first into equations. *)
Lemma Ok_bind {A B} (a : A) (f : A -> Res B) : Ok a ≫= f = f a.
Proof. reflexivity. Qed.

Ltac part_ok H :=
  apply is_Ok_true in H; destruct H as ([] & H);
  unfold section_part in H;
  cbn -[getitem read_domain HavokSection.read_int iter_values np_array_f32] in H;
  res_inv.

Ltac use_parts :=
  repeat match goal with
  | H : ?m = Ok _ |- context [?m] => rewrite H, Ok_bind; cbv beta
  end.

Lemma section_first_missing_key (d : gmap string TagObject)
    (pre post : list string) (k : string) :
  section_keys = pre ++ k :: post ->
  d !! k = None ->
  Forall (fun k' => is_Ok (section_part (VMap d) k') = true) pre ->
  HavokSection.init (VMap d) = Raise (KeyError (bytes_repr k)).
Proof.
  intros Hkeys Hk Hpre. unfold section_keys in Hkeys.
  repeat (destruct pre as [|? pre];
          [ injection Hkeys as <- <- |
            injection Hkeys as <- Hkeys;
            apply Forall_cons in Hpre; destruct Hpre as [?Hp Hpre] ]);
    try (destruct pre; discriminate Hkeys);
    repeat match goal with
    | H : is_Ok (section_part _ _) = true |- _ => part_ok H
    end;
    unfold HavokSection.init;
    try rewrite (read_domain_missing d "min") by assumption;
    use_parts;
    try match goal with
        | |- context [getitem (VMap d) ?k'] =>
            rewrite (getitem_missing d k') by assumption
        end;
    try match goal with
        | |- context [HavokSection.read_int (VMap d) ?k'] =>
            rewrite (read_int_missing d k') by assumption
        end;
    reflexivity.
Qed.

Lemma section_missing_key_fails (d : gmap string TagObject) (k : string) :
  In k section_keys ->
  d !! k = None ->
  exists e, HavokSection.init (VMap d) = Raise e.
Proof.
  intros Hin Hk.
  destruct (HavokSection.init (VMap d)) as [s|e] eqn:Hinit; [|eauto].
  exfalso. unfold HavokSection.init in Hinit. res_inv.
  unfold read_domain, HavokSection.read_int in *. res_inv.
  unfold section_keys in Hin. simpl in Hin.
  repeat (destruct Hin as [<-|Hin]; [simpl in *; rewrite Hk in *; discriminate|]).
  exact Hin.
Qed.

Lemma geometry_raises_section_error (name meshTree : TagValue)
    (secs_pre secs_post : list TagValue) (sec : TagValue) (e : PyExc) :
  is_Ok (geometry_head meshTree) = true ->
  HavokGeometry.read_values meshTree "sections" = Ok (secs_pre ++ sec :: secs_post) ->
  Forall (fun s => is_Ok (HavokSection.init s) = true) secs_pre ->
  HavokSection.init sec = Raise e ->
  HavokGeometry.init name meshTree = Raise e.
Proof.
  intros Hhead Hsecs Hpre Hsec.
  apply is_Ok_true in Hhead. destruct Hhead as ([] & Hhead).
  unfold geometry_head in Hhead. res_inv.
  unfold HavokGeometry.init. use_parts.
  rewrite (mapM_Raise_first _ _ _ _ _ Hpre Hsec). reflexivity.
Qed.

Lemma domain_missing_bound (d dd : gmap string TagObject) (key : string) :
  d !! "domain" = Some (Tag (VMap dd)) ->
  dd !! key = None ->
  read_domain (VMap d) key = Raise (KeyError (bytes_repr key)).
Proof.
  intros Hd Hkey. unfold read_domain. simpl. rewrite Hd. simpl. rewrite Hkey.
  reflexivity.
Qed.

(** C7, as amended. A section mapping that lacks one of the keys
    [HavokSection.__init__] looks up does not construct; when what is
    evaluated before that key is well-formed the exception is Python's
    [KeyError] carrying that key alone (for [domain.min] and [domain.max]
    the inner key, not a path). The exception is not caught by
    [HavokGeometry.__init__]: it leaves the constructor of the geometry. *)
Theorem section_missing_key_raises_KeyError :
  (forall (d : gmap string TagObject) (pre post : list string) (k : string),
     section_keys = pre ++ k :: post ->
     d !! k = None ->
     (exists e, HavokSection.init (VMap d) = Raise e)
     /\ (Forall (fun k' => is_Ok (section_part (VMap d) k') = true) pre ->
         HavokSection.init (VMap d) = Raise (KeyError (bytes_repr k))))
  /\ (forall (d dd : gmap string TagObject) (key : string),
        d !! "domain" = Some (Tag (VMap dd)) ->
        dd !! key = None ->
        key = "min" \/ (key = "max" /\ is_Ok (read_domain (VMap d) "min") = true) ->
        HavokSection.init (VMap d) = Raise (KeyError (bytes_repr key)))
  /\ (forall (name meshTree : TagValue) (secs_pre secs_post : list TagValue)
             (sec : TagValue) (e : PyExc),
        is_Ok (geometry_head meshTree) = true ->
        HavokGeometry.read_values meshTree "sections" = Ok (secs_pre ++ sec :: secs_post) ->
        Forall (fun s => is_Ok (HavokSection.init s) = true) secs_pre ->
        HavokSection.init sec = Raise e ->
        HavokGeometry.init name meshTree = Raise e).
Proof.
  split; [|split].
  - intros d pre post k Hkeys Hk. split.
    + apply (section_missing_key_fails d k); [|assumption].
      rewrite Hkeys. apply in_or_app. right. left. reflexivity.
    + intros Hpre. eapply section_first_missing_key; eassumption.
  - intros d dd key Hd Hkey [->|[-> Hmin]]; unfold HavokSection.init.
    + rewrite (domain_missing_bound d dd "min") by assumption. reflexivity.
    + apply is_Ok_true in Hmin. destruct Hmin as (a & Hmin).
      rewrite Hmin, Ok_bind. cbv beta.
      rewrite (domain_missing_bound d dd "max") by assumption. reflexivity.
  - apply geometry_raises_section_error.
Qed.

Lemma section_missing_key_raises_KeyError_witness :
  HavokSection.init (mk_map []) = Raise (KeyError "b'domain'")
  /\ HavokSection.init no_min_section = Raise (KeyError "b'min'")
  /\ HavokGeometry.init (VStr "n_turret") broken_mesh = Raise (KeyError "b'domain'").
Proof.
  destruct section_missing_key_raises_KeyError as (Hkey & Hbound & Hgeo).
  split; [|split].
  - apply (proj2 (Hkey ∅ [] (tail section_keys) "domain" eq_refl (lookup_empty _))).
    constructor.
  - apply (Hbound _ {["max" := Tag (mk_ints [1; 1; 1])]} "min");
      [vm_compute; reflexivity|vm_compute; reflexivity|left; reflexivity].
  - apply (Hgeo (VStr "n_turret") broken_mesh [] [] (mk_map [])).
    + vm_compute; reflexivity.
    + vm_compute; reflexivity.
    + constructor.
    + apply (proj2 (Hkey ∅ [] (tail section_keys) "domain" eq_refl (lookup_empty _))).
      constructor.
Defined.

(** C7, as stated, fails: a section without its keys raises the built-in
    [KeyError] for the first key looked up, not an error of a class
    [MalformedTag]; a section whose [domain.min] and [codecParms] are too
    short raises nothing at all. *)
Lemma missing_key_is_not_MalformedTag :
  HavokSection.init (mk_map []) = Raise (KeyError "b'domain'")
  /\ ~ (exists e, HavokSection.init (mk_map []) = Raise e
                  /\ exc_name e = "MalformedTag")
  /\ is_Ok (HavokSection.init short_section) = true.
Proof.
  assert (H : HavokSection.init (mk_map []) = Raise (KeyError "b'domain'"))
    by (vm_compute; reflexivity).
  split; [exact H|split].
  - intros (e & He & Hname). rewrite H in He. inversion He; subst.
    discriminate Hname.
  - vm_compute; reflexivity.
Qed.

(** ** Index resolution *)

Lemma as_i64_Ok (z n : Z) : as_i64 z = Ok n -> n = z /\ - 2 ^ 63 <= z < 2 ^ 63.
Proof.
  unfold as_i64. destruct (Z.leb_spec (- 2 ^ 63) z), (Z.ltb_spec z (2 ^ 63));
    simpl; intros Hz; inversion Hz; subst; lia.
Qed.

Lemma as_u32_Ok (z n : Z) : as_u32 z = Ok n -> n = z /\ 0 <= z < 2 ^ 32.
Proof.
  unfold as_u32. destruct (Z.leb_spec 0 z), (Z.ltb_spec z (2 ^ 32));
    simpl; intros Hz; inversion Hz; subst; lia.
Qed.

Lemma as_i64_fit (z : Z) : - 2 ^ 63 <= z < 2 ^ 63 -> as_i64 z = Ok z.
Proof.
  intros Hz. unfold as_i64.
  destruct (Z.leb_spec (- 2 ^ 63) z), (Z.ltb_spec z (2 ^ 63)); simpl;
    try reflexivity; lia.
Qed.

Lemma as_u32_fit (z : Z) : 0 <= z < 2 ^ 32 -> as_u32 z = Ok z.
Proof.
  intros Hz. unfold as_u32.
  destruct (Z.leb_spec 0 z), (Z.ltb_spec z (2 ^ 32)); simpl;
    try reflexivity; lia.
Qed.

Lemma as_i64_Raise (z : Z) (e : PyExc) : as_i64 z = Raise e -> e = OverflowError.
Proof. unfold as_i64. destruct (_ && _); intros H; inversion H; reflexivity. Qed.

Lemma as_u32_Raise (z : Z) (e : PyExc) : as_u32 z = Raise e -> e = OverflowError.
Proof. unfold as_u32. destruct (_ && _); intros H; inversion H; reflexivity. Qed.

Lemma py_index_Raise {A} (l : list A) (k : Z) (e : PyExc) :
  py_index l k = Raise e -> e = IndexError.
Proof.
  unfold py_index. destruct (_ && _); [destruct (l !! _)|];
    intros H; inversion H; reflexivity.
Qed.

Lemma mapM_Raise_inv {A B} (f : A -> Res B) (l : list A) (e : PyExc) :
  mapM f l = Raise e -> exists x, In x l /\ f x = Raise e.
Proof.
  induction l as [|x l IH]; simpl; [discriminate|].
  destruct (f x) as [y|e'] eqn:Hx; simpl.
  - destruct (mapM f l) as [k|e'']; simpl; [discriminate|].
    intros H; inversion H; subst. destruct IH as (x' & Hin & Hx'); [reflexivity|].
    exists x'. split; [right; exact Hin|exact Hx'].
  - intros H; inversion H; subst. exists x. split; [left; reflexivity|exact Hx].
Qed.

(** The gather, the scatter and the masked addition amount to one
    rewrite per element. *)
Lemma gather_scatter_elementwise (num n fs size fp : Z) (svi flat : list Z) :
  let mask := map (fun v => num <=? v) flat in
  (gathered ← mapM (py_index svi)
                 (map (fun k => wrap_i64 (fs + k))
                      (select mask (map (fun v => wrap_i64 (v - n)) flat)));
   Ok (add_unmasked mask
         (scatter mask flat (map (fun x => wrap_u32 (size + x)) gathered)) fp))
  = mapM (fun v => if num <=? v
                   then x ← py_index svi (wrap_i64 (fs + wrap_i64 (v - n)));
                        Ok (wrap_u32 (size + x))
                   else Ok (wrap_i64 (v + fp))) flat.
Proof.
  induction flat as [|v flat IH]; [reflexivity|].
  cbn zeta in IH |- *. cbn [map mapM]. rewrite <- IH. clear IH.
  destruct (num <=? v); cbn [select map mapM].
  - destruct (py_index svi (wrap_i64 (fs + wrap_i64 (v - n)))) as [x|e];
      [|reflexivity].
    rewrite !Ok_bind.
    destruct (mapM (py_index svi) _) as [gathered|e]; reflexivity.
  - destruct (mapM (py_index svi) _) as [gathered|e]; reflexivity.
Qed.

Lemma resolve_flat_elementwise (sec : HavokSection.t) (svi : list Z)
    (packed_size : Z) (flat : list Z) :
  operands_fit sec packed_size ->
  resolve_flat sec svi packed_size flat
  = mapM (resolve_corner sec svi packed_size) flat.
Proof.
  intros (Hn & Hfs & Hfp & Hsize). unfold resolve_flat.
  rewrite (as_i64_fit _ Hn), Ok_bind, (as_i64_fit _ Hfs), Ok_bind.
  pose proof (gather_scatter_elementwise
                (HavokSection.numPackedVertices sec)
                (HavokSection.numPackedVertices sec)
                (HavokSection.firstSharedVertexIndex sec) packed_size
                (HavokSection.firstPackedVertexIndex sec) svi flat) as H.
  cbn zeta in H. unfold resolve_corner. rewrite <- H. clear H.
  destruct (mapM (py_index svi) _) as [gathered|e]; [|reflexivity].
  rewrite !Ok_bind, (as_u32_fit _ Hsize), Ok_bind, (as_i64_fit _ Hfp), Ok_bind.
  reflexivity.
Qed.

Lemma resolve_flat_Ok_fit (sec : HavokSection.t) (svi : list Z)
    (packed_size : Z) (flat flat' : list Z) :
  resolve_flat sec svi packed_size flat = Ok flat' ->
  operands_fit sec packed_size.
Proof.
  unfold resolve_flat, operands_fit. intros H. res_inv.
  repeat match goal with
  | H : as_i64 _ = Ok _ |- _ => apply as_i64_Ok in H; destruct H as [-> ?]
  | H : as_u32 _ = Ok _ |- _ => apply as_u32_Ok in H; destruct H as [-> ?]
  end.
  tauto.
Qed.

Lemma resolve_flat_Raise (sec : HavokSection.t) (svi : list Z)
    (packed_size : Z) (flat : list Z) (e : PyExc) :
  resolve_flat sec svi packed_size flat = Raise e ->
  e = IndexError \/ e = OverflowError.
Proof.
  unfold resolve_flat. intros H.
  repeat match goal with
  | H : _ ≫= _ = Raise _ |- _ =>
      apply bind_Raise in H; destruct H as [H|(? & ? & H)]
  | H : as_i64 _ = Raise _ |- _ => apply as_i64_Raise in H; auto
  | H : as_u32 _ = Raise _ |- _ => apply as_u32_Raise in H; auto
  | H : mapM (py_index _) _ = Raise _ |- _ =>
      apply mapM_Raise_inv in H; destruct H as (? & _ & H);
      apply py_index_Raise in H; auto
  | H : Ok _ = Raise _ |- _ => discriminate H
  end.
Qed.

(** *** The element type of the primitive array *)

Lemma array_dtype_cons (row : list Z) (rows : list (list Z)) :
  array_dtype (row :: rows) = result_type (row_dtype row) (array_dtype rows).
Proof. reflexivity. Qed.

(** An array of integers is one without an empty row. *)
Lemma array_dtype_Int64 (rows : list (list Z)) :
  array_dtype rows = Int64 <-> Forall (fun row => row <> []) rows.
Proof.
  induction rows as [|row rows IH].
  - split; [constructor|reflexivity].
  - rewrite array_dtype_cons, Forall_cons, <- IH.
    destruct row as [|x row], (array_dtype rows); cbn; intuition congruence.
Qed.

(** On an array of floats the rewrite raises: the index array is
    refused. *)
Lemma resolve_float_Raise (sec : HavokSection.t) :
  exists e, resolve_float sec = Raise e /\ (e = IndexError \/ e = OverflowError).
Proof.
  unfold resolve_float, as_f64.
  destruct (is_finite (F64.of_Z (HavokSection.numPackedVertices sec)));
    [destruct (is_finite (F64.of_Z (HavokSection.firstSharedVertexIndex sec)))|];
    eexists; (split; [reflexivity|auto]).
Qed.

Lemma resolve_section_Int64 (sec : HavokSection.t) (svi : list Z) (packed_size : Z)
    (prims : list (list Z)) :
  array_dtype prims = Int64 ->
  resolve_section sec svi packed_size prims
  = (flat ← resolve_flat sec svi packed_size
              (concat (py_slice prims (HavokSection.firstPrimitiveIndex sec)
                         (HavokSection.firstPrimitiveIndex sec
                          + HavokSection.numPrimitives sec)));
     Ok (slice_store prims (HavokSection.firstPrimitiveIndex sec)
           (HavokSection.firstPrimitiveIndex sec + HavokSection.numPrimitives sec)
           (unflatten
              (map length
                 (py_slice prims (HavokSection.firstPrimitiveIndex sec)
                    (HavokSection.firstPrimitiveIndex sec
                     + HavokSection.numPrimitives sec))) flat))).
Proof. intros H. unfold resolve_section. rewrite H. reflexivity. Qed.

Lemma resolve_section_Float64 (sec : HavokSection.t) (svi : list Z) (packed_size : Z)
    (prims : list (list Z)) :
  array_dtype prims = Float64 ->
  exists e, resolve_section sec svi packed_size prims = Raise e
            /\ (e = IndexError \/ e = OverflowError).
Proof.
  intros H. unfold resolve_section. rewrite H.
  destruct (resolve_float_Raise sec) as (e & -> & He).
  exists e. split; [reflexivity|exact He].
Qed.

Lemma resolve_section_Ok_dtype (sec : HavokSection.t) (svi : list Z) (packed_size : Z)
    (prims prims' : list (list Z)) :
  resolve_section sec svi packed_size prims = Ok prims' ->
  array_dtype prims = Int64.
Proof.
  intros H. destruct (array_dtype prims) eqn:Hd; [reflexivity|].
  destruct (resolve_section_Float64 sec svi packed_size prims Hd) as (e & He & _).
  rewrite He in H. discriminate H.
Qed.

Lemma resolve_section_Raise (sec : HavokSection.t) (svi : list Z) (packed_size : Z)
    (prims : list (list Z)) (e : PyExc) :
  resolve_section sec svi packed_size prims = Raise e ->
  e = IndexError \/ e = OverflowError.
Proof.
  intros H. destruct (array_dtype prims) eqn:Hd.
  - rewrite (resolve_section_Int64 _ _ _ _ Hd) in H.
    apply bind_Raise in H. destruct H as [H|(flat & _ & H)]; [|discriminate H].
    eapply resolve_flat_Raise. exact H.
  - destruct (resolve_section_Float64 sec svi packed_size prims Hd) as (e' & He & Hor).
    rewrite He in H. inversion H; subst. exact Hor.
Qed.

(** *** Slices *)

Lemma slice_bound_range (n k : Z) : 0 <= n -> 0 <= slice_bound n k <= n.
Proof. intros Hn. unfold slice_bound. destruct (Z.ltb_spec k 0); lia. Qed.

Lemma slice_range_le {A} (l : list A) (a b : Z) :
  (fst (slice_range (len l) a b) <= length l)%nat
  /\ (snd (slice_range (len l) a b) <= length l)%nat.
Proof.
  unfold slice_range, len; simpl.
  pose proof (slice_bound_range (Z.of_nat (length l)) a ltac:(lia)).
  pose proof (slice_bound_range (Z.of_nat (length l)) b ltac:(lia)).
  lia.
Qed.

Lemma py_slice_length {A} (l : list A) (a b : Z) :
  length (py_slice l a b)
  = (snd (slice_range (len l) a b) - fst (slice_range (len l) a b))%nat.
Proof.
  unfold py_slice. destruct (slice_range_le l a b) as [Hi Hj].
  destruct (slice_range (len l) a b) as [i j]; simpl in *.
  rewrite length_take, length_drop. lia.
Qed.

Lemma py_slice_lookup {A} (l : list A) (a b : Z) (r : nat) :
  (fst (slice_range (len l) a b) + r < snd (slice_range (len l) a b))%nat ->
  py_slice l a b !! r = l !! (fst (slice_range (len l) a b) + r)%nat.
Proof.
  unfold py_slice. destruct (slice_range (len l) a b) as [i j]; simpl.
  intros Hr. rewrite lookup_take_lt by lia. apply lookup_drop.
Qed.

Lemma replace_rows_length {A} (l : list A) (i : nat) (rows : list A) :
  (i + length rows <= length l)%nat ->
  length (replace_rows l i rows) = length l.
Proof.
  intros H. unfold replace_rows.
  rewrite !length_app, length_take, length_drop. lia.
Qed.

Lemma replace_rows_lookup_before {A} (l : list A) (i : nat) (rows : list A) (k : nat) :
  (i <= length l)%nat -> (k < i)%nat ->
  replace_rows l i rows !! k = l !! k.
Proof.
  intros Hi Hk. unfold replace_rows.
  rewrite lookup_app_l by (rewrite length_take; lia).
  apply lookup_take_lt. assumption.
Qed.

Lemma replace_rows_lookup_in {A} (l : list A) (i : nat) (rows : list A) (k : nat) :
  (i <= length l)%nat -> (i <= k < i + length rows)%nat ->
  replace_rows l i rows !! k = rows !! (k - i)%nat.
Proof.
  intros Hi Hk. unfold replace_rows.
  rewrite lookup_app_r by (rewrite length_take; lia).
  rewrite length_take, Nat.min_l by lia.
  apply lookup_app_l. lia.
Qed.

Lemma replace_rows_lookup_after {A} (l : list A) (i : nat) (rows : list A) (k : nat) :
  (i <= length l)%nat -> (i + length rows <= k)%nat ->
  replace_rows l i rows !! k = l !! k.
Proof.
  intros Hi Hk. unfold replace_rows.
  rewrite lookup_app_r by (rewrite length_take; lia).
  rewrite length_take, Nat.min_l by lia.
  rewrite lookup_app_r by lia.
  rewrite lookup_drop. f_equal. lia.
Qed.

(** *** Rows *)

Lemma mapM_concat {A B} (f : A -> Res B) (rows : list (list A)) :
  mapM f (concat rows) = (rows' ← mapM (mapM f) rows; Ok (concat rows')).
Proof.
  induction rows as [|r rows IH]; [reflexivity|].
  cbn [concat]. rewrite mapM_app_Res, IH. cbn [mapM].
  destruct (mapM f r) as [r'|e]; [|reflexivity].
  rewrite !Ok_bind. destruct (mapM (mapM f) rows) as [rows'|e]; reflexivity.
Qed.

Lemma mapM_rows_lengths {A B} (f : A -> Res B) (rows : list (list A))
    (rows' : list (list B)) :
  mapM (mapM f) rows = Ok rows' -> map length rows' = map length rows.
Proof.
  revert rows'; induction rows as [|r rows IH]; intros rows' H; simpl in H; res_inv.
  - reflexivity.
  - simpl. f_equal; [eapply mapM_Ok_length; eassumption|eauto].
Qed.

Lemma unflatten_concat (rows : list (list Z)) :
  unflatten (map length rows) (concat rows) = rows.
Proof.
  induction rows as [|r rows IH]; [reflexivity|].
  simpl. rewrite take_app_length, drop_app_length, IH. reflexivity.
Qed.

(** The rewrite of a section, row by row. *)
Lemma resolve_section_rows (sec : HavokSection.t) (svi : list Z) (packed_size : Z)
    (prims prims' : list (list Z)) :
  resolve_section sec svi packed_size prims = Ok prims' ->
  let a := HavokSection.firstPrimitiveIndex sec in
  let b := HavokSection.firstPrimitiveIndex sec + HavokSection.numPrimitives sec in
  operands_fit sec packed_size
  /\ exists rows',
       mapM (mapM (resolve_corner sec svi packed_size)) (py_slice prims a b) = Ok rows'
       /\ prims' = slice_store prims a b rows'.
Proof.
  intros H a b.
  rewrite (resolve_section_Int64 _ _ _ _ (resolve_section_Ok_dtype _ _ _ _ _ H)) in H.
  fold a b in H.
  apply bind_Ok in H. destruct H as (flat & Hflat & Hstore).
  inversion Hstore; subst; clear Hstore.
  pose proof (resolve_flat_Ok_fit _ _ _ _ _ Hflat) as Hfit.
  split; [exact Hfit|].
  rewrite (resolve_flat_elementwise _ _ _ _ Hfit), mapM_concat in Hflat.
  apply bind_Ok in Hflat. destruct Hflat as (rows' & Hrows & Hflat).
  inversion Hflat; subst; clear Hflat.
  exists rows'. split; [exact Hrows|].
  erewrite <- mapM_rows_lengths by eassumption.
  rewrite unflatten_concat. reflexivity.
Qed.

Lemma in_prim_slice_nonneg (sec : HavokSection.t) (n : Z) (i : nat) :
  0 <= n ->
  0 <= HavokSection.firstPrimitiveIndex sec ->
  0 <= HavokSection.numPrimitives sec ->
  in_prim_slice sec n i <->
  HavokSection.firstPrimitiveIndex sec <= Z.of_nat i
    < HavokSection.firstPrimitiveIndex sec + HavokSection.numPrimitives sec
  /\ Z.of_nat i < n.
Proof.
  intros Hn Ha Hb. unfold in_prim_slice, slice_range, slice_bound. simpl.
  destruct (Z.ltb_spec (HavokSection.firstPrimitiveIndex sec) 0); [lia|].
  destruct (Z.ltb_spec (HavokSection.firstPrimitiveIndex sec
                        + HavokSection.numPrimitives sec) 0); [lia|].
  lia.
Qed.

Lemma resolve_corner_cases (sec : HavokSection.t) (svi : list Z)
    (packed_size v v' : Z) :
  resolve_corner sec svi packed_size v = Ok v' ->
  (v < HavokSection.numPackedVertices sec ->
   v' = wrap_i64 (v + HavokSection.firstPackedVertexIndex sec))
  /\ (HavokSection.numPackedVertices sec <= v ->
      exists x,
        py_index svi
          (wrap_i64 (HavokSection.firstSharedVertexIndex sec
                     + wrap_i64 (v - HavokSection.numPackedVertices sec))) = Ok x
        /\ v' = (packed_size + x) mod 2 ^ 32).
Proof.
  unfold resolve_corner.
  destruct (Z.leb_spec (HavokSection.numPackedVertices sec) v) as [Hle|Hlt];
    intros H; split; intros Hv; try lia.
  - apply bind_Ok in H. destruct H as (x & Hx & H). inversion H; subst.
    exists x. split; [exact Hx|reflexivity].
  - inversion H; reflexivity.
Qed.

Lemma wrap_i64_fit (z : Z) : - 2 ^ 63 <= z < 2 ^ 63 -> wrap_i64 z = z.
Proof. intros H. unfold wrap_i64. rewrite Z.mod_small; lia. Qed.

Lemma resolve_section_corners (sec : HavokSection.t) (svi : list Z)
    (packed_size : Z) (prims prims' : list (list Z)) :
  resolve_section sec svi packed_size prims = Ok prims' ->
  length prims' = length prims
  /\ (forall i row,
        ~ in_prim_slice sec (len prims) i ->
        prims !! i = Some row -> prims' !! i = Some row)
  /\ (forall i row,
        in_prim_slice sec (len prims) i ->
        prims !! i = Some row ->
        exists row',
          prims' !! i = Some row'
          /\ length row' = length row
          /\ forall j v,
               row !! j = Some v ->
               exists v', row' !! j = Some v'
                          /\ resolve_corner sec svi packed_size v = Ok v').
Proof.
  intros H. apply resolve_section_rows in H. cbv zeta in H.
  destruct H as (_ & rows' & Hrows & ->).
  unfold slice_store, in_prim_slice.
  set (a := HavokSection.firstPrimitiveIndex sec) in *.
  set (b := a + HavokSection.numPrimitives sec) in *.
  pose proof (mapM_Ok_length _ _ _ Hrows) as Hlen.
  rewrite py_slice_length in Hlen.
  destruct (slice_range_le prims a b) as [Hi Hj].
  set (i0 := fst (slice_range (len prims) a b)) in *.
  set (j0 := snd (slice_range (len prims) a b)) in *.
  split; [|split].
  - apply replace_rows_length. lia.
  - intros i row Hout Hrow.
    destruct (Nat.lt_ge_cases i i0) as [Hlt|Hge].
    + rewrite replace_rows_lookup_before by lia. exact Hrow.
    + rewrite replace_rows_lookup_after by lia. exact Hrow.
  - intros i row Hin Hrow.
    rewrite replace_rows_lookup_in by lia.
    assert (Hsl : py_slice prims a b !! (i - i0)%nat = Some row).
    { rewrite py_slice_lookup by (fold i0 j0; lia). fold i0.
      replace (i0 + (i - i0))%nat with i by lia. exact Hrow. }
    destruct (mapM_Ok_lookup _ _ _ Hrows _ _ Hsl) as (row' & Hrow' & Hmap).
    exists row'. split; [exact Hrow'|split].
    + eapply mapM_Ok_length. exact Hmap.
    + intros j v Hv. eapply mapM_Ok_lookup; eassumption.
Qed.

(** The rewrite keeps the element type: it changes no shape. *)
Lemma resolve_section_keeps_dtype (sec : HavokSection.t) (svi : list Z)
    (packed_size : Z) (prims prims' : list (list Z)) :
  resolve_section sec svi packed_size prims = Ok prims' ->
  array_dtype prims' = Int64.
Proof.
  intros H. pose proof (resolve_section_Ok_dtype _ _ _ _ _ H) as Hd.
  apply array_dtype_Int64 in Hd. apply array_dtype_Int64.
  destruct (resolve_section_corners _ _ _ _ _ H) as (Hlen & Hout & Hin).
  apply Forall_lookup. intros i row' Hrow'.
  assert (Hlt : (i < length prims)%nat)
    by (rewrite <- Hlen; eapply lookup_lt_Some; exact Hrow').
  destruct (lookup_lt_is_Some_2 _ _ Hlt) as (row & Hrow).
  pose proof (proj1 (Forall_lookup _ _) Hd i row Hrow) as Hne.
  destruct (decide (in_prim_slice sec (len prims) i)) as [Hi|Hi].
  - destruct (Hin i row Hi Hrow) as (row1 & Hrow1 & Hl & _).
    rewrite Hrow' in Hrow1. inversion Hrow1; subst row1.
    intros ->. destruct row; [apply Hne; reflexivity|discriminate Hl].
  - rewrite (Hout i row Hi Hrow) in Hrow'. inversion Hrow'; subst. exact Hne.
Qed.

Lemma section_step_resolves (pv svi : list Z) (verts verts' : list (option Vertex))
    (prims prims' : list (list Z)) (sec : HavokSection.t) :
  HavokGeometry.section_step pv svi (verts, prims) sec = Ok (verts', prims') ->
  resolve_section sec svi (len pv) prims = Ok prims'.
Proof.
  unfold HavokGeometry.section_step. intros H.
  apply bind_Ok in H. destruct H as (verts1 & _ & H).
  apply bind_Ok in H. destruct H as (prims1 & Hres & H).
  inversion H; subst. exact Hres.
Qed.

(** C1, as amended. In the loop of [HavokGeometry.__init__] the step of a
    section leaves the rows of [primitives] outside its primitive slice
    alone and rewrites every corner [v] of a row inside it: [v] below
    [numPackedVertices] becomes [firstPackedVertexIndex + v] (an [int64]
    sum), any other [v] becomes
    [packedVertices.size + sharedVerticesIndex[firstSharedVertexIndex + (v - numPackedVertices)]]
    formed in [uint32], that is reduced modulo 2^32; it is the plain sum
    when that is below 2^32. With [numPackedVertices = 2] and table entry
    5, raw 0 becomes [firstPackedVertexIndex] and raw 2 becomes
    [(packedVertices.size + 5) mod 2^32]. *)
Theorem section_step_rewrites_corners (pv svi : list Z)
    (verts verts' : list (option Vertex)) (prims prims' : list (list Z))
    (sec : HavokSection.t) :
  HavokGeometry.section_step pv svi (verts, prims) sec = Ok (verts', prims') ->
  let num := HavokSection.numPackedVertices sec in
  let first := HavokSection.firstPackedVertexIndex sec in
  let fs := HavokSection.firstSharedVertexIndex sec in
  length prims' = length prims
  /\ (forall i row,
        ~ in_prim_slice sec (len prims) i ->
        prims !! i = Some row -> prims' !! i = Some row)
  /\ (forall i row,
        in_prim_slice sec (len prims) i ->
        prims !! i = Some row ->
        exists row',
          prims' !! i = Some row'
          /\ length row' = length row
          /\ forall j v,
               row !! j = Some v ->
               (v < num ->
                row' !! j = Some (wrap_i64 (v + first))
                /\ (- 2 ^ 63 <= v + first < 2 ^ 63 -> row' !! j = Some (first + v)))
               /\ (num <= v ->
                   exists x,
                     py_index svi (wrap_i64 (fs + wrap_i64 (v - num))) = Ok x
                     /\ row' !! j = Some ((len pv + x) mod 2 ^ 32)
                     /\ (0 <= x -> len pv + x < 2 ^ 32 ->
                         row' !! j = Some (len pv + x))))
  /\ (0 <= HavokSection.firstPrimitiveIndex sec ->
      0 <= HavokSection.numPrimitives sec ->
      forall i,
        in_prim_slice sec (len prims) i <->
        HavokSection.firstPrimitiveIndex sec <= Z.of_nat i
          < HavokSection.firstPrimitiveIndex sec + HavokSection.numPrimitives sec
        /\ Z.of_nat i < len prims)
  /\ (num = 2 -> py_index svi fs = Ok 5 ->
      resolve_corner sec svi (len pv) 0 = Ok first
      /\ resolve_corner sec svi (len pv) 2 = Ok ((len pv + 5) mod 2 ^ 32)).
Proof.
  intros Hstep num first fs.
  pose proof (section_step_resolves _ _ _ _ _ _ _ Hstep) as H.
  pose proof (resolve_section_rows _ _ _ _ _ H) as Hrows. cbv zeta in Hrows.
  destruct Hrows as ((Hnum & Hfs & Hfirst & Hsize) & _).
  destruct (resolve_section_corners _ _ _ _ _ H) as (Hlen & Hout & Hin).
  split; [exact Hlen|split; [exact Hout|split; [|split]]].
  - intros i row Hi Hrow.
    destruct (Hin i row Hi Hrow) as (row' & Hrow' & Hlen' & Hcorner).
    exists row'. split; [exact Hrow'|split; [exact Hlen'|]].
    intros j v Hv. destruct (Hcorner j v Hv) as (v' & Hv' & Hres).
    destruct (resolve_corner_cases _ _ _ _ _ Hres) as [Hpacked Hshared].
    fold num first fs in Hpacked, Hshared.
    split.
    + intros Hlt. rewrite Hv', (Hpacked Hlt). split; [reflexivity|].
      intros Hfit. rewrite wrap_i64_fit by exact Hfit. f_equal. lia.
    + intros Hge. destruct (Hshared Hge) as (x & Hx & ->).
      exists x. split; [exact Hx|split; [exact Hv'|]].
      intros Hx0 Hsum. rewrite Hv'. f_equal. apply Z.mod_small. lia.
  - intros Ha Hb i. apply in_prim_slice_nonneg; unfold len; lia.
  - intros Hnum2 Hentry. unfold resolve_corner. fold num first fs.
    rewrite Hnum2. simpl.
    rewrite Z.add_0_l, (wrap_i64_fit first) by exact Hfirst.
    change (wrap_i64 (2 - 2)) with 0. rewrite Z.add_0_r.
    rewrite (wrap_i64_fit fs) by exact Hfs. rewrite Hentry.
    split; reflexivity.
Qed.

Lemma section_step_rewrites_corners_witness :
  exists verts',
    HavokGeometry.section_step (replicate 10 0) [5]
      (replicate 16 None, [[9; 9; 9; 9]; [0; 1; 2; 2]]) sample_section
    = Ok (verts', [[9; 9; 9; 9]; [3; 4; 15; 15]])
    /\ resolve_corner sample_section [5] (len (replicate 10 0)) 0 = Ok 3
    /\ resolve_corner sample_section [5] (len (replicate 10 0)) 2 = Ok 15.
Proof.
  destruct (HavokGeometry.section_step (replicate 10 0) [5]
              (replicate 16 None, [[9; 9; 9; 9]; [0; 1; 2; 2]]) sample_section)
    as [[verts' prims']|e] eqn:Hstep; [|vm_compute in Hstep; discriminate Hstep].
  assert (Hp : prims' = [[9; 9; 9; 9]; [3; 4; 15; 15]]).
  { apply section_step_resolves in Hstep. vm_compute in Hstep.
    inversion Hstep. reflexivity. }
  subst prims'. exists verts'. split; [reflexivity|].
  pose proof (section_step_rewrites_corners _ _ _ _ _ _ _ Hstep) as Hthm.
  cbv zeta in Hthm. destruct Hthm as (_ & _ & _ & _ & Hex).
  exact (Hex eq_refl eq_refl).
Defined.

(** C1, as stated, fails: with one packed vertex and the table entry
    4294967295 the shared corners (raw value 1, the number of packed
    vertices of the section) are rewritten to 0, not to
    1 + 4294967295. *)
Lemma shared_offset_wraps_in_uint32 :
  exists g,
    HavokGeometry.init (VStr "n_hull") wrapping_mesh = Ok g
    /\ HavokGeometry.packedVertices g = [0]
    /\ HavokGeometry.sharedVerticesIndex g = [4294967295]
    /\ HavokGeometry.primitives g = [[0; 0; 0; 0]]
    /\ len (HavokGeometry.packedVertices g) + 4294967295 = 4294967296.
Proof.
  destruct (HavokGeometry.init (VStr "n_hull") wrapping_mesh) as [g|e] eqn:Hg;
    [|vm_compute in Hg; discriminate Hg].
  exists g. vm_compute in Hg. inversion Hg; subst; clear Hg. simpl.
  repeat split; reflexivity.
Qed.

(** ** No range check on the rewritten indices *)

Lemma mapM_all_Ok {A B} (f : A -> Res B) (l : list A) :
  (forall x, In x l -> is_Ok (f x) = true) -> exists r, mapM f l = Ok r.
Proof.
  induction l as [|x l IH]; intros H; [eexists; reflexivity|].
  destruct (is_Ok_true _ (H x (or_introl eq_refl))) as (y & Hy).
  destruct IH as (r & Hr); [intros z Hz; apply H; right; exact Hz|].
  exists (y :: r). simpl. rewrite Hy. simpl. rewrite Hr. reflexivity.
Qed.

(** C5, as amended. The index rewrite compares no index with the number
    of vertices. On a primitive array of integers (no index list is
    empty) it succeeds as soon as its scalar operands fit their integer
    types and every gather index lies inside [sharedVerticesIndex]. On a
    primitive array of floats, which [np.stack] builds from empty index
    lists, it always raises: [IndexError] once the two operands it meets
    are converted, the index array being refused. It raises nothing but
    [IndexError] and [OverflowError]. *)
Theorem index_rewrite_has_no_range_check (sec : HavokSection.t) (svi : list Z)
    (packed_size : Z) (prims : list (list Z)) :
  (forall e, resolve_section sec svi packed_size prims = Raise e ->
             e = IndexError \/ e = OverflowError)
  /\ (array_dtype prims = Int64 ->
      operands_fit sec packed_size ->
      (forall row v,
         In row (py_slice prims (HavokSection.firstPrimitiveIndex sec)
                   (HavokSection.firstPrimitiveIndex sec
                    + HavokSection.numPrimitives sec)) ->
         In v row ->
         is_Ok (resolve_corner sec svi packed_size v) = true) ->
      exists prims', resolve_section sec svi packed_size prims = Ok prims')
  /\ (array_dtype prims = Float64 ->
      (exists e, resolve_section sec svi packed_size prims = Raise e)
      /\ (is_Ok (as_f64 (HavokSection.numPackedVertices sec)) = true ->
          is_Ok (as_f64 (HavokSection.firstSharedVertexIndex sec)) = true ->
          resolve_section sec svi packed_size prims = Raise IndexError)).
Proof.
  split; [|split].
  - intros e H. eapply resolve_section_Raise. exact H.
  - intros Hd Hfit Hall. rewrite (resolve_section_Int64 _ _ _ _ Hd).
    rewrite (resolve_flat_elementwise _ _ _ _ Hfit).
    destruct (mapM_all_Ok (resolve_corner sec svi packed_size)
                (concat (py_slice prims (HavokSection.firstPrimitiveIndex sec)
                           (HavokSection.firstPrimitiveIndex sec
                            + HavokSection.numPrimitives sec)))) as (flat & Hflat).
    + intros v Hv. apply in_concat in Hv. destruct Hv as (row & Hrow & Hv).
      eapply Hall; eassumption.
    + rewrite Hflat. eexists. reflexivity.
  - intros Hd. split.
    + destruct (resolve_section_Float64 sec svi packed_size prims Hd) as (e & He & _).
      exists e. exact He.
    + intros Hn Hfs. unfold resolve_section. rewrite Hd. unfold resolve_float.
      destruct (is_Ok_true _ Hn) as (x & ->).
      destruct (is_Ok_true _ Hfs) as (y & ->).
      reflexivity.
Qed.

Lemma index_rewrite_has_no_range_check_witness :
  (array_dtype [[9; 9; 9; 9]; [0; 1; 2; 2]] = Int64
   /\ operands_fit sample_section 10
   /\ exists prims',
        resolve_section sample_section [5] 10 [[9; 9; 9; 9]; [0; 1; 2; 2]] = Ok prims')
  /\ (array_dtype [[]; []] = Float64
      /\ resolve_section sample_section [5] 10 [[]; []] = Raise IndexError).
Proof.
  assert (Hfit : operands_fit sample_section 10)
    by (unfold operands_fit; simpl; lia).
  split.
  - split; [reflexivity|]. split; [exact Hfit|].
    apply (proj1 (proj2 (index_rewrite_has_no_range_check sample_section [5] 10
                           [[9; 9; 9; 9]; [0; 1; 2; 2]])) eq_refl Hfit).
    intros row v Hrow Hv. simpl in Hrow. destruct Hrow as [<-|[]].
    simpl in Hv. destruct Hv as [<-|[<-|[<-|[<-|[]]]]]; reflexivity.
  - split; [reflexivity|].
    apply (proj2 (proj2 (index_rewrite_has_no_range_check sample_section [5] 10
                           [[]; []])) eq_refl); reflexivity.
Defined.

(** C5, as stated, fails: with two packed vertices and one shared vertex
    the rewritten quad holds index 7 although [verts] has three rows, and
    the geometry is returned. *)
Lemma out_of_range_indices_are_returned :
  exists g,
    HavokGeometry.init (VStr "n_hull") out_of_range_mesh = Ok g
    /\ HavokGeometry.primitives g = [[0; 1; 7; 7]]
    /\ length (HavokGeometry.verts g) = 3%nat.
Proof.
  destruct (HavokGeometry.init (VStr "n_hull") out_of_range_mesh) as [g|e] eqn:Hg;
    [|vm_compute in Hg; discriminate Hg].
  exists g. vm_compute in Hg. inversion Hg; subst; clear Hg. simpl.
  repeat split; reflexivity.
Qed.

(** ** The unified vertex array *)

Lemma unpack_packed_elementwise (packed : list Z) (codec : CodecParams)
    (lo hi : list spec_float) (ds : list Vertex) :
  unpack_packed_vertices packed codec lo hi = Ok ds ->
  length ds = length packed
  /\ forall r p, packed !! r = Some p ->
       exists d, ds !! r = Some d
                 /\ unpack_packed_vertices [p] codec lo hi = Ok [d].
Proof.
  unfold unpack_packed_vertices. intros H.
  apply bind_Ok in H. destruct H as (scale & Hscale & H).
  apply bind_Ok in H. destruct H as (mn & Hmn & H).
  apply bind_Ok in H. destruct H as (lo3 & Hlo & H).
  apply bind_Ok in H. destruct H as (hi3 & Hhi & H).
  inversion H; subst; clear H.
  split; [rewrite !length_map; reflexivity|].
  intros r p Hp.
  rewrite Hscale, Ok_bind, Hmn, Ok_bind, Hlo, Ok_bind, Hhi, Ok_bind.
  exists (clip3 (map3 F32.add (map3 F32.mul (packed_raw p) scale) mn) lo3 hi3).
  split; [|reflexivity].
  rewrite !list_lookup_fmap, Hp. reflexivity.
Qed.

Lemma unpack_shared_elementwise (shared : list Z) (lo hi : list spec_float)
    (ds : list Vertex) :
  unpack_shared_vertices shared lo hi = Ok ds ->
  length ds = length shared
  /\ forall r s, shared !! r = Some s ->
       exists d, ds !! r = Some d
                 /\ unpack_shared_vertices [s] lo hi = Ok [d].
Proof.
  unfold unpack_shared_vertices. intros H.
  apply bind_Ok in H. destruct H as (dv & Hd & H).
  apply bind_Ok in H. destruct H as (ext & Hext & H).
  apply bind_Ok in H. destruct H as (mn & Hmn & H).
  inversion H; subst; clear H.
  split; [rewrite !length_map; reflexivity|].
  intros r s Hs.
  rewrite Hd, Ok_bind, Hext, Ok_bind, Hmn, Ok_bind.
  exists (map3 F32.add (map3 F32.mul (shared_frac s) ext) mn).
  split; [|reflexivity].
  rewrite !list_lookup_fmap, Hs. reflexivity.
Qed.

Lemma slice_range_inside (n a b : Z) :
  0 <= a -> a <= b -> b <= n ->
  slice_range n a b = (Z.to_nat a, Z.to_nat b).
Proof.
  intros Ha Hab Hb. unfold slice_range, slice_bound.
  destruct (Z.ltb_spec a 0), (Z.ltb_spec b 0); try lia.
  rewrite !Z.min_l by lia. reflexivity.
Qed.

Lemma slice_assign_same_length {A} (l : list A) (a b : Z) (src : list A) :
  0 <= a -> a <= b -> b <= len l ->
  length src = Z.to_nat (b - a) ->
  slice_assign l a b src = Ok (replace_rows l (Z.to_nat a) src).
Proof.
  intros Ha Hab Hb Hsrc. unfold slice_assign.
  rewrite slice_range_inside by assumption.
  replace (Z.to_nat b - Z.to_nat a)%nat with (length src) by lia.
  rewrite Nat.eqb_refl. reflexivity.
Qed.

(** The store of one section into [verts]. *)
Lemma section_step_verts (pv svi : list Z) (verts verts' : list (option Vertex))
    (prims prims' : list (list Z)) (sec : HavokSection.t) :
  HavokGeometry.section_step pv svi (verts, prims) sec = Ok (verts', prims') ->
  (forall i, owns sec i -> 0 <= i < len pv) ->
  (length pv <= length verts)%nat ->
  length verts' = length verts
  /\ (forall i : nat, ~ owns sec (Z.of_nat i) -> verts' !! i = verts !! i)
  /\ (forall (i : nat) p, owns sec (Z.of_nat i) -> pv !! i = Some p ->
        exists d,
          unpack_packed_vertices [p] (HavokSection.codec_params sec)
            (HavokSection.domain_min sec) (HavokSection.domain_max sec) = Ok [d]
          /\ verts' !! i = Some (Some d)).
Proof.
  unfold HavokGeometry.section_step, owns. intros H Hin Hpv.
  apply bind_Ok in H. destruct H as (verts1 & Hverts & H).
  apply bind_Ok in H. destruct H as (prims1 & _ & H).
  inversion H; subst; clear H.
  set (a := HavokSection.firstPackedVertexIndex sec) in *.
  set (n := HavokSection.numPackedVertices sec) in *.
  destruct (Z.ltb_spec 0 n) as [Hn|Hn].
  - assert (Ha : 0 <= a /\ a + n <= len pv).
    { pose proof (Hin a ltac:(lia)). pose proof (Hin (a + n - 1) ltac:(lia)). lia. }
    destruct Ha as [Ha Han]. unfold len in Han.
    apply bind_Ok in Hverts. destruct Hverts as (decoded & Hdec & Hverts).
    apply unpack_packed_elementwise in Hdec. destruct Hdec as [Hlen Hdec].
    assert (Hsl : length (py_slice pv a (a + n)) = Z.to_nat n).
    { rewrite py_slice_length, slice_range_inside by (unfold len; lia).
      simpl. lia. }
    rewrite slice_assign_same_length in Hverts
      by (unfold len; rewrite ?length_map; lia).
    inversion Hverts; subst; clear Hverts.
    assert (Hdl : length (map Some decoded) = Z.to_nat n)
      by (rewrite length_map; lia).
    split; [|split].
    + apply replace_rows_length. lia.
    + intros i Hout.
      destruct (Nat.lt_ge_cases i (Z.to_nat a)) as [Hlt|Hge].
      * apply replace_rows_lookup_before; lia.
      * apply replace_rows_lookup_after; lia.
    + intros i p Hown Hp.
      rewrite replace_rows_lookup_in by lia.
      assert (Hps : py_slice pv a (a + n) !! (i - Z.to_nat a)%nat = Some p).
      { rewrite py_slice_lookup;
          rewrite slice_range_inside by (unfold len; lia); simpl; [|lia].
        replace (Z.to_nat a + (i - Z.to_nat a))%nat with i by lia. exact Hp. }
      destruct (Hdec _ _ Hps) as (d & Hd & Hone).
      exists d. split; [exact Hone|].
      rewrite list_lookup_fmap, Hd. reflexivity.
  - inversion Hverts; subst; clear Hverts.
    split; [reflexivity|split; [reflexivity|]].
    intros i p Hown. lia.
Qed.

(** The loop over the sections, on [verts]. *)
Lemma sections_loop_verts (pv svi : list Z) (sections : list HavokSection.t) :
  forall (verts verts' : list (option Vertex)) (prims prims' : list (list Z)),
    for_each (HavokGeometry.section_step pv svi) (verts, prims) sections
    = Ok (verts', prims') ->
    (forall s i, In s sections -> owns s i -> 0 <= i < len pv) ->
    (forall (k k' : nat) s s' i,
       sections !! k = Some s -> sections !! k' = Some s' -> k <> k' ->
       ~ (owns s i /\ owns s' i)) ->
    (length pv <= length verts)%nat ->
    length verts' = length verts
    /\ (forall i : nat,
          (forall s, In s sections -> ~ owns s (Z.of_nat i)) ->
          verts' !! i = verts !! i)
    /\ (forall (i : nat) p s,
          In s sections -> owns s (Z.of_nat i) -> pv !! i = Some p ->
          exists d,
            unpack_packed_vertices [p] (HavokSection.codec_params s)
              (HavokSection.domain_min s) (HavokSection.domain_max s) = Ok [d]
            /\ verts' !! i = Some (Some d)).
Proof.
  induction sections as [|sec rest IH]; intros verts verts' prims prims' H Hin Hdis Hpv.
  - inversion H; subst. split; [reflexivity|split; [reflexivity|]].
    intros i p s [].
  - simpl in H. apply bind_Ok in H. destruct H as ([verts1 prims1] & Hstep & Hrest).
    destruct (section_step_verts _ _ _ _ _ _ _ Hstep) as (Hlen1 & Hout1 & Hin1);
      [intros i Hi; eapply Hin; [left; reflexivity|exact Hi]|exact Hpv|].
    destruct (IH _ _ _ _ Hrest) as (Hlen & Hout & Hown).
    + intros s i Hs. apply Hin. right. exact Hs.
    + intros k k' s s' i Hk Hk' Hne.
      apply (Hdis (S k) (S k') s s' i); [exact Hk|exact Hk'|lia].
    + lia.
    + split; [lia|split].
      * intros i Hnone. rewrite Hout, Hout1; [reflexivity| |].
        -- apply Hnone. left. reflexivity.
        -- intros s Hs. apply Hnone. right. exact Hs.
      * intros i p s [<-|Hs] Hi Hp.
        -- destruct (Hin1 i p Hi Hp) as (d & Hd & Hv).
           exists d. split; [exact Hd|].
           rewrite Hout; [exact Hv|].
           intros s' Hs' Hi'. apply list_elem_of_In, list_elem_of_lookup in Hs'.
           destruct Hs' as (k' & Hk').
           apply (Hdis 0%nat (S k') sec s' (Z.of_nat i)); [reflexivity|exact Hk'|lia|].
           split; assumption.
        -- eapply Hown; eassumption.
Qed.

Lemma init_parts (name meshTree : TagValue) (g : HavokGeometry.t) :
  HavokGeometry.init name meshTree = Ok g ->
  exists shared verts1 prims0,
    unpack_shared_vertices (HavokGeometry.sharedVertices g)
      (HavokGeometry.domain_min g) (HavokGeometry.domain_max g) = Ok shared
    /\ slice_assign
         (replicate (length (HavokGeometry.packedVertices g)
                     + length (HavokGeometry.sharedVertices g)) None)
         (len (HavokGeometry.packedVertices g))
         (len (replicate (length (HavokGeometry.packedVertices g)
                          + length (HavokGeometry.sharedVertices g))
                 (@None Vertex)))
         (map Some shared) = Ok verts1
    /\ for_each (HavokGeometry.section_step (HavokGeometry.packedVertices g)
                   (HavokGeometry.sharedVerticesIndex g))
         (verts1, prims0) (HavokGeometry.sections g)
       = Ok (HavokGeometry.verts g, HavokGeometry.primitives g).
Proof.
  unfold HavokGeometry.init. intros H.
  repeat (apply bind_Ok in H; destruct H as (? & ? & H)).
  inversion H; subst; clear H. simpl.
  match goal with
  | Hl : for_each _ _ _ = Ok ?st |- _ => destruct st as [vs ps]
  end.
  eauto 10.
Qed.

(** C9. In a constructed geometry whose sections' packed-vertex ranges are
    pairwise disjoint and cover [[0, len(packedVertices))] exactly, [verts]
    has [len(packedVertices) + len(sharedVertices)] rows; row [i] below
    [len(packedVertices)] is packed vertex [i] decoded with the codec and
    the domain of the one section owning [i]; row
    [len(packedVertices) + j] is shared vertex [j] decoded with the domain
    of the geometry. *)
Theorem verts_layout (name meshTree : TagValue) (g : HavokGeometry.t) :
  HavokGeometry.init name meshTree = Ok g ->
  packed_ranges_partition (HavokGeometry.sections g)
    (len (HavokGeometry.packedVertices g)) ->
  length (HavokGeometry.verts g)
  = (length (HavokGeometry.packedVertices g)
     + length (HavokGeometry.sharedVertices g))%nat
  /\ (forall (i : nat) p,
        HavokGeometry.packedVertices g !! i = Some p ->
        exists (k : nat) s d,
          HavokGeometry.sections g !! k = Some s
          /\ owns s (Z.of_nat i)
          /\ (forall (k' : nat) s',
                HavokGeometry.sections g !! k' = Some s' ->
                owns s' (Z.of_nat i) -> k' = k)
          /\ unpack_packed_vertices [p] (HavokSection.codec_params s)
               (HavokSection.domain_min s) (HavokSection.domain_max s) = Ok [d]
          /\ HavokGeometry.verts g !! i = Some (Some d))
  /\ (forall (j : nat) sv,
        HavokGeometry.sharedVertices g !! j = Some sv ->
        exists d,
          unpack_shared_vertices [sv] (HavokGeometry.domain_min g)
            (HavokGeometry.domain_max g) = Ok [d]
          /\ HavokGeometry.verts g
               !! (length (HavokGeometry.packedVertices g) + j)%nat
             = Some (Some d)).
Proof.
  intros Hinit (Hdis & Hsub & Hcover).
  destruct (init_parts _ _ _ Hinit) as (shared & verts1 & prims0 & Hshared & Hassign & Hloop).
  set (pv := HavokGeometry.packedVertices g) in *.
  set (sv := HavokGeometry.sharedVertices g) in *.
  apply unpack_shared_elementwise in Hshared. destruct Hshared as [Hslen Hsdec].
  rewrite slice_assign_same_length in Hassign
    by (unfold len; rewrite ?length_replicate, ?length_map; lia).
  inversion Hassign; subst verts1; clear Hassign.
  assert (Hlen1 : length (replace_rows (replicate (length pv + length sv) (@None Vertex))
                            (Z.to_nat (len pv)) (map Some shared))
                  = (length pv + length sv)%nat).
  { rewrite replace_rows_length; rewrite ?length_replicate, ?length_map;
      unfold len; lia. }
  destruct (sections_loop_verts _ _ _ _ _ _ _ Hloop Hsub Hdis) as (Hlen & Hout & Hown);
    [lia|].
  split; [lia|split].
  - intros i p Hp.
    assert (Hi : 0 <= Z.of_nat i < len pv)
      by (apply lookup_lt_Some in Hp; unfold len; lia).
    destruct (Hcover _ Hi) as (s & Hs & Hsi).
    pose proof Hs as Hs'. apply list_elem_of_In, list_elem_of_lookup in Hs'.
    destruct Hs' as (k & Hk).
    destruct (Hown i p s Hs Hsi Hp) as (d & Hd & Hv).
    exists k, s, d.
    split; [exact Hk|split; [exact Hsi|split; [|split; [exact Hd|exact Hv]]]].
    intros k' s' Hk' Hsi'.
    destruct (Nat.eq_dec k' k) as [|Hne]; [assumption|exfalso].
    apply (Hdis k' k s' s (Z.of_nat i)); auto.
  - intros j x Hx.
    destruct (Hsdec _ _ Hx) as (d & Hd & Hone).
    exists d. split; [exact Hone|].
    rewrite Hout.
    + rewrite replace_rows_lookup_in;
        rewrite ?length_replicate, ?length_map; unfold len;
        [|lia|apply lookup_lt_Some in Hx; lia].
      rewrite list_lookup_fmap.
      replace (length pv + j - Z.to_nat (Z.of_nat (length pv)))%nat with j by lia.
      rewrite Hd. reflexivity.
    + intros s Hs Hsi. pose proof (Hsub _ _ Hs Hsi). unfold len in *. lia.
Qed.

Lemma verts_layout_witness :
  exists g,
    HavokGeometry.init (VStr "n_hull") sample_mesh = Ok g
    /\ packed_ranges_partition (HavokGeometry.sections g)
         (len (HavokGeometry.packedVertices g))
    /\ length (HavokGeometry.verts g) = 8%nat
    /\ HavokGeometry.verts g !! 1%nat = Some (Some (F32.one, F32.zero, F32.zero))
    /\ HavokGeometry.verts g !! 7%nat = Some (Some (F32.one, F32.zero, F32.zero)).
Proof.
  destruct (HavokGeometry.init (VStr "n_hull") sample_mesh) as [g|e] eqn:Hg;
    [|vm_compute in Hg; discriminate Hg].
  exists g. split; [reflexivity|].
  assert (Hpart : packed_ranges_partition (HavokGeometry.sections g)
                    (len (HavokGeometry.packedVertices g))).
  { vm_compute in Hg. inversion Hg; subst; clear Hg. simpl.
    unfold packed_ranges_partition, owns, len. simpl. split; [|split].
    - intros [|k] [|k'] s s' i Hk Hk' Hne; try discriminate; congruence.
    - intros s i [<-|[]]. simpl. lia.
    - intros i Hi. eexists. split; [left; reflexivity|]. simpl. lia. }
  split; [exact Hpart|].
  destruct (verts_layout _ _ _ Hg Hpart) as (Hlen & Hpacked & Hshared).
  vm_compute in Hg. inversion Hg; subst; clear Hg.
  split; [exact Hlen|split; reflexivity].
Defined.

(** ** IEEE-754 rounding

    Facts about [binary_round_aux] of the Standard Library's [SpecFloat]:
    it never yields NaN on a non-negative mantissa, and it does not round
    a value of at most one to more than one. *)

Lemma iter_pos_invariant {A} (P : A -> Prop) (f : A -> A) :
  (forall x, P x -> P (f x)) ->
  forall p x, P x -> P (SpecFloat.iter_pos f p x).
Proof.
  intros Hf. induction p as [p IH|p IH|]; intros x Hx; simpl.
  - apply IH, IH, Hf, Hx.
  - apply IH, IH, Hx.
  - apply Hf, Hx.
Qed.

Lemma shr_1_nonneg (mrs : shr_record) : 0 <= shr_m mrs -> 0 <= shr_m (shr_1 mrs).
Proof.
  destruct mrs as [m r s]. simpl. destruct m as [|[p|p|]|p]; simpl; lia.
Qed.

Lemma shr_m_of_loc (m : Z) (l : location) : shr_m (shr_record_of_loc m l) = m.
Proof. destruct l as [|[| |]]; reflexivity. Qed.

Section Rounding.
Variables prec emax : Z.

Lemma shr_fexp_nonneg (m e : Z) (l : location) :
  0 <= m -> 0 <= shr_m (fst (shr_fexp prec emax m e l)).
Proof.
  intros Hm. unfold shr_fexp, shr.
  destruct (fexp prec emax (Zdigits2 m + e) - e) as [|p|p]; simpl;
    rewrite ?shr_m_of_loc; try assumption.
  apply (iter_pos_invariant (fun mrs => 0 <= shr_m mrs)).
  - apply shr_1_nonneg.
  - rewrite shr_m_of_loc. assumption.
Qed.

Lemma round_nearest_even_nonneg (m : Z) (l : location) :
  0 <= m -> 0 <= round_nearest_even m l.
Proof.
  intros Hm. unfold round_nearest_even.
  destruct l as [|[| |]]; try destruct (Z.even m); lia.
Qed.

Lemma binary_round_aux_not_nan (s : bool) (m e : Z) (l : location) :
  0 <= m -> is_nan (binary_round_aux prec emax s m e l) = false.
Proof.
  intros Hm. unfold binary_round_aux.
  pose proof (shr_fexp_nonneg m e l Hm) as H1.
  destruct (shr_fexp prec emax m e l) as [mrs' e']. simpl in H1.
  pose proof (shr_fexp_nonneg
                (round_nearest_even (shr_m mrs') (loc_of_shr_record mrs')) e'
                loc_Exact (round_nearest_even_nonneg _ _ H1)) as H2.
  destruct (shr_fexp prec emax _ e' loc_Exact) as [mrs'' e'']. simpl in H2.
  destruct (shr_m mrs'') as [|p|p]; [reflexivity| |lia].
  destruct (e'' <=? emax - prec); reflexivity.
Qed.

Lemma binary_round_not_nan (s : bool) (m : positive) (e : Z) :
  is_nan (binary_round prec emax s m e) = false.
Proof.
  unfold binary_round.
  destruct (shl_align m e _) as [mz ez].
  apply binary_round_aux_not_nan. lia.
Qed.

Lemma binary_normalize_not_nan (m e : Z) (sz : bool) :
  is_nan (binary_normalize prec emax m e sz) = false.
Proof.
  unfold binary_normalize. destruct m; [reflexivity| |];
    apply binary_round_not_nan.
Qed.

Lemma SFmul_finite_not_nan (x y : spec_float) :
  is_finite x = true -> is_finite y = true ->
  is_nan (SFmul prec emax x y) = false.
Proof.
  destruct x as [sx|sx| |sx mx ex], y as [sy|sy| |sy my ey]; try discriminate;
    intros _ _; try reflexivity.
  simpl. apply binary_round_aux_not_nan. lia.
Qed.

Lemma SFadd_not_nan (x y : spec_float) :
  is_nan x = false -> is_finite y = true ->
  is_nan (SFadd prec emax x y) = false.
Proof.
  destruct x as [sx|sx| |sx mx ex], y as [sy|sy| |sy my ey]; try discriminate;
    intros _ _; try reflexivity.
  - simpl. destruct sx, sy; reflexivity.
  - simpl. apply binary_normalize_not_nan.
Qed.
End Rounding.

(** ** Comparisons *)

Lemma SFcompare_antisym (x y : spec_float) :
  SFcompare y x = option_map CompOpp (SFcompare x y).
Proof.
  destruct x as [sx|sx| |sx mx ex], y as [sy|sy| |sy my ey]; simpl;
    try reflexivity; try (destruct sx; reflexivity); try (destruct sy; reflexivity);
    try (destruct sx, sy; reflexivity).
  pose proof (Pos.compare_cont_antisym mx my Eq) as Hm. simpl in Hm.
  destruct sx, sy; try reflexivity;
    rewrite (Z.compare_antisym ex ey);
    destruct (ex ?= ey); simpl; try reflexivity;
    rewrite <- Hm;
    destruct (Pos.compare_cont Eq mx my); reflexivity.
Qed.

Lemma SFcompare_refl (x : spec_float) :
  is_nan x = false -> SFcompare x x = Some Eq.
Proof.
  destruct x as [s|s| |s m e]; simpl; try discriminate; intros _;
    try reflexivity; try (destruct s; reflexivity).
  destruct s; rewrite Z.compare_refl, Pos.compare_cont_refl; reflexivity.
Qed.

Lemma SFcompare_not_nan (x y : spec_float) :
  is_nan x = false -> is_nan y = false -> exists c, SFcompare x y = Some c.
Proof.
  destruct x as [sx|sx| |sx mx ex], y as [sy|sy| |sy my ey]; simpl;
    try discriminate; intros _ _; eexists; reflexivity.
Qed.

Lemma leb_refl (x : spec_float) : is_nan x = false -> F32.leb x x = true.
Proof. intros H. unfold F32.leb, SFleb. rewrite SFcompare_refl by assumption. reflexivity. Qed.

Lemma ltb_leb (x y : spec_float) : F32.ltb x y = true -> F32.leb x y = true.
Proof.
  unfold F32.ltb, F32.leb, SFltb, SFleb.
  destruct (SFcompare x y) as [[| |]|]; auto.
Qed.

Lemma not_ltb_leb (x y : spec_float) :
  is_nan x = false -> is_nan y = false ->
  F32.ltb x y = false -> F32.leb y x = true.
Proof.
  intros Hx Hy. unfold F32.ltb, F32.leb, SFltb, SFleb.
  rewrite (SFcompare_antisym x y).
  destruct (SFcompare_not_nan x y Hx Hy) as (c & ->).
  destruct c; simpl; auto.
Qed.

Lemma leb_not_ltb (x y : spec_float) : F32.leb x y = true -> F32.ltb y x = false.
Proof.
  unfold F32.ltb, F32.leb, SFltb, SFleb.
  rewrite (SFcompare_antisym x y).
  destruct (SFcompare x y) as [[| |]|]; simpl; auto; discriminate.
Qed.

Lemma leb_not_nan (x y : spec_float) :
  F32.leb x y = true -> is_nan x = false /\ is_nan y = false.
Proof.
  unfold F32.leb, SFleb.
  destruct x as [sx|sx| |sx mx ex], y as [sy|sy| |sy my ey]; simpl;
    try discriminate; auto.
Qed.

Lemma ltb_nan_l (y : spec_float) : F32.ltb S754_nan y = false.
Proof. reflexivity. Qed.

Lemma ltb_nan_r (x : spec_float) : F32.ltb x S754_nan = false.
Proof. destruct x; reflexivity. Qed.

(** ** Clamping *)

Lemma np_clip_nan (x lo hi : spec_float) :
  is_nan x = true -> np_clip x lo hi = S754_nan.
Proof. destruct x; try discriminate. reflexivity. Qed.

Lemma np_clip_inside (x lo hi : spec_float) :
  F32.leb lo hi = true ->
  is_nan x = false ->
  inside lo (np_clip x lo hi) hi.
Proof.
  intros Hle Hx. destruct (leb_not_nan _ _ Hle) as [Hlo Hhi].
  unfold np_clip, clip_max. rewrite Hx.
  set (m := if F32.ltb lo x then x else lo).
  assert (Hm : is_nan m = false) by (subst m; destruct (F32.ltb lo x); assumption).
  assert (Hlm : F32.leb lo m = true).
  { subst m. destruct (F32.ltb lo x) eqn:Hlt; [apply ltb_leb, Hlt|apply leb_refl, Hlo]. }
  unfold clip_min. rewrite Hm.
  destruct (F32.ltb m hi) eqn:Hlt; split.
  - exact Hlm.
  - apply ltb_leb, Hlt.
  - exact Hle.
  - apply leb_refl, Hhi.
Qed.

Lemma np_clip_not_outside (x lo hi : spec_float) :
  F32.leb lo hi = true ->
  ~ outside lo (np_clip x lo hi) hi.
Proof.
  intros Hle. destruct (is_nan x) eqn:Hx.
  - rewrite np_clip_nan by assumption. intros [H|H].
    + rewrite ltb_nan_l in H. discriminate.
    + rewrite ltb_nan_r in H. discriminate.
  - destruct (np_clip_inside x lo hi Hle Hx) as [H1 H2].
    intros [H|H].
    + rewrite (leb_not_ltb _ _ H1) in H. discriminate.
    + rewrite (leb_not_ltb _ _ H2) in H. discriminate.
Qed.

(** ** The packed decode *)

Lemma upto_In (n : nat) (z : Z) : 0 <= z < Z.of_nat n -> In z (upto n).
Proof.
  intros H. unfold upto. apply in_map_iff. exists (Z.to_nat z).
  split; [lia|]. apply in_seq. lia.
Qed.

Lemma raw_field_finite (n : Z) :
  0 <= n < 2048 -> is_finite (F32.of_Z n) = true.
Proof.
  intros H.
  assert (Hall : forallb (fun z => is_finite (F32.of_Z z)) (upto 2048) = true)
    by (vm_compute; reflexivity).
  rewrite forallb_forall in Hall. apply Hall. apply upto_In. lia.
Qed.

Lemma land_low_bits (p : Z) (k : Z) :
  0 <= k -> Z.land p (2 ^ k - 1) = p mod 2 ^ k.
Proof.
  intros Hk. replace (2 ^ k - 1) with (Z.ones k) by (rewrite Z.ones_equiv; lia).
  apply Z.land_ones. assumption.
Qed.

Lemma affine_not_nan (n : Z) (sc m : spec_float) :
  0 <= n < 2048 ->
  is_finite sc = true -> is_finite m = true ->
  is_nan (F32.add (F32.mul (F32.of_Z n) sc) m) = false.
Proof.
  intros Hn Hsc Hm. apply SFadd_not_nan; [|assumption].
  apply SFmul_finite_not_nan; [|assumption].
  apply raw_field_finite. assumption.
Qed.

Lemma packed_fields (p : Z) :
  0 <= p < 2 ^ 32 ->
  let x := Z.land p 0x7FF in
  let y := Z.land (Z.shiftr p 11) 0x7FF in
  let z := Z.land (Z.shiftr p 22) 0x3FF in
  0 <= x < 2 ^ 11 /\ 0 <= y < 2 ^ 11 /\ 0 <= z < 2 ^ 10
  /\ p = x + 2 ^ 11 * y + 2 ^ 22 * z.
Proof.
  intros Hp. cbv zeta.
  change 0x7FF with (2 ^ 11 - 1). change 0x3FF with (2 ^ 10 - 1).
  rewrite !land_low_bits, !Z.shiftr_div_pow2 by lia.
  pose proof (Z.mod_pos_bound p (2 ^ 11) ltac:(lia)).
  pose proof (Z.mod_pos_bound (p / 2 ^ 11) (2 ^ 11) ltac:(lia)).
  pose proof (Z.mod_pos_bound (p / 2 ^ 22) (2 ^ 10) ltac:(lia)).
  repeat split; try lia.
  assert (H22 : p / 2 ^ 22 = p / 2 ^ 11 / 2 ^ 11)
    by (rewrite Z.div_div by lia; reflexivity).
  assert (Hsmall : (p / 2 ^ 22) mod 2 ^ 10 = p / 2 ^ 22).
  { apply Z.mod_small. split; [apply Z.div_pos; lia|].
    apply Z.div_lt_upper_bound; lia. }
  rewrite Hsmall, H22.
  pose proof (Z.div_mod p (2 ^ 11) ltac:(lia)).
  pose proof (Z.div_mod (p / 2 ^ 11) (2 ^ 11) ltac:(lia)).
  lia.
Qed.

Lemma raw_field_range (p : Z) :
  0 <= Z.land p 0x7FF < 2048
  /\ 0 <= Z.land (Z.shiftr p 11) 0x7FF < 2048
  /\ 0 <= Z.land (Z.shiftr p 22) 0x3FF < 2048.
Proof.
  change 0x7FF with (2 ^ 11 - 1). change 0x3FF with (2 ^ 10 - 1).
  rewrite !land_low_bits by lia.
  pose proof (Z.mod_pos_bound p (2 ^ 11) ltac:(lia)).
  pose proof (Z.mod_pos_bound (Z.shiftr p 11) (2 ^ 11) ltac:(lia)).
  pose proof (Z.mod_pos_bound (Z.shiftr p 22) (2 ^ 10) ltac:(lia)).
  lia.
Qed.

Lemma unpack_packed_three (packed : list Z) (scale mn lo hi : Vertex) :
  unpack_packed_vertices packed
    {| min_xyz := vec mn; scale_xyz := vec scale |} (vec lo) (vec hi)
  = Ok (map (fun p => decode_packed p scale mn lo hi) packed).
Proof.
  destruct scale as [[sx sy] sz], mn as [[mx my] mz], lo as [[lx ly] lz],
    hi as [[hx hy] hz].
  unfold unpack_packed_vertices, vec, vx, vy, vz. cbn [fst snd scale_xyz min_xyz].
  cbn [broadcast3]. rewrite !Ok_bind. rewrite !map_map. reflexivity.
Qed.

Lemma np_clip_zero (lo hi : spec_float) :
  F32.leb lo F32.zero = true -> F32.leb F32.zero hi = true ->
  F32.eqb (np_clip F32.zero lo hi) F32.zero = true.
Proof.
  destruct lo as [[]|[]| |[] ml el], hi as [[]|[]| |[] mh eh];
    try discriminate; intros _ _; reflexivity.
Qed.

(** C2, as amended. [unpack_packed_vertices] takes the bit fields
    [p & 0x7FF], [(p >> 11) & 0x7FF], [(p >> 22) & 0x3FF] (11, 11 and 10
    bits, together the 32 bits of [p]), maps each axis by
    [raw * scale + min] and applies [np.clip]; with
    [domain_min <= domain_max] no output coordinate is below [domain_min]
    or above [domain_max], and a coordinate lies in
    [[domain_min, domain_max]] whenever its [raw * scale + min] is a
    number, which is so for every finite codec, not for every codec.
    Packed value 0 with scale 1 and offset 0 decodes to (0, 0, 0) in a
    domain holding 0, and the raw x of [0x7FF] is 2047. *)
Theorem unpack_packed_vertices_clamps
    (packed : list Z) (scale mn lo hi : Vertex) :
  le3 lo hi ->
  unpack_packed_vertices packed
    {| min_xyz := vec mn; scale_xyz := vec scale |} (vec lo) (vec hi)
  = Ok (map (fun p => clip3 (affine_packed p scale mn) lo hi) packed)
  /\ (forall p,
        packed_raw p = (F32.of_Z (Z.land p 0x7FF),
                        F32.of_Z (Z.land (Z.shiftr p 11) 0x7FF),
                        F32.of_Z (Z.land (Z.shiftr p 22) 0x3FF))
        /\ (0 <= p < 2 ^ 32 ->
            0 <= Z.land p 0x7FF < 2 ^ 11
            /\ 0 <= Z.land (Z.shiftr p 11) 0x7FF < 2 ^ 11
            /\ 0 <= Z.land (Z.shiftr p 22) 0x3FF < 2 ^ 10
            /\ p = Z.land p 0x7FF + 2 ^ 11 * Z.land (Z.shiftr p 11) 0x7FF
                   + 2 ^ 22 * Z.land (Z.shiftr p 22) 0x3FF))
  /\ (forall p, ~ outside3 lo (decode_packed p scale mn lo hi) hi)
  /\ (forall p, nan_free (affine_packed p scale mn) ->
                inside3 lo (decode_packed p scale mn lo hi) hi)
  /\ (finite3 scale -> finite3 mn ->
      forall p, inside3 lo (decode_packed p scale mn lo hi) hi)
  /\ (le3 lo zeros -> le3 zeros hi -> eq3 (decode_packed 0 ones zeros lo hi) zeros)
  /\ vx (packed_raw 0x7FF) = F32.of_Z 2047.
Proof.
  intros (Hx & Hy & Hz).
  split; [apply unpack_packed_three|].
  split; [intros p; split; [reflexivity|apply packed_fields]|].
  assert (Hin : forall p, nan_free (affine_packed p scale mn) ->
                          inside3 lo (decode_packed p scale mn lo hi) hi).
  { intros p (Hnx & Hny & Hnz).
    destruct scale as [[sx sy] sz], mn as [[mx my] mz], lo as [[lx ly] lz],
      hi as [[hx hy] hz].
    unfold inside3, decode_packed, affine_packed, packed_raw, vx, vy, vz in *.
    cbn [fst snd map3 clip3] in *.
    repeat split; apply np_clip_inside; assumption. }
  split; [|split; [exact Hin|split; [|split]]].
  - intros p.
    destruct scale as [[sx sy] sz], mn as [[mx my] mz], lo as [[lx ly] lz],
      hi as [[hx hy] hz].
    unfold outside3, decode_packed, packed_raw, vx, vy, vz in *.
    cbn [fst snd map3 clip3] in *.
    intros [H|[H|H]]; revert H; apply np_clip_not_outside; assumption.
  - intros (Fx & Fy & Fz) (Mx & My & Mz) p. apply Hin.
    destruct (raw_field_range p) as (Rx & Ry & Rz).
    destruct scale as [[sx sy] sz], mn as [[mx my] mz].
    unfold nan_free, affine_packed, packed_raw, vx, vy, vz in *.
    cbn [fst snd map3] in *.
    repeat split; apply affine_not_nan; assumption.
  - intros (Lx & Ly & Lz) (Ux & Uy & Uz).
    destruct lo as [[lx ly] lz], hi as [[hx hy] hz].
    unfold eq3, decode_packed, zeros, vx, vy, vz in *. cbn [fst snd] in *.
    change (map3 F32.add (map3 F32.mul (packed_raw 0) ones) (F32.zero, F32.zero, F32.zero))
      with (F32.zero, F32.zero, F32.zero).
    cbn [clip3 fst snd].
    repeat split; apply np_clip_zero; assumption.
  - reflexivity.
Qed.

Lemma unpack_packed_vertices_clamps_witness :
  le3 zeros ones
  /\ unpack_packed_vertices [0; 0x7FF]
       {| min_xyz := vec zeros; scale_xyz := vec ones |} (vec zeros) (vec ones)
     = Ok [zeros; (F32.one, F32.zero, F32.zero)]
  /\ F32.ltb F32.one (vx (affine_packed 0x7FF ones zeros)) = true
  /\ inside3 zeros (decode_packed 0x7FF ones zeros zeros ones) ones.
Proof.
  assert (Hle : le3 zeros ones) by (repeat split).
  destruct (unpack_packed_vertices_clamps [0; 0x7FF] ones zeros zeros ones Hle)
    as (Heq & _ & _ & _ & Hfin & _).
  split; [exact Hle|split; [|split]].
  - rewrite Heq. reflexivity.
  - reflexivity.
  - apply Hfin; repeat split.
Defined.

(** C2, as stated, fails for a codec that is not finite: a codec value
    of 2^128 is infinite in [float32], the raw field 0 times infinity is
    NaN, and [np.clip] returns a NaN as it is. The vertex decoded in the
    domain [[0, 1]] is not in the domain, and it is stored in [verts]. *)
Lemma nan_passes_the_clamp :
  le3 zeros ones
  /\ np_array_f32 [VInt (2 ^ 128); VInt (2 ^ 128); VInt (2 ^ 128)]
     = Ok [S754_infinity false; S754_infinity false; S754_infinity false]
  /\ unpack_packed_vertices [0]
       {| min_xyz := vec zeros;
          scale_xyz := [S754_infinity false; S754_infinity false;
                        S754_infinity false] |}
       (vec zeros) (vec ones)
     = Ok [(S754_nan, S754_nan, S754_nan)]
  /\ ~ inside3 zeros (S754_nan, S754_nan, S754_nan) ones
  /\ exists g,
       HavokGeometry.init (VStr "n_hull") nan_mesh = Ok g
       /\ HavokGeometry.verts g = [Some (S754_nan, S754_nan, S754_nan)].
Proof.
  split; [repeat split|]. split; [reflexivity|]. split; [reflexivity|].
  split.
  - intros ((H & _) & _). discriminate H.
  - destruct (HavokGeometry.init (VStr "n_hull") nan_mesh) as [g|e] eqn:Hg;
      [|vm_compute in Hg; discriminate Hg].
    exists g. split; [reflexivity|].
    vm_compute in Hg. inversion Hg; subst; clear Hg. reflexivity.
Qed.

(** ** Rounding a value of at most one *)

Lemma loc_of_record_of_loc (m : Z) (l : location) :
  loc_of_shr_record (shr_record_of_loc m l) = l.
Proof. destruct l as [|[| |]]; reflexivity. Qed.

Lemma shr_1_bound (k : Z) (mrs : shr_record) :
  1 <= k -> bound_inv k mrs -> bound_inv (k - 1) (shr_1 mrs).
Proof.
  intros Hk [[Hm0 Hm] Hstrict].
  assert (Hpow : 2 ^ k = 2 * 2 ^ (k - 1)).
  { replace k with (Z.succ (k - 1)) at 1 by lia. apply Z.pow_succ_r. lia. }
  assert (Hpos : 0 < 2 ^ (k - 1)) by (apply Z.pow_pos_nonneg; lia).
  destruct mrs as [m r s]. unfold bound_inv. simpl in *.
  assert (Hrs : orb r s = true -> m < 2 ^ k).
  { intros H. apply Hstrict. destruct r, s; simpl; discriminate. }
  destruct m as [|[p|p|]|p]; simpl; try (exfalso; lia);
    (split; [lia|]); intros H;
    (destruct (orb r s) eqn:E;
     [specialize (Hrs eq_refl); lia
     |try lia; exfalso; apply H; reflexivity]).
Qed.

Lemma iter_shr_bound (p : positive) :
  forall (k : Z) (mrs : shr_record),
    Zpos p <= k -> bound_inv k mrs ->
    bound_inv (k - Zpos p) (SpecFloat.iter_pos shr_1 p mrs).
Proof.
  induction p as [p IH|p IH|]; intros k mrs Hk H; simpl.
  - replace (k - Z.pos p~1) with (k - 1 - Zpos p - Zpos p) by lia.
    apply IH; [lia|]. apply IH; [lia|]. apply shr_1_bound; [lia|assumption].
  - replace (k - Z.pos p~0) with (k - Zpos p - Zpos p) by lia.
    apply IH; [lia|]. apply IH; [lia|assumption].
  - apply shr_1_bound; [lia|assumption].
Qed.

Lemma digits2_pos_lower (p : positive) :
  2 ^ (Zpos (digits2_pos p) - 1) <= Zpos p.
Proof.
  induction p as [p IH|p IH|]; simpl; [| |reflexivity];
    rewrite Pos2Z.inj_succ;
    replace (Z.succ (Zpos (digits2_pos p)) - 1)
      with (Z.succ (Zpos (digits2_pos p) - 1)) by lia;
    rewrite Z.pow_succ_r by lia; lia.
Qed.

Lemma digits2_pos_upper (p : positive) :
  Zpos p < 2 ^ Zpos (digits2_pos p).
Proof.
  induction p as [p IH|p IH|]; simpl; [| |reflexivity];
    rewrite Pos2Z.inj_succ, Z.pow_succ_r by lia; lia.
Qed.

Lemma Zdigits2_le (m k : Z) :
  0 <= k -> 0 <= m <= 2 ^ k -> Zdigits2 m <= k + 1.
Proof.
  intros Hk [Hm0 Hm]. destruct m as [|p|p]; simpl; [lia| |lia].
  pose proof (digits2_pos_lower p) as Hl.
  assert (H : 2 ^ (Zpos (digits2_pos p) - 1) <= 2 ^ k) by lia.
  apply Z.pow_le_mono_r_iff in H; lia.
Qed.

Lemma binary32_ok : format_ok F32.prec F32.emax.
Proof. unfold format_ok, F32.prec, F32.emax. lia. Qed.

Lemma binary64_ok : format_ok F64.prec F64.emax.
Proof. unfold format_ok, F64.prec, F64.emax. lia. Qed.

Section RoundLeOne.
Variables prec emax : Z.
Hypothesis Hfmt : format_ok prec emax.

Lemma fexp_le_one (x : Z) : x <= 1 -> fexp prec emax x <= 1 - prec.
Proof.
  destruct Hfmt as (Hprec & Hemax & Hemax2).
  intros Hx. unfold fexp, emin. lia.
Qed.

Lemma shr_fexp_bound (m e : Z) (l : location) :
  e <= 1 - prec ->
  bound_inv (- e) (shr_record_of_loc m l) ->
  snd (shr_fexp prec emax m e l) <= 1 - prec
  /\ bound_inv (- snd (shr_fexp prec emax m e l))
               (fst (shr_fexp prec emax m e l)).
Proof.
  destruct Hfmt as (Hprec & Hemax & Hemax2).
  intros He Hinv. unfold shr_fexp, shr.
  assert (Hf : fexp prec emax (Zdigits2 m + e) <= 1 - prec).
  { apply fexp_le_one. destruct Hinv as [Hm _]. rewrite shr_m_of_loc in Hm.
    pose proof (Zdigits2_le m (- e) ltac:(lia) Hm). lia. }
  destruct (fexp prec emax (Zdigits2 m + e) - e) as [|p|p] eqn:Hn; simpl;
    try (split; assumption).
  split; [lia|].
  replace (- (e + Z.pos p)) with (- e - Z.pos p) by lia.
  apply iter_shr_bound; [lia|assumption].
Qed.

Lemma round_bound (k : Z) (mrs : shr_record) :
  bound_inv k mrs ->
  0 <= round_nearest_even (shr_m mrs) (loc_of_shr_record mrs) <= 2 ^ k.
Proof.
  destruct Hfmt as (Hprec & Hemax & Hemax2).
  intros [[Hm0 Hm] Hstrict]. unfold round_nearest_even.
  destruct (loc_of_shr_record mrs) as [|[| |]]; try lia.
  - destruct (Z.even (shr_m mrs)); [lia|].
    assert (shr_m mrs < 2 ^ k) by (apply Hstrict; discriminate). lia.
  - assert (shr_m mrs < 2 ^ k) by (apply Hstrict; discriminate). lia.
Qed.

Lemma binary_round_aux_le_one (m e : Z) (l : location) :
  e <= 1 - prec ->
  0 <= m <= 2 ^ (- e) ->
  (l <> loc_Exact -> m < 2 ^ (- e)) ->
  le_one prec (binary_round_aux prec emax false m e l).
Proof.
  destruct Hfmt as (Hprec & Hemax & Hemax2).
  intros He Hm Hl. unfold binary_round_aux.
  assert (H0 : bound_inv (- e) (shr_record_of_loc m l)).
  { unfold bound_inv. rewrite shr_m_of_loc, loc_of_record_of_loc. auto. }
  destruct (shr_fexp_bound m e l He H0) as [He1 H1].
  destruct (shr_fexp prec emax m e l) as [mrs' e']. simpl in He1, H1.
  pose proof (round_bound _ _ H1) as Hr.
  set (m2 := round_nearest_even (shr_m mrs') (loc_of_shr_record mrs')) in *.
  assert (H2 : bound_inv (- e') (shr_record_of_loc m2 loc_Exact)).
  { unfold bound_inv. rewrite shr_m_of_loc, loc_of_record_of_loc.
    split; [exact Hr|]. intros H. exfalso. apply H. reflexivity. }
  destruct (shr_fexp_bound m2 e' loc_Exact He1 H2) as [He2 H3].
  destruct (shr_fexp prec emax m2 e' loc_Exact) as [mrs'' e'']. simpl in He2, H3.
  destruct H3 as [[Hm0 Hmle] _].
  destruct (shr_m mrs'') as [|p|p] eqn:Hp.
  - left. reflexivity.
  - right. exists p, e''.
    destruct (Z.leb_spec e'' (emax - prec)); [|lia].
    split; [reflexivity|]. split; assumption.
  - lia.
Qed.

Lemma Zpos_iter_xO (m d : positive) :
  Zpos (Pos.iter xO m d) = Zpos m * 2 ^ Zpos d.
Proof.
  induction d as [|d IH] using Pos.peano_ind.
  - simpl. lia.
  - rewrite Pos.iter_succ, Pos2Z.inj_succ, Z.pow_succ_r by lia.
    rewrite Pos2Z.inj_xO, IH. lia.
Qed.

Lemma binary_round_le_one (m : positive) (e : Z) :
  e <= 0 -> Zpos m <= 2 ^ (- e) ->
  le_one prec (binary_round prec emax false m e).
Proof.
  destruct Hfmt as (Hprec & Hemax & Hemax2).
  intros He Hm. unfold binary_round, shl_align.
  assert (Hf : fexp prec emax (Zpos (digits2_pos m) + e) <= 1 - prec).
  { apply fexp_le_one.
    pose proof (Zdigits2_le (Zpos m) (- e) ltac:(lia) ltac:(lia)) as Hd.
    simpl in Hd. lia. }
  destruct (fexp prec emax (Zpos (digits2_pos m) + e) - e) as [|d|d] eqn:Hn.
  - apply binary_round_aux_le_one; [lia|lia|].
    intros H. exfalso. apply H. reflexivity.
  - apply binary_round_aux_le_one; [lia|lia|].
    intros H. exfalso. apply H. reflexivity.
  - apply binary_round_aux_le_one; [lia| |].
    + rewrite Zpos_iter_xO.
      replace (- fexp prec emax (Zpos (digits2_pos m) + e))
        with (- e + Zpos d) by lia.
      rewrite Z.pow_add_r by lia.
      assert (0 < 2 ^ Zpos d) by (apply Z.pow_pos_nonneg; lia). nia.
    + intros H. exfalso. apply H. reflexivity.
Qed.
End RoundLeOne.

Lemma digits2_pos_iter_xO (m d : positive) :
  Zpos (digits2_pos (Pos.iter xO m d)) = Zpos (digits2_pos m) + Zpos d.
Proof.
  induction d as [|d IH] using Pos.peano_ind.
  - simpl. lia.
  - rewrite Pos.iter_succ. simpl digits2_pos. rewrite Pos2Z.inj_succ, IH. lia.
Qed.

Lemma new_location_inexact (nb r : Z) :
  new_location nb r <> loc_Exact -> r <> 0.
Proof.
  intros H Hr. apply H. subst r. unfold new_location.
  destruct (Z.even nb); reflexivity.
Qed.

Section ExactConversion.
Variables prec emax : Z.
Hypothesis Hfmt : format_ok prec emax.

Lemma binary_round_aux_canonical (s : bool) (m : positive) (e : Z) :
  fexp prec emax (Zpos (digits2_pos m) + e) = e ->
  e <= emax - prec ->
  binary_round_aux prec emax s (Zpos m) e loc_Exact = S754_finite s m e.
Proof.
  destruct Hfmt as (Hprec & Hemax & Hemax2).
  intros Hc He. unfold binary_round_aux, shr_fexp.
  cbn [Zdigits2 shr_record_of_loc]. rewrite Hc, Z.sub_diag.
  cbn [shr shr_m loc_of_shr_record round_nearest_even Zdigits2 shr_record_of_loc].
  rewrite Hc, Z.sub_diag. cbn [shr shr_m].
  destruct (Z.leb_spec e (emax - prec)); [reflexivity|lia].
Qed.

(** A positive integer below [2^prec] converts exactly, to a normal
    number. *)
Lemma of_Z_exact (n : Z) :
  0 < n < 2 ^ prec ->
  exists m e,
    binary_normalize prec emax n 0 false = S754_finite false m e
    /\ e <= 0
    /\ Zpos m = n * 2 ^ (- e)
    /\ Zpos (digits2_pos m) = prec.
Proof.
  destruct Hfmt as (Hprec & Hemax & Hemax2).
  intros [Hn0 Hn]. destruct n as [|p|p]; try lia.
  unfold binary_normalize, binary_round, shl_align.
  assert (Hd : Zpos (digits2_pos p) <= prec).
  { pose proof (digits2_pos_lower p) as Hl.
    assert (H : 2 ^ (Zpos (digits2_pos p) - 1) < 2 ^ prec) by lia.
    apply Z.pow_lt_mono_r_iff in H; lia. }
  assert (Hf : fexp prec emax (Zpos (digits2_pos p) + 0)
               = Zpos (digits2_pos p) - prec).
  { unfold fexp, emin. lia. }
  rewrite Hf.
  destruct (Zpos (digits2_pos p) - prec - 0) as [|d|d] eqn:Hs; try lia.
  - exists p, 0. rewrite binary_round_aux_canonical by lia.
    repeat split; try lia.
  - exists (Pos.iter xO p d), (Zpos (digits2_pos p) - prec).
    rewrite binary_round_aux_canonical.
    + repeat split; try lia.
      * rewrite Zpos_iter_xO. f_equal. f_equal. lia.
      * rewrite digits2_pos_iter_xO. lia.
    + rewrite digits2_pos_iter_xO.
      replace (Zpos (digits2_pos p) + Zpos d + (Zpos (digits2_pos p) - prec))
        with (Zpos (digits2_pos p) + 0) by lia.
      exact Hf.
    + lia.
Qed.

(** The quotient of two exactly converted integers [n <= d]. *)
Lemma SFdiv_le_one (m1 m2 : positive) (e1 e2 n d : Z) :
  0 < n <= d ->
  e1 <= 0 -> Zpos m1 = n * 2 ^ (- e1) -> Zpos (digits2_pos m1) = prec ->
  e2 <= 0 -> Zpos m2 = d * 2 ^ (- e2) -> Zpos (digits2_pos m2) = prec ->
  le_one prec
    (SFdiv prec emax (S754_finite false m1 e1) (S754_finite false m2 e2)).
Proof.
  destruct Hfmt as (Hprec & Hemax & Hemax2).
  intros Hnd He1 Hm1 Hd1 He2 Hm2 Hd2.
  assert (He12 : e1 <= e2).
  { destruct (Z.le_gt_cases e1 e2) as [|Hgt]; [assumption|exfalso].
    pose proof (digits2_pos_lower m1) as Hl1.
    pose proof (digits2_pos_upper m2) as Hu2.
    rewrite Hd1 in Hl1. rewrite Hd2 in Hu2.
    assert (Hp : 2 ^ (- e2) = 2 ^ (- e1) * 2 ^ (e1 - e2)).
    { rewrite <- Z.pow_add_r by lia. f_equal. lia. }
    assert (H2 : 2 <= 2 ^ (e1 - e2)).
    { change 2 with (2 ^ 1) at 1. apply Z.pow_le_mono_r; lia. }
    assert (Hq : 2 ^ prec = 2 * 2 ^ (prec - 1)).
    { replace prec with (Z.succ (prec - 1)) at 1 by lia.
      apply Z.pow_succ_r. lia. }
    assert (0 < 2 ^ (- e1)) by (apply Z.pow_pos_nonneg; lia).
    nia. }
  unfold SFdiv, SFdiv_core_binary. cbn [Zdigits2 xorb].
  rewrite Hd1, Hd2.
  set (e' := Z.min (fexp prec emax (prec + e1 - (prec + e2))) (e1 - e2)).
  assert (He' : e' <= 1 - prec).
  { subst e'. pose proof (fexp_le_one prec emax Hfmt
                            (prec + e1 - (prec + e2)) ltac:(lia)). lia. }
  assert (Hs : 0 <= e1 - e2 - e') by (subst e'; lia).
  set (m' := match e1 - e2 - e' with
             | 0 => Zpos m1
             | Zpos _ => Z.shiftl (Zpos m1) (e1 - e2 - e')
             | Zneg _ => 0
             end).
  assert (Hm' : m' = Zpos m1 * 2 ^ (e1 - e2 - e')).
  { subst m'. destruct (e1 - e2 - e') as [|q|q] eqn:Es; try lia.
    rewrite Z.shiftl_mul_pow2 by lia. reflexivity. }
  pose proof (Z_div_mod m' (Zpos m2) ltac:(lia)) as Hdiv.
  destruct (Z.div_eucl m' (Zpos m2)) as [q r].
  destruct Hdiv as [Hqr Hr].
  assert (Hle : m' <= Zpos m2 * 2 ^ (- e')).
  { rewrite Hm', Hm1, Hm2.
    assert (Hp : 2 ^ (- e1) * 2 ^ (e1 - e2 - e') = 2 ^ (- e2) * 2 ^ (- e')).
    { rewrite <- !Z.pow_add_r by lia. f_equal. lia. }
    assert (0 < 2 ^ (- e2) * 2 ^ (- e')).
    { apply Z.mul_pos_pos; apply Z.pow_pos_nonneg; lia. }
    nia. }
  assert (Hq0 : 0 <= q).
  { assert (0 <= m') by (rewrite Hm'; apply Z.mul_nonneg_nonneg;
                         [lia|apply Z.pow_nonneg; lia]).
    nia. }
  apply (binary_round_aux_le_one prec emax Hfmt); [exact He'| |].
  - split; [exact Hq0|]. nia.
  - intros Hloc. apply new_location_inexact in Hloc. nia.
Qed.
End ExactConversion.

Lemma finite_leb_same_exp (m q : positive) (e : Z) :
  Zpos m <= Zpos q ->
  SFleb (S754_finite false m e) (S754_finite false q e) = true.
Proof.
  intros H. unfold SFleb. cbn [SFcompare]. rewrite Z.compare_refl.
  destruct (Pos.compare_cont Eq m q) eqn:Hc; try reflexivity.
  exfalso. apply H. exact Hc.
Qed.

Lemma finite_leb_lower_exp (m q : positive) (e e' : Z) :
  e < e' ->
  SFleb (S754_finite false m e) (S754_finite false q e') = true.
Proof.
  intros H. unfold SFleb. cbn [SFcompare].
  apply Z.compare_lt_iff in H. rewrite H. reflexivity.
Qed.

Lemma le_one_f32_leb (r : spec_float) :
  le_one F32.prec r ->
  F32.leb F32.zero r = true /\ F32.leb r F32.one = true.
Proof.
  intros [->|(m & e & -> & He & Hm)]; [split; reflexivity|].
  split; [reflexivity|].
  assert (Hone : F32.one = S754_finite false 8388608 (-23)) by reflexivity.
  rewrite Hone. unfold F32.leb. unfold F32.prec in He.
  destruct (Z.eq_dec e (-23)) as [->|Hne].
  - apply finite_leb_same_exp.
    assert (Hpow : 2 ^ (- -23) = 8388608) by reflexivity.
    rewrite Hpow in Hm. exact Hm.
  - apply finite_leb_lower_exp. lia.
Qed.

Lemma F64_to_f32_le_one (r : spec_float) :
  le_one F64.prec r -> le_one F32.prec (F64.to_f32 r).
Proof.
  intros [->|(m & e & -> & He & Hm)]; [left; reflexivity|].
  unfold F64.to_f32. unfold F64.prec in He.
  apply (binary_round_le_one F32.prec F32.emax binary32_ok);
    unfold F32.prec; lia.
Qed.

(** A normalised field lies in [[0, 1]]. *)
Lemma frac_bounds (n d : Z) :
  0 <= n <= d -> 0 < d < 2 ^ 53 ->
  F32.leb F32.zero (frac n d) = true /\ F32.leb (frac n d) F32.one = true.
Proof.
  intros Hn Hd. apply le_one_f32_leb, F64_to_f32_le_one.
  unfold frac, F64.div, F64.of_Z.
  destruct (of_Z_exact F64.prec F64.emax binary64_ok d Hd)
    as (m2 & e2 & -> & He2 & Hm2 & Hd2).
  destruct (Z.eq_dec n 0) as [->|Hn0].
  - left. reflexivity.
  - destruct (of_Z_exact F64.prec F64.emax binary64_ok n
                ltac:(unfold F64.prec; lia))
      as (m1 & e1 & -> & He1 & Hm1 & Hd1).
    apply (SFdiv_le_one F64.prec F64.emax binary64_ok m1 m2 e1 e2 n d);
      try assumption. lia.
Qed.

(** ** The shared decode *)

Lemma shared_fields (s : Z) :
  0 <= s < 2 ^ 64 ->
  let x := Z.land s 0x1FFFFF in
  let y := Z.land (Z.shiftr s 21) 0x1FFFFF in
  let z := Z.land (Z.shiftr s 42) 0x3FFFFF in
  0 <= x < 2 ^ 21 /\ 0 <= y < 2 ^ 21 /\ 0 <= z < 2 ^ 22
  /\ s = x + 2 ^ 21 * y + 2 ^ 42 * z.
Proof.
  intros Hs. cbv zeta.
  change 0x1FFFFF with (2 ^ 21 - 1). change 0x3FFFFF with (2 ^ 22 - 1).
  rewrite !land_low_bits, !Z.shiftr_div_pow2 by lia.
  pose proof (Z.mod_pos_bound s (2 ^ 21) ltac:(lia)).
  pose proof (Z.mod_pos_bound (s / 2 ^ 21) (2 ^ 21) ltac:(lia)).
  pose proof (Z.mod_pos_bound (s / 2 ^ 42) (2 ^ 22) ltac:(lia)).
  repeat split; try lia.
  assert (H42 : s / 2 ^ 42 = s / 2 ^ 21 / 2 ^ 21)
    by (rewrite Z.div_div by lia; reflexivity).
  assert (Hsmall : (s / 2 ^ 42) mod 2 ^ 22 = s / 2 ^ 42).
  { apply Z.mod_small. split; [apply Z.div_pos; lia|].
    apply Z.div_lt_upper_bound; lia. }
  rewrite Hsmall, H42.
  pose proof (Z.div_mod s (2 ^ 21) ltac:(lia)).
  pose proof (Z.div_mod (s / 2 ^ 21) (2 ^ 21) ltac:(lia)).
  lia.
Qed.

Lemma shared_frac_bounds (s : Z) : inside3 zeros (shared_frac s) ones.
Proof.
  unfold inside3, inside, shared_frac, zeros, ones, vx, vy, vz. cbn [fst snd].
  change 0x1FFFFF with (2 ^ 21 - 1). change 0x3FFFFF with (2 ^ 22 - 1).
  rewrite !land_low_bits by lia.
  pose proof (Z.mod_pos_bound s (2 ^ 21) ltac:(lia)).
  pose proof (Z.mod_pos_bound (Z.shiftr s 21) (2 ^ 21) ltac:(lia)).
  pose proof (Z.mod_pos_bound (Z.shiftr s 42) (2 ^ 22) ltac:(lia)).
  repeat split; apply frac_bounds; lia.
Qed.

Lemma unpack_shared_three (shared : list Z) (lo hi : Vertex) :
  unpack_shared_vertices shared (vec lo) (vec hi)
  = Ok (map (fun s => decode_shared s lo hi) shared).
Proof.
  destruct lo as [[lx ly] lz], hi as [[hx hy] hz].
  unfold unpack_shared_vertices, vec, vx, vy, vz. cbn [fst snd].
  cbn [vec_sub length Nat.eqb zip_with]. rewrite Ok_bind.
  cbn [broadcast3]. rewrite !Ok_bind, !map_map. reflexivity.
Qed.

(** C3, as amended. [unpack_shared_vertices] takes the bit fields
    [s & 0x1FFFFF], [(s >> 21) & 0x1FFFFF], [(s >> 42) & 0x3FFFFF] (21, 21
    and 22 bits, together the 64 bits of [s]), divides each by its
    largest value, which gives a fraction in [[0, 1]], and returns
    [frac * (domain_max - domain_min) + domain_min] per axis, computed in
    [float32] and not clamped. *)
Theorem unpack_shared_vertices_fractions (shared : list Z) (lo hi : Vertex) :
  unpack_shared_vertices shared (vec lo) (vec hi)
  = Ok (map (fun s => map3 F32.add
                        (map3 F32.mul (shared_frac s) (map3 F32.sub hi lo)) lo)
            shared)
  /\ (forall s,
        shared_frac s = (frac (Z.land s 0x1FFFFF) 0x1FFFFF,
                         frac (Z.land (Z.shiftr s 21) 0x1FFFFF) 0x1FFFFF,
                         frac (Z.land (Z.shiftr s 42) 0x3FFFFF) 0x3FFFFF)
        /\ inside3 zeros (shared_frac s) ones
        /\ (0 <= s < 2 ^ 64 ->
            0 <= Z.land s 0x1FFFFF < 2 ^ 21
            /\ 0 <= Z.land (Z.shiftr s 21) 0x1FFFFF < 2 ^ 21
            /\ 0 <= Z.land (Z.shiftr s 42) 0x3FFFFF < 2 ^ 22
            /\ s = Z.land s 0x1FFFFF + 2 ^ 21 * Z.land (Z.shiftr s 21) 0x1FFFFF
                   + 2 ^ 42 * Z.land (Z.shiftr s 42) 0x3FFFFF)).
Proof.
  split; [apply unpack_shared_three|].
  intros s. split; [reflexivity|split; [apply shared_frac_bounds|apply shared_fields]].
Qed.

Lemma unpack_shared_vertices_fractions_witness :
  0 <= 0x1FFFFF < 2 ^ 64
  /\ shared_frac 0x1FFFFF = (F32.one, F32.zero, F32.zero)
  /\ inside3 zeros (shared_frac 0x1FFFFF) ones
  /\ 0x1FFFFF = Z.land 0x1FFFFF 0x1FFFFF
                + 2 ^ 21 * Z.land (Z.shiftr 0x1FFFFF 21) 0x1FFFFF
                + 2 ^ 42 * Z.land (Z.shiftr 0x1FFFFF 42) 0x3FFFFF.
Proof.
  destruct (unpack_shared_vertices_fractions [] zeros ones) as [_ H].
  destruct (H 0x1FFFFF) as (_ & Hin & Hbits).
  assert (Hs : 0 <= 0x1FFFFF < 2 ^ 64) by lia.
  split; [exact Hs|split; [reflexivity|split; [exact Hin|]]].
  apply (Hbits Hs).
Defined.

(** C3, as stated, fails: in the domain [[-0.7, 0.5]] the shared value
    whose x field is all ones decodes, without clamping, to an x above
    [domain_max]. *)
Lemma shared_decode_overshoots_domain :
  le3 lo_07 hi_05
  /\ exists v,
       unpack_shared_vertices [0x1FFFFF] (vec lo_07) (vec hi_05) = Ok [v]
       /\ F32.ltb (vx hi_05) (vx v) = true
       /\ ~ inside3 lo_07 v hi_05.
Proof.
  split; [repeat split|].
  eexists. split; [vm_compute; reflexivity|]. split; [reflexivity|].
  intros ((_ & H) & _). vm_compute in H. discriminate H.
Qed.

(** ** Broadcasting errors of the codecs *)

Lemma broadcast3_Ok_iff (v : list spec_float) :
  is_Ok (broadcast3 v) = true <-> broadcastable v.
Proof.
  unfold broadcastable.
  destruct v as [|a [|b [|c [|d v]]]]; simpl; split;
    try discriminate; try tauto; try (intros [H|H]; discriminate H).
Qed.

Lemma broadcast3_Raise (v : list spec_float) (e : PyExc) :
  broadcast3 v = Raise e -> e = ValueError.
Proof.
  destruct v as [|a [|b [|c [|d v]]]]; simpl; intros H;
    try discriminate; inversion H; reflexivity.
Qed.

Lemma broadcast3_cases (v : list spec_float) :
  (exists w, broadcast3 v = Ok w /\ broadcastable v)
  \/ (broadcast3 v = Raise ValueError /\ ~ broadcastable v).
Proof.
  unfold broadcastable.
  destruct v as [|a [|b [|c [|d v]]]]; simpl;
    try (left; eexists; split; [reflexivity|auto]; fail);
    right; (split; [reflexivity|intros [H|H]; discriminate H]).
Qed.

(** X1. [unpack_packed_vertices] returns exactly when [scale_xyz],
    [min_xyz] and the two domain bounds each have one or three entries
    (the shapes NumPy broadcasts against an (n,3) array), whatever the
    packed values are; every other shape raises [ValueError], and nothing
    else is raised. A result has one row per packed value. *)
Theorem unpack_packed_vertices_broadcast (packed : list Z) (codec : CodecParams)
    (lo hi : list spec_float) :
  (is_Ok (unpack_packed_vertices packed codec lo hi) = true
   <-> broadcastable (scale_xyz codec) /\ broadcastable (min_xyz codec)
       /\ broadcastable lo /\ broadcastable hi)
  /\ (forall e, unpack_packed_vertices packed codec lo hi = Raise e -> e = ValueError)
  /\ (forall res, unpack_packed_vertices packed codec lo hi = Ok res ->
                  length res = length packed).
Proof.
  unfold unpack_packed_vertices.
  destruct (broadcast3_cases (scale_xyz codec)) as [(s & -> & Hs)|[-> Hs]];
    [rewrite Ok_bind|
     split; [split; [discriminate|tauto]|split; [intros e H; inversion H; reflexivity|discriminate]]].
  destruct (broadcast3_cases (min_xyz codec)) as [(m & -> & Hm)|[-> Hm]];
    [rewrite Ok_bind|
     split; [split; [discriminate|tauto]|split; [intros e H; inversion H; reflexivity|discriminate]]].
  destruct (broadcast3_cases lo) as [(l & -> & Hl)|[-> Hl]];
    [rewrite Ok_bind|
     split; [split; [discriminate|tauto]|split; [intros e H; inversion H; reflexivity|discriminate]]].
  destruct (broadcast3_cases hi) as [(h & -> & Hh)|[-> Hh]];
    [rewrite Ok_bind|
     split; [split; [discriminate|tauto]|split; [intros e H; inversion H; reflexivity|discriminate]]].
  split; [split; [tauto|reflexivity]|split; [discriminate|]].
  intros res H. inversion H. rewrite !length_map. reflexivity.
Qed.

Lemma vec_sub_cases (u v : list spec_float) :
  broadcastable u -> broadcastable v ->
  exists d, vec_sub u v = Ok d /\ broadcastable d.
Proof.
  unfold broadcastable.
  destruct u as [|a [|b [|c [|d u]]]]; intros [Hu|Hu]; try discriminate Hu;
    destruct v as [|a' [|b' [|c' [|d' v]]]]; intros [Hv|Hv]; try discriminate Hv;
    simpl; eexists; (split; [reflexivity|simpl; auto]).
Qed.

Lemma vec_sub_not_broadcastable (u v d : list spec_float) :
  vec_sub u v = Ok d -> broadcastable d -> broadcastable v -> broadcastable u.
Proof.
  unfold broadcastable.
  destruct u as [|a [|b [|c [|d' u]]]]; simpl; auto;
    destruct v as [|a' [|b' [|c' [|d'' v]]]]; simpl;
    intros H; inversion H; subst; clear H; simpl;
    try (intros [Hd|Hd]; discriminate Hd);
    try (intros _ [Hv|Hv]; discriminate Hv).
  all: try (destruct (length u =? length v)%nat; [|discriminate];
            match goal with H : Ok _ = Ok _ |- _ => inversion H; subst; clear H end;
            simpl; intros [Hd|Hd]; discriminate Hd).
Qed.

Lemma vec_sub_Raise (u v : list spec_float) (e : PyExc) :
  vec_sub u v = Raise e -> e = ValueError.
Proof.
  unfold vec_sub. intros H.
  destruct u as [|a [|b u]]; destruct v as [|a' [|b' v]]; try discriminate H;
    match type of H with
    | (if ?c then _ else _) = _ => destruct c; [discriminate H|inversion H; reflexivity]
    end.
Qed.

(** X2. [unpack_shared_vertices] returns exactly when [domain_min] and
    [domain_max] each have one or three entries; every other shape raises
    [ValueError], and nothing else is raised. A result has one row per
    shared value. *)
Theorem unpack_shared_vertices_broadcast (shared : list Z) (lo hi : list spec_float) :
  (is_Ok (unpack_shared_vertices shared lo hi) = true
   <-> broadcastable lo /\ broadcastable hi)
  /\ (forall e, unpack_shared_vertices shared lo hi = Raise e -> e = ValueError)
  /\ (forall res, unpack_shared_vertices shared lo hi = Ok res ->
                  length res = length shared).
Proof.
  unfold unpack_shared_vertices. split; [split|split].
  - intros H. destruct (vec_sub hi lo) as [d|e] eqn:Hd; [|discriminate H].
    rewrite Ok_bind in H.
    destruct (broadcast3_cases d) as [(ext & Hext & Hbd)|[Hext _]];
      rewrite Hext in H; [rewrite Ok_bind in H|discriminate H].
    destruct (broadcast3_cases lo) as [(mn & Hmn & Hbl)|[Hmn _]];
      rewrite Hmn in H; [|discriminate H].
    split; [exact Hbl|]. eapply vec_sub_not_broadcastable; eassumption.
  - intros [Hl Hh]. destruct (vec_sub_cases hi lo Hh Hl) as (d & -> & Hd).
    rewrite Ok_bind.
    apply broadcast3_Ok_iff in Hd, Hl.
    destruct (broadcast3 d); [|discriminate Hd]. rewrite Ok_bind.
    destruct (broadcast3 lo); [|discriminate Hl]. reflexivity.
  - intros e H.
    apply bind_Raise in H. destruct H as [H|(d & _ & H)];
      [eapply vec_sub_Raise; exact H|].
    apply bind_Raise in H. destruct H as [H|(ext & _ & H)];
      [eapply broadcast3_Raise; exact H|].
    apply bind_Raise in H. destruct H as [H|(mn & _ & H)];
      [eapply broadcast3_Raise; exact H|discriminate H].
  - intros res H.
    apply bind_Ok in H. destruct H as (d & _ & H).
    apply bind_Ok in H. destruct H as (ext & _ & H).
    apply bind_Ok in H. destruct H as (mn & _ & H).
    inversion H. rewrite !length_map. reflexivity.
Qed.

(** ** More on comparisons and clamping *)

Lemma SFcompare_Eq_cases (x y : spec_float) :
  SFcompare x y = Some Eq -> x = y \/ (is_zero x = true /\ is_zero y = true).
Proof.
  destruct x as [sx|sx| |sx mx ex], y as [sy|sy| |sy my ey]; simpl;
    try discriminate; auto;
    try (destruct sx; discriminate); try (destruct sy; discriminate).
  - destruct sx, sy; try discriminate; auto.
  - intros H. left.
    destruct sx, sy; try discriminate H;
      destruct (Z.compare_spec ex ey) as [->| |]; try discriminate H;
      inversion H as [Hm];
      [apply CompOpp_iff in Hm; simpl in Hm|];
      apply Pos.compare_eq in Hm; subst; reflexivity.
Qed.

Lemma SFcompare_zero_l (s s' : bool) (z : spec_float) :
  SFcompare (S754_zero s) z = SFcompare (S754_zero s') z.
Proof. destruct z; reflexivity. Qed.

Lemma SFcompare_zero_r (s s' : bool) (z : spec_float) :
  SFcompare z (S754_zero s) = SFcompare z (S754_zero s').
Proof. destruct z; reflexivity. Qed.

Lemma SFcompare_Eq_congr (a b c : spec_float) :
  SFcompare a b = Some Eq ->
  SFcompare a c = SFcompare b c /\ SFcompare c a = SFcompare c b.
Proof.
  intros H. destruct (SFcompare_Eq_cases _ _ H) as [->|[Ha Hb]]; [auto|].
  destruct a; try discriminate Ha. destruct b; try discriminate Hb.
  split; [apply SFcompare_zero_l|apply SFcompare_zero_r].
Qed.

Lemma leb_cases (x y : spec_float) :
  F32.leb x y = true -> F32.ltb x y = true \/ SFcompare x y = Some Eq.
Proof.
  unfold F32.leb, F32.ltb, SFleb, SFltb.
  destruct (SFcompare x y) as [[| |]|]; auto; discriminate.
Qed.

Lemma eqb_of_compare (x y : spec_float) :
  SFcompare x y = Some Eq -> F32.eqb x y = true /\ F32.eqb y x = true.
Proof.
  intros H. unfold F32.eqb, SFeqb. rewrite (SFcompare_antisym x y), H. auto.
Qed.

(** Inside its bounds a value is numerically unchanged by the clamp. *)
Lemma np_clip_id (x lo hi : spec_float) :
  inside lo x hi -> F32.eqb (np_clip x lo hi) x = true.
Proof.
  intros [Hlo Hhi].
  destruct (leb_not_nan _ _ Hlo) as [Hnl Hnx].
  destruct (leb_not_nan _ _ Hhi) as [_ Hnh].
  assert (Hxx : F32.eqb x x = true)
    by (unfold F32.eqb, SFeqb; rewrite SFcompare_refl by assumption; reflexivity).
  unfold np_clip, clip_max. rewrite Hnx.
  destruct (leb_cases _ _ Hhi) as [Hxh|Hxh].
  - destruct (F32.ltb lo x) eqn:Hlx.
    + unfold clip_min. rewrite Hnx, Hxh. exact Hxx.
    + destruct (leb_cases _ _ Hlo) as [Hlt|Heq]; [congruence|].
      unfold clip_min. rewrite Hnl.
      destruct (SFcompare_Eq_congr _ _ hi Heq) as [Hc _].
      unfold F32.ltb, SFltb in Hxh |- *. rewrite Hc.
      destruct (SFcompare x hi) as [[| |]|]; try discriminate Hxh.
      exact (proj1 (eqb_of_compare _ _ Heq)).
  - destruct (F32.ltb lo x) eqn:Hlx.
    + unfold clip_min. rewrite Hnx.
      unfold F32.ltb at 1. unfold SFltb. rewrite Hxh.
      exact (proj2 (eqb_of_compare _ _ Hxh)).
    + destruct (leb_cases _ _ Hlo) as [Hlt|Heq]; [congruence|].
      unfold clip_min. rewrite Hnl.
      destruct (SFcompare_Eq_congr _ _ hi Heq) as [Hc _].
      unfold F32.ltb at 1. unfold SFltb. rewrite Hc, Hxh.
      exact (proj2 (eqb_of_compare _ _ Hxh)).
Qed.

Lemma lex_pos_Lt (mx my : positive) (ex ey : Z) :
  match ex ?= ey with
  | Eq => Pos.compare_cont Eq mx my
  | Lt => Lt
  | Gt => Gt
  end = Lt
  <-> ex < ey \/ (ex = ey /\ (mx < my)%positive).
Proof.
  destruct (Z.compare_spec ex ey) as [->|H|H].
  - fold (Pos.compare mx my). rewrite Pos.compare_lt_iff. split; [auto|].
    intros [H|[_ H]]; [lia|exact H].
  - split; [auto|reflexivity].
  - split; [discriminate|lia].
Qed.

Lemma lex_neg_Lt (mx my : positive) (ex ey : Z) :
  match ex ?= ey with
  | Eq => CompOpp (Pos.compare_cont Eq mx my)
  | Lt => Gt
  | Gt => Lt
  end = Lt
  <-> ey < ex \/ (ex = ey /\ (my < mx)%positive).
Proof.
  destruct (Z.compare_spec ex ey) as [->|H|H].
  - fold (Pos.compare mx my). rewrite CompOpp_iff. simpl.
    rewrite Pos.compare_gt_iff. split; [auto|].
    intros [H|[_ H]]; [lia|exact H].
  - split; [discriminate|lia].
  - split; [auto|reflexivity].
Qed.

Lemma SFcompare_Lt_trans (x y z : spec_float) :
  SFcompare x y = Some Lt -> SFcompare y z = Some Lt -> SFcompare x z = Some Lt.
Proof.
  destruct x as [sx|sx| |sx mx ex], y as [sy|sy| |sy my ey],
    z as [sz|sz| |sz mz ez]; simpl; try discriminate.
  all: try destruct sx; try destruct sy; try destruct sz; simpl;
    try discriminate; try reflexivity.
  - intros Hxy Hyz. injection Hxy as H1. injection Hyz as H2. f_equal.
    apply lex_neg_Lt in H1, H2. apply lex_neg_Lt. lia.
  - intros Hxy Hyz. injection Hxy as H1. injection Hyz as H2. f_equal.
    apply lex_pos_Lt in H1, H2. apply lex_pos_Lt. lia.
Qed.

Lemma ltb_trans (x y z : spec_float) :
  F32.ltb x y = true -> F32.ltb y z = true -> F32.ltb x z = true.
Proof.
  unfold F32.ltb, SFltb. intros Hxy Hyz.
  destruct (SFcompare x y) as [[| |]|] eqn:H1; try discriminate Hxy.
  destruct (SFcompare y z) as [[| |]|] eqn:H2; try discriminate Hyz.
  rewrite (SFcompare_Lt_trans _ _ _ H1 H2). reflexivity.
Qed.

(** With inverted bounds every number is clamped to the upper bound. *)
Lemma np_clip_inverted (x lo hi : spec_float) :
  is_nan x = false -> F32.ltb hi lo = true -> np_clip x lo hi = hi.
Proof.
  intros Hx Hinv.
  assert (Hnl : is_nan lo = false) by (destruct lo; [| | destruct hi|]; auto; discriminate).
  unfold np_clip, clip_max. rewrite Hx.
  destruct (F32.ltb lo x) eqn:Hlx; unfold clip_min.
  - rewrite Hx.
    rewrite (leb_not_ltb hi x); [reflexivity|].
    apply ltb_leb. eapply ltb_trans; eassumption.
  - rewrite Hnl. rewrite (leb_not_ltb hi lo); [reflexivity|].
    apply ltb_leb. exact Hinv.
Qed.

(** ** The packed decode at the borders of its domain *)

Lemma unpack_packed_row (packed : list Z) (scale mn lo hi : Vertex) (r : nat) (p : Z) :
  packed !! r = Some p ->
  exists ds,
    unpack_packed_vertices packed
      {| min_xyz := vec mn; scale_xyz := vec scale |} (vec lo) (vec hi) = Ok ds
    /\ length ds = length packed
    /\ ds !! r = Some (decode_packed p scale mn lo hi).
Proof.
  intros Hp. eexists. split; [apply unpack_packed_three|].
  split; [apply length_map|].
  rewrite list_lookup_fmap, Hp. reflexivity.
Qed.

(** X3. A packed vertex whose [raw * scale + min] lies inside the section
    domain is returned with that value on every axis (numerically equal:
    the clamp of [unpack_packed_vertices] leaves it alone). *)
Theorem unpack_packed_vertices_inside_domain
    (packed : list Z) (scale mn lo hi : Vertex) (r : nat) (p : Z) :
  packed !! r = Some p ->
  inside3 lo (affine_packed p scale mn) hi ->
  exists ds d,
    unpack_packed_vertices packed
      {| min_xyz := vec mn; scale_xyz := vec scale |} (vec lo) (vec hi) = Ok ds
    /\ ds !! r = Some d
    /\ eq3 d (affine_packed p scale mn).
Proof.
  intros Hp (Hx & Hy & Hz).
  destruct (unpack_packed_row packed scale mn lo hi r p Hp) as (ds & Hds & _ & Hr).
  exists ds, (decode_packed p scale mn lo hi).
  split; [exact Hds|split; [exact Hr|]].
  destruct scale as [[sx sy] sz], mn as [[mx my] mz], lo as [[lx ly] lz],
    hi as [[hx hy] hz].
  unfold eq3, decode_packed, affine_packed, packed_raw, vx, vy, vz in *.
  cbn [fst snd map3 clip3] in *.
  repeat split; apply np_clip_id; assumption.
Qed.

Lemma unpack_packed_vertices_inside_domain_witness :
  exists ds d,
    unpack_packed_vertices [0; 1]
      {| min_xyz := vec zeros; scale_xyz := vec ones |} (vec zeros) (vec ones) = Ok ds
    /\ ds !! 1%nat = Some d
    /\ eq3 d (affine_packed 1 ones zeros).
Proof.
  apply (unpack_packed_vertices_inside_domain [0; 1] ones zeros zeros ones 1 1).
  - reflexivity.
  - repeat split.
Defined.

(** X4. With a section domain that is inverted on every axis
    ([domain_max < domain_min]) and a finite codec,
    [unpack_packed_vertices] returns [domain_max] for every packed value:
    [np.clip] applies the upper bound last. *)
Theorem unpack_packed_vertices_inverted_domain
    (packed : list Z) (scale mn lo hi : Vertex) :
  finite3 scale -> finite3 mn ->
  lt3 hi lo ->
  unpack_packed_vertices packed
    {| min_xyz := vec mn; scale_xyz := vec scale |} (vec lo) (vec hi)
  = Ok (replicate (length packed) hi).
Proof.
  intros (Fx & Fy & Fz) (Mx & My & Mz) (Hx & Hy & Hz).
  rewrite unpack_packed_three. f_equal.
  induction packed as [|p packed IH]; [reflexivity|].
  cbn [map length replicate]. f_equal; [|exact IH].
  destruct (raw_field_range p) as (Rx & Ry & Rz).
  destruct scale as [[sx sy] sz], mn as [[mx my] mz], lo as [[lx ly] lz],
    hi as [[hx hy] hz].
  unfold decode_packed, packed_raw, vx, vy, vz in *.
  cbn [fst snd map3 clip3] in *.
  rewrite !np_clip_inverted; try assumption; try reflexivity;
    apply affine_not_nan; assumption.
Qed.

Lemma unpack_packed_vertices_inverted_domain_witness :
  unpack_packed_vertices [0; 0x7FF; 0xFFFFFFFF]
    {| min_xyz := vec zeros; scale_xyz := vec ones |} (vec ones) (vec zeros)
  = Ok [zeros; zeros; zeros].
Proof.
  apply (unpack_packed_vertices_inverted_domain [0; 0x7FF; 0xFFFFFFFF]
           ones zeros ones zeros); repeat split.
Defined.

Lemma mul_nan_r (x : spec_float) : F32.mul x S754_nan = S754_nan.
Proof. destruct x as [s|s| |s m e]; reflexivity. Qed.

Lemma add_nan_l (y : spec_float) : F32.add S754_nan y = S754_nan.
Proof. reflexivity. Qed.

Lemma add_nan_r (x : spec_float) : F32.add x S754_nan = S754_nan.
Proof. destruct x as [s|s| |s m e]; reflexivity. Qed.

Lemma affine_nan (raw sc m : spec_float) :
  is_nan sc = true \/ is_nan m = true ->
  F32.add (F32.mul raw sc) m = S754_nan.
Proof.
  intros [H|H].
  - destruct sc; try discriminate H. rewrite mul_nan_r. apply add_nan_l.
  - destruct m; try discriminate H. apply add_nan_r.
Qed.

(** X5. A NaN in [scale_xyz] or [min_xyz] comes out as NaN on that axis
    of every vertex [unpack_packed_vertices] returns, whatever the section
    domain is: [np.clip] does not bring a NaN into the domain. *)
Theorem unpack_packed_vertices_nan
    (packed : list Z) (scale mn lo hi : Vertex) (ds : list Vertex) (d : Vertex) :
  unpack_packed_vertices packed
    {| min_xyz := vec mn; scale_xyz := vec scale |} (vec lo) (vec hi) = Ok ds ->
  In d ds ->
  (is_nan (vx scale) = true \/ is_nan (vx mn) = true -> is_nan (vx d) = true)
  /\ (is_nan (vy scale) = true \/ is_nan (vy mn) = true -> is_nan (vy d) = true)
  /\ (is_nan (vz scale) = true \/ is_nan (vz mn) = true -> is_nan (vz d) = true).
Proof.
  rewrite unpack_packed_three. intros H Hd. inversion H; subst; clear H.
  apply in_map_iff in Hd. destruct Hd as (p & <- & _).
  destruct scale as [[sx sy] sz], mn as [[mx my] mz], lo as [[lx ly] lz],
    hi as [[hx hy] hz].
  unfold decode_packed, packed_raw, vx, vy, vz. cbn [fst snd map3 clip3].
  repeat split; intros Hn; rewrite (affine_nan _ _ _ Hn); reflexivity.
Qed.

Lemma unpack_packed_vertices_nan_witness :
  is_nan (vx (S754_nan, F32.one, F32.one)) = true
  /\ forall d,
       In d [(S754_nan, F32.zero, F32.zero); (S754_nan, F32.one, F32.zero)] ->
       is_nan (vx d) = true.
Proof.
  split; [reflexivity|]. intros d Hd.
  refine (proj1 (unpack_packed_vertices_nan [0; 0x800]
                   (S754_nan, F32.one, F32.one) zeros zeros ones _ d _ Hd) _).
  - reflexivity.
  - left. reflexivity.
Defined.

(** ** The raw fields keep every bit *)

Lemma F32_of_Z_inj (a b : Z) :
  0 <= a < 2 ^ 24 -> 0 <= b < 2 ^ 24 -> F32.of_Z a = F32.of_Z b -> a = b.
Proof.
  intros Ha Hb H. unfold F32.of_Z in H.
  destruct (Z.eq_dec a 0) as [->|Ha0], (Z.eq_dec b 0) as [->|Hb0]; [reflexivity| | |].
  - destruct (of_Z_exact F32.prec F32.emax binary32_ok b ltac:(unfold F32.prec; lia))
      as (m & e & Hm & _). rewrite Hm in H. discriminate H.
  - destruct (of_Z_exact F32.prec F32.emax binary32_ok a ltac:(unfold F32.prec; lia))
      as (m & e & Hm & _). rewrite Hm in H. discriminate H.
  - destruct (of_Z_exact F32.prec F32.emax binary32_ok a ltac:(unfold F32.prec; lia))
      as (m & e & Hm & He & Hv & _).
    destruct (of_Z_exact F32.prec F32.emax binary32_ok b ltac:(unfold F32.prec; lia))
      as (m' & e' & Hm' & He' & Hv' & _).
    rewrite Hm, Hm' in H. inversion H; subst.
    assert (Hpow : 0 < 2 ^ (- e')) by (apply Z.pow_pos_nonneg; lia).
    nia.
Qed.

(** X6. Two different 32-bit words have different raw field triples in
    [unpack_packed_vertices]: the fields of 11, 11 and 10 bits keep every
    bit of the word, and each field value is stored in [float32] without
    rounding. *)
Theorem packed_raw_injective (p q : Z) :
  0 <= p < 2 ^ 32 -> 0 <= q < 2 ^ 32 ->
  p <> q -> packed_raw p <> packed_raw q.
Proof.
  intros Hp Hq Hne Heq. apply Hne.
  destruct (packed_fields p Hp) as (Hx & Hy & Hz & Hsum).
  destruct (packed_fields q Hq) as (Hx' & Hy' & Hz' & Hsum').
  cbv zeta in *. unfold packed_raw in Heq.
  inversion Heq as [[Ex Ey Ez]].
  apply F32_of_Z_inj in Ex, Ey, Ez; try lia.
Qed.

Lemma packed_raw_injective_witness :
  packed_raw 0x7FF <> packed_raw 0x800
  /\ packed_raw 0 <> packed_raw 0x80000000.
Proof.
  split; apply packed_raw_injective; lia.
Defined.

(** ** The shared decode at the lower border of its domain *)

Lemma sub_finite (x y : spec_float) :
  is_finite (F32.sub x y) = true -> is_finite x = true /\ is_finite y = true.
Proof.
  destruct x as [sx|sx| |sx mx ex], y as [sy|sy| |sy my ey]; simpl; auto;
    try discriminate;
    try (destruct sx, sy; discriminate);
    try (unfold F32.sub, SFsub; destruct sx, sy; simpl; discriminate).
Qed.

Lemma zero_field_decodes_to_min (denom : Z) (ext lo : spec_float) :
  frac 0 denom = S754_zero false ->
  is_finite ext = true -> is_finite lo = true ->
  F32.eqb (F32.add (F32.mul (frac 0 denom) ext) lo) lo = true.
Proof.
  intros -> Hext Hlo.
  destruct ext as [se|se| |se me ee]; try discriminate Hext;
    destruct lo as [sl|sl| |sl ml el]; try discriminate Hlo.
  - destruct se, sl; reflexivity.
  - destruct se; cbn; unfold F32.eqb, SFeqb;
      rewrite SFcompare_refl by reflexivity; reflexivity.
  - destruct se, sl; reflexivity.
  - destruct se; cbn; unfold F32.eqb, SFeqb;
      rewrite SFcompare_refl by reflexivity; reflexivity.
Qed.

(** X7. A shared vertex whose field on an axis is zero decodes on that
    axis to [domain_min] (numerically equal), provided the extent
    [domain_max - domain_min] is finite in [float32]. *)
Theorem unpack_shared_vertices_zero_field
    (shared : list Z) (lo hi : Vertex) (r : nat) (s : Z) :
  shared !! r = Some s ->
  finite3 (map3 F32.sub hi lo) ->
  exists ds d,
    unpack_shared_vertices shared (vec lo) (vec hi) = Ok ds
    /\ ds !! r = Some d
    /\ (Z.land s 0x1FFFFF = 0 -> F32.eqb (vx d) (vx lo) = true)
    /\ (Z.land (Z.shiftr s 21) 0x1FFFFF = 0 -> F32.eqb (vy d) (vy lo) = true)
    /\ (Z.land (Z.shiftr s 42) 0x3FFFFF = 0 -> F32.eqb (vz d) (vz lo) = true).
Proof.
  intros Hs (Fx & Fy & Fz).
  exists (map (fun s => decode_shared s lo hi) shared), (decode_shared s lo hi).
  split; [apply unpack_shared_three|].
  split; [rewrite list_lookup_fmap, Hs; reflexivity|].
  destruct lo as [[lx ly] lz], hi as [[hx hy] hz].
  unfold decode_shared, shared_frac, vx, vy, vz in *. cbn [fst snd map3] in *.
  destruct (sub_finite _ _ Fx) as [_ Lx].
  destruct (sub_finite _ _ Fy) as [_ Ly].
  destruct (sub_finite _ _ Fz) as [_ Lz].
  repeat split; intros ->; apply zero_field_decodes_to_min;
    try assumption; vm_compute; reflexivity.
Qed.

Lemma unpack_shared_vertices_zero_field_witness :
  exists ds d,
    unpack_shared_vertices [0x1FFFFF; 0x3FFFFE00000] (vec lo_07) (vec hi_05) = Ok ds
    /\ ds !! 1%nat = Some d
    /\ F32.eqb (vx d) (vx lo_07) = true.
Proof.
  destruct (unpack_shared_vertices_zero_field [0x1FFFFF; 0x3FFFFE00000]
              lo_07 hi_05 1 0x3FFFFE00000 eq_refl)
    as (ds & d & Hds & Hd & Hx & _).
  - repeat split.
  - exists ds, d. split; [exact Hds|split; [exact Hd|]]. apply Hx. reflexivity.
Defined.

(** ** The loop over the sections, on [primitives] *)

Lemma for_each_app {S A} (body : S -> A -> Res S) (s : S) (l1 l2 : list A) :
  for_each body s (l1 ++ l2) = (s' ← for_each body s l1; for_each body s' l2).
Proof.
  revert s; induction l1 as [|x l1 IH]; intros s; simpl; [reflexivity|].
  destruct (body s x) as [s1|e]; [|reflexivity]. rewrite !Ok_bind. apply IH.
Qed.

Lemma sections_loop_primitives (pv svi : list Z) (sections : list HavokSection.t) :
  forall (verts verts' : list (option Vertex)) (prims prims' : list (list Z)),
    for_each (HavokGeometry.section_step pv svi) (verts, prims) sections
    = Ok (verts', prims') ->
    length prims' = length prims
    /\ forall i row,
         prims !! i = Some row ->
         exists row',
           prims' !! i = Some row'
           /\ length row' = length row
           /\ forall j v,
                row !! j = Some v ->
                exists v', row' !! j = Some v'
                           /\ resolve_through sections svi (len pv) (len prims) i v
                              = Ok v'.
Proof.
  induction sections as [|sec rest IH]; intros verts verts' prims prims' H.
  - inversion H; subst. split; [reflexivity|].
    intros i row Hrow. exists row. split; [exact Hrow|split; [reflexivity|]].
    intros j v Hv. exists v. split; [exact Hv|reflexivity].
  - simpl in H. apply bind_Ok in H. destruct H as ([verts1 prims1] & Hstep & Hrest).
    apply section_step_resolves in Hstep.
    destruct (resolve_section_corners _ _ _ _ _ Hstep) as (Hlen1 & Hout1 & Hin1).
    destruct (IH _ _ _ _ Hrest) as (Hlen & Hrows).
    split; [lia|].
    assert (Hn : len prims1 = len prims) by (unfold len; rewrite Hlen1; reflexivity).
    rewrite Hn in Hrows.
    intros i row Hrow. cbn [resolve_through].
    destruct (decide (in_prim_slice sec (len prims) i)) as [Hi|Hi].
    + destruct (Hin1 i row Hi Hrow) as (row1 & Hrow1 & Hl1 & Hc1).
      destruct (Hrows i row1 Hrow1) as (row' & Hrow' & Hl' & Hc').
      exists row'. split; [exact Hrow'|split; [lia|]].
      intros j v Hv.
      destruct (Hc1 j v Hv) as (v1 & Hv1 & Hr1).
      destruct (Hc' j v1 Hv1) as (v' & Hv' & Hr').
      exists v'. split; [exact Hv'|].
      rewrite Hr1, Ok_bind. exact Hr'.
    + pose proof (Hout1 i row Hi Hrow) as Hrow1.
      destruct (Hrows i row Hrow1) as (row' & Hrow' & Hl' & Hc').
      exists row'. split; [exact Hrow'|split; [exact Hl'|]].
      intros j v Hv.
      destruct (Hc' j v Hv) as (v' & Hv' & Hr').
      exists v'. split; [exact Hv'|exact Hr'].
Qed.

(** What [HavokGeometry.__init__] has done when it returns: the raw
    primitive array was read, the shared vertices were decoded into the
    tail of a fresh [verts], and the loop over the sections ran on the
    two arrays. *)
Lemma init_loop (name meshTree : TagValue) (g : HavokGeometry.t) :
  HavokGeometry.init name meshTree = Ok g ->
  exists prims0 shared verts1,
    raw_primitives meshTree = Ok prims0
    /\ unpack_shared_vertices (HavokGeometry.sharedVertices g)
         (HavokGeometry.domain_min g) (HavokGeometry.domain_max g) = Ok shared
    /\ slice_assign
         (replicate (length (HavokGeometry.packedVertices g)
                     + length (HavokGeometry.sharedVertices g)) None)
         (len (HavokGeometry.packedVertices g))
         (len (replicate (length (HavokGeometry.packedVertices g)
                          + length (HavokGeometry.sharedVertices g))
                 (@None Vertex)))
         (map Some shared) = Ok verts1
    /\ for_each (HavokGeometry.section_step (HavokGeometry.packedVertices g)
                   (HavokGeometry.sharedVerticesIndex g))
         (verts1, prims0) (HavokGeometry.sections g)
       = Ok (HavokGeometry.verts g, HavokGeometry.primitives g).
Proof.
  unfold HavokGeometry.init, raw_primitives. intros H.
  apply bind_Ok in H. destruct H as (dmin & _ & H).
  apply bind_Ok in H. destruct H as (dmax & _ & H).
  apply bind_Ok in H. destruct H as (prims & Hprims & H).
  apply bind_Ok in H. destruct H as (rows & Hrows & H).
  apply bind_Ok in H. destruct H as (prims0 & Hstack & H).
  rewrite Hprims, Ok_bind, Hrows, Ok_bind, Hstack.
  repeat (apply bind_Ok in H; destruct H as (? & ? & H)).
  inversion H; subst; clear H. simpl.
  match goal with
  | Hl : for_each _ _ _ = Ok ?st |- _ => destruct st as [vs ps]
  end.
  eauto 10.
Qed.

(** ** Triangulation of rows of any width *)

Lemma py_index_lookup {A} (l : list A) (k : Z) (x : A) :
  0 <= k -> l !! Z.to_nat k = Some x -> py_index l k = Ok x.
Proof.
  intros Hk H. unfold py_index, len.
  pose proof (lookup_lt_Some _ _ _ H) as Hlt.
  destruct (Z.ltb_spec k 0) as [Hneg|_]; [lia|].
  destruct (Z.leb_spec 0 k) as [_|Hneg]; [|lia].
  destruct (Z.ltb_spec k (Z.of_nat (length l))) as [_|Hge]; [|lia].
  simpl. rewrite H. reflexivity.
Qed.

Lemma py_index_past_end {A} (l : list A) (k : Z) :
  len l <= k -> py_index l k = Raise IndexError.
Proof.
  intros H. unfold py_index. unfold len in *.
  destruct (Z.ltb_spec k 0) as [Hneg|_]; [lia|].
  destruct (Z.ltb_spec k (Z.of_nat (length l))) as [Hlt|_]; [lia|].
  rewrite andb_false_r. reflexivity.
Qed.

Lemma columns_row (row : list Z) :
  match row_quad row with
  | Some (a, b, c, d) =>
      HavokGeometry.columns [0; 1; 2; 0; 2; 3] row = Ok [a; b; c; a; c; d]
  | None => HavokGeometry.columns [0; 1; 2; 0; 2; 3] row = Raise IndexError
  end.
Proof.
  unfold HavokGeometry.columns.
  destruct row as [|a [|b [|c [|d row]]]]; cbn [row_quad mapM].
  - rewrite (py_index_past_end [] 0) by (unfold len; simpl; lia). reflexivity.
  - rewrite (py_index_lookup [a] 0 a) by (lia || reflexivity). rewrite Ok_bind.
    rewrite (py_index_past_end [a] 1) by (unfold len; simpl; lia). reflexivity.
  - rewrite (py_index_lookup [a; b] 0 a) by (lia || reflexivity). rewrite Ok_bind.
    rewrite (py_index_lookup [a; b] 1 b) by (lia || reflexivity). rewrite Ok_bind.
    rewrite (py_index_past_end [a; b] 2) by (unfold len; simpl; lia). reflexivity.
  - rewrite (py_index_lookup [a; b; c] 0 a) by (lia || reflexivity). rewrite Ok_bind.
    rewrite (py_index_lookup [a; b; c] 1 b) by (lia || reflexivity). rewrite Ok_bind.
    rewrite (py_index_lookup [a; b; c] 2 c) by (lia || reflexivity). rewrite !Ok_bind.
    rewrite (py_index_past_end [a; b; c] 3) by (unfold len; simpl; lia). reflexivity.
  - rewrite (py_index_lookup (a :: b :: c :: d :: row) 0 a) by (lia || reflexivity).
    rewrite Ok_bind.
    rewrite (py_index_lookup (a :: b :: c :: d :: row) 1 b) by (lia || reflexivity).
    rewrite Ok_bind.
    rewrite (py_index_lookup (a :: b :: c :: d :: row) 2 c) by (lia || reflexivity).
    rewrite !Ok_bind.
    rewrite (py_index_lookup (a :: b :: c :: d :: row) 3 d) by (lia || reflexivity).
    rewrite Ok_bind. reflexivity.
Qed.

Lemma mapM_columns (prims : list (list Z)) :
  match mapM row_quad prims with
  | Some quads =>
      mapM (HavokGeometry.columns [0; 1; 2; 0; 2; 3]) prims
      = Ok (map fan_entries quads)
  | None =>
      mapM (HavokGeometry.columns [0; 1; 2; 0; 2; 3]) prims = Raise IndexError
  end.
Proof.
  induction prims as [|row prims IH]; [reflexivity|].
  cbn [mapM]. pose proof (columns_row row) as Hrow.
  destruct (row_quad row) as [[[[a b] c] d]|];
    cbn [mbind option_bind mret option_ret]; rewrite Hrow; [|reflexivity].
  rewrite Ok_bind.
  destruct (mapM row_quad prims) as [quads|];
    cbn [mbind option_bind mret option_ret]; rewrite IH; reflexivity.
Qed.

Lemma fan_entries_candidates (quads : list Quad) :
  HavokGeometry.reshape3 (concat (map fan_entries quads)) = flat_map candidates quads.
Proof.
  induction quads as [|[[[a b] c] d] quads IH]; simpl; [reflexivity|].
  rewrite IH. reflexivity.
Qed.

(** The triangles of an array of any width: the first four columns are
    used. *)
Lemma tris_rows (prims : list (list Z)) :
  match mapM row_quad prims with
  | Some quads => HavokGeometry.tris prims = Ok (triangulate quads)
  | None => HavokGeometry.tris prims = Raise IndexError
  end.
Proof.
  unfold HavokGeometry.tris. pose proof (mapM_columns prims) as H.
  destruct (mapM row_quad prims) as [quads|]; rewrite H; [|reflexivity].
  rewrite Ok_bind. f_equal. unfold triangulate.
  rewrite <- filter_flat_map, <- filter_bool_decide, fan_entries_candidates.
  apply List.filter_ext. intros tri. apply negb_dupes_degenerate.
Qed.

(** X8. On a primitive array with at least one row, [tris] reads the
    first four columns only: with four or more columns it returns the
    fan triangles of these columns, degenerate ones dropped, and further
    columns are ignored; with fewer than four columns it raises
    [IndexError]. *)
Theorem tris_uses_first_four_columns (prims : list (list Z)) :
  prims <> [] ->
  match mapM row_quad prims with
  | Some quads => HavokGeometry.tris prims = Ok (triangulate quads)
  | None => HavokGeometry.tris prims = Raise IndexError
  end
  /\ (is_Ok (HavokGeometry.tris prims) = true
      <-> Forall (fun row => (4 <= length row)%nat) prims).
Proof.
  intros _. split; [apply tris_rows|].
  pose proof (tris_rows prims) as H.
  assert (Hq : is_Some (mapM row_quad prims)
               <-> Forall (fun row => (4 <= length row)%nat) prims).
  { rewrite mapM_is_Some. apply Forall_iff. intros row.
    destruct row as [|a [|b [|c [|d row]]]]; simpl; split;
      try (intros [? ?]; discriminate); try lia; eauto. }
  rewrite <- Hq.
  destruct (mapM row_quad prims) as [quads|]; rewrite H; simpl; split;
    try discriminate; eauto.
  intros [? ?]. discriminate.
Qed.

Lemma tris_uses_first_four_columns_witness :
  HavokGeometry.tris [[1; 2; 3; 4; 9]; [1; 1; 2; 3; 9]] = Ok [(1, 2, 3); (1, 3, 4); (1, 2, 3)]
  /\ HavokGeometry.tris [[1; 2; 3; 4]; [1; 2; 3]] = Raise IndexError.
Proof.
  split.
  - exact (proj1 (tris_uses_first_four_columns [[1; 2; 3; 4; 9]; [1; 1; 2; 3; 9]]
                    ltac:(discriminate))).
  - exact (proj1 (tris_uses_first_four_columns [[1; 2; 3; 4]; [1; 2; 3]]
                    ltac:(discriminate))).
Defined.

Lemma triangulate_length (quads : list Quad) :
  (length (triangulate quads) <= 2 * length quads)%nat.
Proof.
  unfold triangulate. induction quads as [|q quads IH]; [simpl; lia|].
  cbn [flat_map length]. rewrite length_app.
  pose proof (length_filter (fun tri => ~ degenerate tri) (candidates q)) as Hf.
  assert (Hc : length (candidates q) = 2%nat) by (destruct q as [[[a b] c] d]; reflexivity).
  lia.
Qed.

Lemma triangulate_In (quads : list Quad) (tri : Z * Z * Z) :
  In tri (triangulate quads) ->
  exists q, In q quads /\ In tri (candidates q) /\ ~ degenerate tri.
Proof.
  unfold triangulate. rewrite in_flat_map. intros (q & Hq & Ht).
  apply list_elem_of_In, list_elem_of_filter in Ht. destruct Ht as [Hd Ht].
  exists q. split; [exact Hq|split; [apply list_elem_of_In, Ht|exact Hd]].
Qed.

Lemma row_quad_In (row : list Z) (q : Quad) (x : Z) :
  row_quad row = Some q -> In x (corners q) -> In x row.
Proof.
  destruct row as [|a [|b [|c [|d row]]]]; try discriminate.
  intros H. inversion H; subst; clear H. simpl. tauto.
Qed.

Lemma candidates_corners (q : Quad) (a b c : Z) :
  In (a, b, c) (candidates q) ->
  In a (corners q) /\ In b (corners q) /\ In c (corners q).
Proof.
  destruct q as [[[qa qb] qc] qd]. simpl.
  intros [H|[H|[]]]; inversion H; subst; tauto.
Qed.

(** X9. Every triangle [tris] returns has three different indices, all
    of them corners of one row of [primitives], and there are at most two
    triangles per row: the triangulation brings in no index of its own. *)
Theorem tris_output (prims : list (list Z)) (ts : list (Z * Z * Z)) :
  HavokGeometry.tris prims = Ok ts ->
  (length ts <= 2 * length prims)%nat
  /\ forall a b c,
       In (a, b, c) ts ->
       (a <> b /\ b <> c /\ a <> c)
       /\ exists row, In row prims /\ In a row /\ In b row /\ In c row.
Proof.
  intros H. pose proof (tris_rows prims) as Hrows.
  destruct (mapM row_quad prims) as [quads|] eqn:Hq; [|congruence].
  rewrite H in Hrows. inversion Hrows; subst; clear Hrows.
  apply mapM_Some in Hq.
  split.
  - rewrite (Forall2_length _ _ _ Hq). apply triangulate_length.
  - intros a b c Hin. apply triangulate_In in Hin.
    destruct Hin as (q & Hq' & Hc & Hd).
    split; [unfold degenerate in Hd; tauto|].
    apply list_elem_of_In, list_elem_of_lookup in Hq'. destruct Hq' as (i & Hi).
    destruct (Forall2_lookup_r _ _ _ _ _ Hq Hi) as (row & Hrow & Hrq).
    exists row. split; [eapply list_elem_of_In, list_elem_of_lookup_2, Hrow|].
    destruct (candidates_corners _ _ _ _ Hc) as (Ha & Hb & Hc').
    repeat split; eapply row_quad_In; eassumption.
Qed.

Lemma tris_output_witness :
  (length [(1, 2, 3); (1, 3, 4); (1, 2, 3)] <= 2 * 2)%nat
  /\ exists row, In row [[1; 2; 3; 4; 9]; [1; 1; 2; 3; 9]]
                 /\ In 1 row /\ In 3 row /\ In 4 row.
Proof.
  destruct (tris_output [[1; 2; 3; 4; 9]; [1; 1; 2; 3; 9]]
              [(1, 2, 3); (1, 3, 4); (1, 2, 3)] eq_refl) as [Hlen Hall].
  split; [exact Hlen|].
  destruct (Hall 1 3 4) as [_ Hrow]; [simpl; tauto|exact Hrow].
Defined.

(** ** The constructor as a whole *)

Lemma bind_Ok_r {A} (m : Res A) : m ≫= Ok = m.
Proof. destruct m; reflexivity. Qed.

Lemma resolve_through_none (sections : list HavokSection.t) (svi : list Z)
    (size n : Z) (i : nat) (v : Z) :
  (forall s, In s sections -> ~ in_prim_slice s n i) ->
  resolve_through sections svi size n i v = Ok v.
Proof.
  induction sections as [|sec rest IH]; intros H; [reflexivity|].
  cbn [resolve_through].
  destruct (decide (in_prim_slice sec n i)) as [Hi|_].
  - exfalso. eapply H; [left; reflexivity|exact Hi].
  - apply IH. intros s Hs. apply H. right. exact Hs.
Qed.

Lemma resolve_through_unique (sections : list HavokSection.t) (svi : list Z)
    (size n : Z) (i : nat) (v : Z) :
  prim_slices_disjoint sections n ->
  forall k s, sections !! k = Some s -> in_prim_slice s n i ->
  resolve_through sections svi size n i v = resolve_corner s svi size v.
Proof.
  induction sections as [|sec rest IH]; intros Hdis k s Hk Hi; [destruct k; discriminate|].
  cbn [resolve_through].
  assert (Hrest : prim_slices_disjoint rest n).
  { intros k1 k2 s1 s2 i' H1 H2 Hne.
    apply (Hdis (S k1) (S k2) s1 s2 i'); [exact H1|exact H2|lia]. }
  destruct k as [|k]; simpl in Hk.
  - inversion Hk; subst; clear Hk.
    destruct (decide (in_prim_slice s n i)) as [_|Hn]; [|contradiction].
    rewrite <- (bind_Ok_r (resolve_corner s svi size v)) at 2.
    destruct (resolve_corner s svi size v) as [v'|e]; [|reflexivity].
    rewrite !Ok_bind. apply resolve_through_none.
    intros s' Hs' Hi'. apply list_elem_of_In, list_elem_of_lookup in Hs'.
    destruct Hs' as (k' & Hk').
    apply (Hdis 0%nat (S k') s s' i); [reflexivity|exact Hk'|lia|].
    split; assumption.
  - destruct (decide (in_prim_slice sec n i)) as [Hsec|_].
    + exfalso. apply (Hdis 0%nat (S k) sec s i); [reflexivity|exact Hk|lia|].
      split; assumption.
    + eapply IH; eassumption.
Qed.

(** X10. When [HavokGeometry.__init__] returns, every corner of
    [primitives] is the raw corner read from the tree, rewritten once by
    each section whose primitive slice holds its row, in the order of the
    sections; the array keeps its shape. Sections that overlap rewrite a
    row more than once. *)
Theorem init_rewrites_once_per_section (name meshTree : TagValue)
    (g : HavokGeometry.t) :
  HavokGeometry.init name meshTree = Ok g ->
  exists prims0,
    raw_primitives meshTree = Ok prims0
    /\ length (HavokGeometry.primitives g) = length prims0
    /\ forall i row,
         prims0 !! i = Some row ->
         exists row',
           HavokGeometry.primitives g !! i = Some row'
           /\ length row' = length row
           /\ forall j v,
                row !! j = Some v ->
                exists v',
                  row' !! j = Some v'
                  /\ resolve_through (HavokGeometry.sections g)
                       (HavokGeometry.sharedVerticesIndex g)
                       (len (HavokGeometry.packedVertices g)) (len prims0) i v
                     = Ok v'.
Proof.
  intros H. destruct (init_loop _ _ _ H) as (prims0 & shared & verts1 & Hraw & _ & _ & Hloop).
  exists prims0. split; [exact Hraw|].
  exact (sections_loop_primitives _ _ _ _ _ _ _ Hloop).
Qed.

Lemma init_rewrites_once_per_section_witness :
  exists g,
    HavokGeometry.init (VStr "n_hull") overlapping_mesh = Ok g
    /\ raw_primitives overlapping_mesh = Ok [[0; 0; 0; 0]]
    /\ HavokGeometry.primitives g = [[3; 3; 3; 3]]
    /\ resolve_through (HavokGeometry.sections g)
         (HavokGeometry.sharedVerticesIndex g)
         (len (HavokGeometry.packedVertices g)) 1 0 0 = Ok 3.
Proof.
  destruct (HavokGeometry.init (VStr "n_hull") overlapping_mesh) as [g|e] eqn:Hg;
    [|vm_compute in Hg; discriminate Hg].
  exists g. split; [reflexivity|].
  destruct (init_rewrites_once_per_section _ _ _ Hg) as (prims0 & Hraw & Hlen & Hrows).
  assert (Hp : prims0 = [[0; 0; 0; 0]])
    by (vm_compute in Hraw; inversion Hraw; reflexivity).
  subst prims0. split; [exact Hraw|].
  destruct (Hrows 0%nat [0; 0; 0; 0] eq_refl) as (row' & Hrow' & _ & Hc).
  destruct (Hc 0%nat 0 eq_refl) as (v' & _ & Hv').
  vm_compute in Hg. inversion Hg; subst; clear Hg.
  split; [reflexivity|]. vm_compute. reflexivity.
Defined.

Lemma rows_same (row row' : list Z) :
  length row' = length row ->
  (forall j v, row !! j = Some v -> exists v', row' !! j = Some v' /\ Ok v = Ok v') ->
  row' = row.
Proof.
  intros Hlen H. apply list_eq. intros j.
  destruct (row !! j) as [v|] eqn:Hv.
  - destruct (H j v Hv) as (v' & Hv' & Heq). inversion Heq; subst. exact Hv'.
  - apply lookup_ge_None in Hv. apply lookup_ge_None. lia.
Qed.

Lemma init_disjoint_rows (name meshTree : TagValue) (g : HavokGeometry.t)
    (prims0 : list (list Z)) :
  HavokGeometry.init name meshTree = Ok g ->
  raw_primitives meshTree = Ok prims0 ->
  prim_slices_disjoint (HavokGeometry.sections g) (len prims0) ->
  length (HavokGeometry.primitives g) = length prims0
  /\ (forall i row,
        (forall s, In s (HavokGeometry.sections g) -> ~ in_prim_slice s (len prims0) i) ->
        prims0 !! i = Some row ->
        HavokGeometry.primitives g !! i = Some row)
  /\ (forall s i row,
        In s (HavokGeometry.sections g) ->
        in_prim_slice s (len prims0) i ->
        prims0 !! i = Some row ->
        exists row',
          HavokGeometry.primitives g !! i = Some row'
          /\ length row' = length row
          /\ forall j v,
               row !! j = Some v ->
               exists v',
                 row' !! j = Some v'
                 /\ resolve_corner s (HavokGeometry.sharedVerticesIndex g)
                      (len (HavokGeometry.packedVertices g)) v = Ok v').
Proof.
  intros H Hraw Hdis.
  destruct (init_loop _ _ _ H) as (prims0' & shared & verts1 & Hraw' & _ & _ & Hloop).
  rewrite Hraw in Hraw'. inversion Hraw'; subst prims0'; clear Hraw'.
  destruct (sections_loop_primitives _ _ _ _ _ _ _ Hloop) as (Hlen & Hrows).
  split; [exact Hlen|split].
  - intros i row Hnone Hrow.
    destruct (Hrows i row Hrow) as (row' & Hrow' & Hl & Hc).
    rewrite Hrow'. f_equal. apply rows_same; [exact Hl|].
    intros j v Hv. destruct (Hc j v Hv) as (v' & Hv' & Hr).
    exists v'. split; [exact Hv'|].
    rewrite <- Hr. symmetry. apply resolve_through_none. exact Hnone.
  - intros s i row Hs Hi Hrow.
    destruct (Hrows i row Hrow) as (row' & Hrow' & Hl & Hc).
    exists row'. split; [exact Hrow'|split; [exact Hl|]].
    intros j v Hv. destruct (Hc j v Hv) as (v' & Hv' & Hr).
    exists v'. split; [exact Hv'|].
    apply list_elem_of_In, list_elem_of_lookup in Hs. destruct Hs as (k & Hk).
    rewrite <- Hr. symmetry.
    eapply resolve_through_unique; eassumption.
Qed.

(** X11. When the primitive slices of the sections are pairwise
    disjoint, the constructed [primitives] holds, in every row of a
    section's slice, the raw corners rewritten exactly once by the rule of
    that section, and every row outside all slices as it was read. *)
Theorem init_rewrites_disjoint_slices (name meshTree : TagValue)
    (g : HavokGeometry.t) (prims0 : list (list Z)) :
  HavokGeometry.init name meshTree = Ok g ->
  raw_primitives meshTree = Ok prims0 ->
  prim_slices_disjoint (HavokGeometry.sections g) (len prims0) ->
  (forall i row,
     (forall s, In s (HavokGeometry.sections g) -> ~ in_prim_slice s (len prims0) i) ->
     prims0 !! i = Some row ->
     HavokGeometry.primitives g !! i = Some row)
  /\ (forall s i row,
        In s (HavokGeometry.sections g) ->
        in_prim_slice s (len prims0) i ->
        prims0 !! i = Some row ->
        exists row',
          HavokGeometry.primitives g !! i = Some row'
          /\ length row' = length row
          /\ forall j v,
               row !! j = Some v ->
               exists v',
                 row' !! j = Some v'
                 /\ resolve_corner s (HavokGeometry.sharedVerticesIndex g)
                      (len (HavokGeometry.packedVertices g)) v = Ok v').
Proof.
  intros H Hraw Hdis. exact (proj2 (init_disjoint_rows _ _ _ _ H Hraw Hdis)).
Qed.

Lemma two_section_mesh_built :
  exists g,
    HavokGeometry.init (VStr "n_hull") two_section_mesh = Ok g
    /\ raw_primitives two_section_mesh = Ok [[0; 1; 2; 2]; [0; 1; 1; 2]]
    /\ HavokGeometry.primitives g = [[0; 1; 4; 4]; [2; 3; 3; 4]]
    /\ HavokGeometry.sharedVerticesIndex g = [1; 0; 1]
    /\ len (HavokGeometry.packedVertices g) = 3
    /\ len (HavokGeometry.sharedVertices g) = 2
    /\ map HavokSection.firstPrimitiveIndex (HavokGeometry.sections g) = [0; 1]
    /\ map HavokSection.numPrimitives (HavokGeometry.sections g) = [1; 1]
    /\ map HavokSection.firstPackedVertexIndex (HavokGeometry.sections g) = [0; 2]
    /\ map HavokSection.numPackedVertices (HavokGeometry.sections g) = [2; 1].
Proof.
  destruct (HavokGeometry.init (VStr "n_hull") two_section_mesh) as [g|e] eqn:Hg;
    [|vm_compute in Hg; discriminate Hg].
  exists g. split; [reflexivity|].
  vm_compute in Hg. inversion Hg; subst; clear Hg.
  repeat split; vm_compute; reflexivity.
Qed.

Lemma two_sections_disjoint (s0 s1 : HavokSection.t) :
  HavokSection.firstPrimitiveIndex s0 = 0 -> HavokSection.numPrimitives s0 = 1 ->
  HavokSection.firstPrimitiveIndex s1 = 1 -> HavokSection.numPrimitives s1 = 1 ->
  prim_slices_disjoint [s0; s1] 2.
Proof.
  intros H0 N0 H1 N1 k k' s s' i Hk Hk' Hne [Hi Hi'].
  destruct k as [|[|k]], k' as [|[|k']]; try discriminate; try congruence;
    inversion Hk; inversion Hk'; subst;
    apply in_prim_slice_nonneg in Hi, Hi'; lia.
Qed.

Lemma init_rewrites_disjoint_slices_witness :
  exists g,
    HavokGeometry.init (VStr "n_hull") two_section_mesh = Ok g
    /\ prim_slices_disjoint (HavokGeometry.sections g) 2
    /\ HavokGeometry.primitives g = [[0; 1; 4; 4]; [2; 3; 3; 4]]
    /\ forall s, In s (HavokGeometry.sections g) -> in_prim_slice s 2 1 ->
         exists row',
           HavokGeometry.primitives g !! 1%nat = Some row'
           /\ length row' = 4%nat
           /\ exists v', row' !! 3%nat = Some v'
                /\ resolve_corner s (HavokGeometry.sharedVerticesIndex g)
                     (len (HavokGeometry.packedVertices g)) 2 = Ok v'.
Proof.
  destruct two_section_mesh_built
    as (g & Hg & Hraw & Hprims & _ & _ & _ & Hfp & Hnp & _).
  exists g. split; [exact Hg|].
  assert (Hdis : prim_slices_disjoint (HavokGeometry.sections g) 2).
  { destruct (HavokGeometry.sections g) as [|s0 [|s1 [|s2 l]]]; try discriminate Hfp.
    inversion Hfp. inversion Hnp. apply two_sections_disjoint; congruence. }
  split; [exact Hdis|split; [exact Hprims|]].
  destruct (init_rewrites_disjoint_slices _ _ _ _ Hg Hraw Hdis) as [_ Hin].
  intros s Hs Hi.
  destruct (Hin s 1%nat [0; 1; 1; 2] Hs Hi eq_refl) as (row' & Hrow' & Hl & Hc).
  exists row'. split; [exact Hrow'|split; [exact Hl|]].
  exact (Hc 3%nat 2 eq_refl).
Defined.

(** ** Resolved indices are rows of [verts] *)

Lemma py_index_In {A} (l : list A) (k : Z) (x : A) :
  py_index l k = Ok x -> In x l.
Proof.
  unfold py_index. intros H.
  destruct ((0 <=? _) && _); [|discriminate H].
  destruct (l !! _) as [y|] eqn:Hy; [|discriminate H].
  inversion H; subst. eapply list_elem_of_In, list_elem_of_lookup_2, Hy.
Qed.

Lemma slice_assign_length {A} (l l' : list A) (a b : Z) (src : list A) :
  slice_assign l a b src = Ok l' -> length l' = length l.
Proof.
  unfold slice_assign. destruct (slice_range_le l a b) as [Hi Hj].
  destruct (slice_range (len l) a b) as [i j]. simpl in Hi, Hj.
  destruct (Nat.eqb_spec (length src) (j - i)) as [Heq|Hne].
  - intros H. inversion H. apply replace_rows_length. lia.
  - destruct src as [|x [|y src]]; try discriminate.
    intros H. inversion H. apply replace_rows_length.
    rewrite length_replicate. lia.
Qed.

Lemma section_step_verts_length (pv svi : list Z) (verts verts' : list (option Vertex))
    (prims prims' : list (list Z)) (sec : HavokSection.t) :
  HavokGeometry.section_step pv svi (verts, prims) sec = Ok (verts', prims') ->
  length verts' = length verts.
Proof.
  unfold HavokGeometry.section_step. intros H.
  apply bind_Ok in H. destruct H as (verts1 & Hverts & H).
  apply bind_Ok in H. destruct H as (prims1 & _ & H).
  inversion H; subst; clear H.
  destruct (0 <? HavokSection.numPackedVertices sec).
  - apply bind_Ok in Hverts. destruct Hverts as (decoded & _ & Hverts).
    eapply slice_assign_length. exact Hverts.
  - inversion Hverts. reflexivity.
Qed.

Lemma sections_loop_verts_length (pv svi : list Z) (sections : list HavokSection.t) :
  forall (verts verts' : list (option Vertex)) (prims prims' : list (list Z)),
    for_each (HavokGeometry.section_step pv svi) (verts, prims) sections
    = Ok (verts', prims') ->
    length verts' = length verts.
Proof.
  induction sections as [|sec rest IH]; intros verts verts' prims prims' H.
  - inversion H. reflexivity.
  - simpl in H. apply bind_Ok in H. destruct H as ([verts1 prims1] & Hstep & Hrest).
    rewrite (IH _ _ _ _ Hrest). eapply section_step_verts_length. exact Hstep.
Qed.

Lemma init_verts_length (name meshTree : TagValue) (g : HavokGeometry.t) :
  HavokGeometry.init name meshTree = Ok g ->
  len (HavokGeometry.verts g)
  = len (HavokGeometry.packedVertices g) + len (HavokGeometry.sharedVertices g).
Proof.
  intros H. destruct (init_loop _ _ _ H) as (prims0 & shared & verts1 & _ & _ & Hassign & Hloop).
  unfold len. rewrite (sections_loop_verts_length _ _ _ _ _ _ _ Hloop).
  rewrite (slice_assign_length _ _ _ _ _ Hassign), length_replicate. lia.
Qed.

Lemma resolve_corner_in_range (sec : HavokSection.t) (svi : list Z)
    (P S v v' : Z) :
  packed_range_within P sec ->
  Forall (fun x => 0 <= x < S) svi ->
  0 <= S -> P + S <= 2 ^ 32 ->
  0 <= v ->
  resolve_corner sec svi P v = Ok v' ->
  0 <= v' < P + S.
Proof.
  intros (Hf & Hn & Hfn) Hsvi HS Hsize Hv H.
  destruct (resolve_corner_cases _ _ _ _ _ H) as [Hpacked Hshared].
  destruct (Z.lt_ge_cases v (HavokSection.numPackedVertices sec)) as [Hlt|Hge].
  - rewrite (Hpacked Hlt), wrap_i64_fit by lia. lia.
  - destruct (Hshared Hge) as (x & Hx & ->).
    apply py_index_In in Hx.
    assert (Hr : 0 <= x < S).
    { revert Hx. clear -Hsvi. induction Hsvi as [|y svi Hy _ IH]; [intros []|].
      intros [<-|Hx]; [exact Hy|apply IH, Hx]. }
    rewrite Z.mod_small by lia. lia.
Qed.

Lemma Forall_In_elim {A} (P : A -> Prop) (l : list A) (x : A) :
  Forall P l -> In x l -> P x.
Proof.
  induction 1 as [|y l Hy _ IH]; [intros []|].
  intros [<-|Hx]; [exact Hy|apply IH, Hx].
Qed.

Lemma triangle_corners_in_rows (prims : list (list Z)) (ts : list (Z * Z * Z))
    (a b c : Z) :
  HavokGeometry.tris prims = Ok ts -> In (a, b, c) ts ->
  exists row, In row prims /\ In a row /\ In b row /\ In c row.
Proof.
  intros H Hin. pose proof (tris_rows prims) as Hrows.
  destruct (mapM row_quad prims) as [quads|] eqn:Hq; [|congruence].
  rewrite H in Hrows. inversion Hrows; subst; clear Hrows.
  apply mapM_Some in Hq. apply triangulate_In in Hin.
  destruct Hin as (q & Hq' & Hc & _).
  apply list_elem_of_In, list_elem_of_lookup in Hq'. destruct Hq' as (i & Hi).
  destruct (Forall2_lookup_r _ _ _ _ _ Hq Hi) as (row & Hrow & Hrq).
  exists row. split; [eapply list_elem_of_In, list_elem_of_lookup_2, Hrow|].
  destruct (candidates_corners _ _ _ _ Hc) as (Ha & Hb & Hc').
  repeat split; eapply row_quad_In; eassumption.
Qed.

(** X12. A constructed geometry whose sections partition the primitive
    array into disjoint slices, keep their packed ranges within the
    packed vertices and whose table points into the shared vertices, with
    fewer than 2^32 vertices and no negative raw index, has resolved
    indices that are all rows of [verts]: every corner of [primitives],
    and so every index of every triangle of [tris], lies in
    [[0, len(verts))]. *)
Theorem init_indices_are_rows_of_verts (name meshTree : TagValue)
    (g : HavokGeometry.t) (prims0 : list (list Z)) :
  HavokGeometry.init name meshTree = Ok g ->
  raw_primitives meshTree = Ok prims0 ->
  index_conditions g prims0 ->
  (forall row v,
     In row (HavokGeometry.primitives g) -> In v row ->
     0 <= v < len (HavokGeometry.verts g))
  /\ (forall ts,
        HavokGeometry.tris (HavokGeometry.primitives g) = Ok ts ->
        forall a b c,
          In (a, b, c) ts ->
          0 <= a < len (HavokGeometry.verts g)
          /\ 0 <= b < len (HavokGeometry.verts g)
          /\ 0 <= c < len (HavokGeometry.verts g)).
Proof.
  intros H Hraw (Hdis & Hcover & Hwithin & Htable & Hsize & Hnonneg).
  destruct (init_disjoint_rows _ _ _ _ H Hraw Hdis) as (Hlen & _ & Hin).
  rewrite (init_verts_length _ _ _ H).
  assert (Hcorner : forall row v,
            In row (HavokGeometry.primitives g) -> In v row ->
            0 <= v < len (HavokGeometry.packedVertices g)
                     + len (HavokGeometry.sharedVertices g)).
  { intros row' v' Hrow' Hv'.
    apply list_elem_of_In, list_elem_of_lookup in Hrow'. destruct Hrow' as (i & Hi).
    apply list_elem_of_In, list_elem_of_lookup in Hv'. destruct Hv' as (j & Hj).
    assert (Hlt : (i < length prims0)%nat)
      by (rewrite <- Hlen; eapply lookup_lt_Some; exact Hi).
    destruct (lookup_lt_is_Some_2 _ _ Hlt) as (row & Hrow).
    destruct (Hcover i Hlt) as (s & Hs & Hslice).
    destruct (Hin s i row Hs Hslice Hrow) as (row'' & Hrow'' & Hl & Hc).
    rewrite Hi in Hrow''. inversion Hrow''; subst row''; clear Hrow''.
    assert (Hjlt : (j < length row)%nat)
      by (rewrite <- Hl; eapply lookup_lt_Some; exact Hj).
    destruct (lookup_lt_is_Some_2 _ _ Hjlt) as (v & Hv).
    destruct (Hc j v Hv) as (v'' & Hv'' & Hres).
    rewrite Hj in Hv''. inversion Hv''; subst v''; clear Hv''.
    eapply resolve_corner_in_range; [| | | | |exact Hres].
    - eapply Forall_In_elim; eassumption.
    - exact Htable.
    - unfold len. lia.
    - exact Hsize.
    - eapply Hnonneg.
      + eapply list_elem_of_In, list_elem_of_lookup_2, Hrow.
      + eapply list_elem_of_In, list_elem_of_lookup_2, Hv. }
  split; [exact Hcorner|].
  intros ts Hts a b c Htri.
  destruct (triangle_corners_in_rows _ _ _ _ _ Hts Htri) as (row & Hrow & Ha & Hb & Hc).
  repeat split; eapply Hcorner; eassumption.
Qed.

Lemma two_section_mesh_conditions (g : HavokGeometry.t) :
  HavokGeometry.init (VStr "n_hull") two_section_mesh = Ok g ->
  index_conditions g [[0; 1; 2; 2]; [0; 1; 1; 2]].
Proof.
  intros Hg. vm_compute in Hg. inversion Hg; subst; clear Hg.
  unfold index_conditions. cbn [HavokGeometry.sections HavokGeometry.packedVertices
    HavokGeometry.sharedVertices HavokGeometry.sharedVerticesIndex].
  split; [|split; [|split; [|split; [|split]]]].
  - apply two_sections_disjoint; reflexivity.
  - intros i Hi. simpl in Hi.
    destruct i as [|[|i]]; [| |lia]; eexists;
      (split; [|apply in_prim_slice_nonneg]);
      [left; reflexivity| | | | |right; left; reflexivity| | | |];
      unfold len; simpl; lia.
  - repeat constructor; unfold len; simpl; lia.
  - repeat constructor; unfold len; simpl; lia.
  - unfold len; simpl; lia.
  - intros row v [<-|[<-|[]]] Hv; simpl in Hv; lia.
Qed.

Lemma init_indices_are_rows_of_verts_witness :
  exists g,
    HavokGeometry.init (VStr "n_hull") two_section_mesh = Ok g
    /\ HavokGeometry.primitives g = [[0; 1; 4; 4]; [2; 3; 3; 4]]
    /\ HavokGeometry.tris (HavokGeometry.primitives g) = Ok [(0, 1, 4); (2, 3, 4)]
    /\ len (HavokGeometry.verts g) = 5
    /\ 0 <= 4 < len (HavokGeometry.verts g).
Proof.
  destruct two_section_mesh_built as (g & Hg & Hraw & Hprims & _).
  exists g. split; [exact Hg|split; [exact Hprims|]].
  assert (Htris : HavokGeometry.tris (HavokGeometry.primitives g)
                  = Ok [(0, 1, 4); (2, 3, 4)]) by (rewrite Hprims; reflexivity).
  split; [exact Htris|].
  split; [rewrite (init_verts_length _ _ _ Hg); vm_compute in Hg;
          inversion Hg; reflexivity|].
  destruct (init_indices_are_rows_of_verts _ _ _ _ Hg Hraw
              (two_section_mesh_conditions g Hg)) as [_ Hall].
  destruct (Hall _ Htris 0 1 4 ltac:(left; reflexivity)) as (_ & _ & Hc).
  exact Hc.
Defined.

(** ** Rows of [verts] no section stores to *)

Lemma packed_range_within_owns (P : Z) (sec : HavokSection.t) (i : Z) :
  packed_range_within P sec -> owns sec i -> 0 <= i < P.
Proof. unfold packed_range_within, owns. lia. Qed.

Lemma sections_loop_verts_untouched (pv svi : list Z) (sections : list HavokSection.t) :
  forall (verts verts' : list (option Vertex)) (prims prims' : list (list Z)),
    for_each (HavokGeometry.section_step pv svi) (verts, prims) sections
    = Ok (verts', prims') ->
    Forall (packed_range_within (len pv)) sections ->
    (length pv <= length verts)%nat ->
    forall i : nat,
      (forall s, In s sections -> ~ owns s (Z.of_nat i)) ->
      verts' !! i = verts !! i.
Proof.
  induction sections as [|sec rest IH];
    intros verts verts' prims prims' H Hwithin Hpv i Hnone.
  - inversion H. reflexivity.
  - simpl in H. apply bind_Ok in H. destruct H as ([verts1 prims1] & Hstep & Hrest).
    inversion Hwithin as [|? ? Hsec Hrestw]; subst.
    destruct (section_step_verts _ _ _ _ _ _ _ Hstep) as (Hlen1 & Hout1 & _);
      [intros k; apply packed_range_within_owns; exact Hsec|exact Hpv|].
    rewrite (IH _ _ _ _ Hrest Hrestw); [| lia |].
    + apply Hout1. apply Hnone. left. reflexivity.
    + intros s Hs. apply Hnone. right. exact Hs.
Qed.

(** X13. [verts] always has [len(packedVertices) + len(sharedVertices)]
    rows. When the packed ranges of the sections lie within the packed
    vertices, a row below [len(packedVertices)] that no section owns is
    never stored to: it keeps what [np.empty] left there. *)
Theorem init_unowned_rows_uninitialised (name meshTree : TagValue)
    (g : HavokGeometry.t) :
  HavokGeometry.init name meshTree = Ok g ->
  length (HavokGeometry.verts g)
  = (length (HavokGeometry.packedVertices g)
     + length (HavokGeometry.sharedVertices g))%nat
  /\ (Forall (packed_range_within (len (HavokGeometry.packedVertices g)))
        (HavokGeometry.sections g) ->
      forall i : nat,
        (i < length (HavokGeometry.packedVertices g))%nat ->
        (forall s, In s (HavokGeometry.sections g) -> ~ owns s (Z.of_nat i)) ->
        HavokGeometry.verts g !! i = Some None).
Proof.
  intros H.
  split; [pose proof (init_verts_length _ _ _ H) as Hl; unfold len in Hl; lia|].
  intros Hwithin i Hi Hnone.
  destruct (init_loop _ _ _ H) as (prims0 & shared & verts1 & _ & Hshared & Hassign & Hloop).
  set (pv := HavokGeometry.packedVertices g) in *.
  set (sv := HavokGeometry.sharedVertices g) in *.
  pose proof (slice_assign_length _ _ _ _ _ Hassign) as Hl1.
  rewrite length_replicate in Hl1.
  assert (Hpv : (length pv <= length verts1)%nat) by lia.
  rewrite (sections_loop_verts_untouched _ _ _ _ _ _ _ Hloop Hwithin Hpv i Hnone).
  destruct (unpack_shared_elementwise _ _ _ _ Hshared) as [Hsl _].
  rewrite slice_assign_same_length in Hassign;
    unfold len; rewrite ?length_replicate, ?length_map; try lia.
  inversion Hassign; subst verts1; clear Hassign.
  rewrite replace_rows_lookup_before by (unfold len; rewrite ?length_replicate; lia).
  apply lookup_replicate_2. lia.
Qed.

Lemma init_unowned_rows_uninitialised_witness :
  exists g,
    HavokGeometry.init (VStr "n_hull") uncovered_mesh = Ok g
    /\ length (HavokGeometry.verts g) = 4%nat
    /\ HavokGeometry.verts g !! 2%nat = Some None.
Proof.
  destruct (HavokGeometry.init (VStr "n_hull") uncovered_mesh) as [g|e] eqn:Hg;
    [|vm_compute in Hg; discriminate Hg].
  exists g. split; [reflexivity|].
  destruct (init_unowned_rows_uninitialised _ _ _ Hg) as [Hlen Hrow].
  vm_compute in Hg. inversion Hg; subst; clear Hg.
  split; [exact Hlen|].
  apply Hrow.
  - repeat constructor; unfold len; simpl; lia.
  - simpl. lia.
  - intros s [<-|[]]. unfold owns. simpl. lia.
Defined.

(** ** The shape of [primitives] *)

Lemma np_stack_Ok (rows prims : list (list Z)) :
  np_stack rows = Ok prims ->
  prims = rows /\ rows <> []
  /\ exists w, Forall (fun row => length row = w) rows.
Proof.
  unfold np_stack. destruct rows as [|r rest]; [discriminate|].
  destruct (forallb _ rest) eqn:Hall; [|discriminate].
  intros H. inversion H; subst; clear H.
  split; [reflexivity|split; [discriminate|]].
  exists (length r). constructor; [reflexivity|].
  rewrite forallb_forall in Hall. apply List.Forall_forall.
  intros r' Hr'. apply Nat.eqb_eq, Hall, Hr'.
Qed.

Lemma np_stack_ragged (rows : list (list Z)) (r r' : list Z) :
  In r rows -> In r' rows -> length r <> length r' ->
  np_stack rows = Raise ValueError.
Proof.
  intros Hr Hr' Hne. destruct (np_stack rows) as [prims|e] eqn:H.
  - apply np_stack_Ok in H. destruct H as (_ & _ & w & Hw).
    pose proof (Forall_In_elim _ _ _ Hw Hr) as H1.
    pose proof (Forall_In_elim _ _ _ Hw Hr') as H2.
    simpl in H1, H2. congruence.
  - unfold np_stack in H. destruct rows as [|r0 rest]; [inversion H; reflexivity|].
    destruct (forallb _ rest); inversion H; reflexivity.
Qed.

(** X14. [HavokGeometry.__init__] needs a rectangular, non-empty
    primitive array: on a mesh tree whose [primitives] sequence is empty,
    or whose primitives have index lists of different lengths, it raises
    [ValueError] (from [np.stack]) once the domain and the index lists
    have been read. *)
Theorem init_needs_rectangular_primitives (name meshTree : TagValue)
    (prims : list TagValue) (rows : list (list Z)) :
  is_Ok (read_domain meshTree "min") = true ->
  is_Ok (read_domain meshTree "max") = true ->
  HavokGeometry.read_values meshTree "primitives" = Ok prims ->
  mapM HavokGeometry.read_indices prims = Ok rows ->
  rows = [] \/ (exists r r', In r rows /\ In r' rows /\ length r <> length r') ->
  HavokGeometry.init name meshTree = Raise ValueError.
Proof.
  intros Hmin Hmax Hprims Hrows Hbad. unfold HavokGeometry.init.
  destruct (read_domain meshTree "min") as [dmin|]; [|discriminate Hmin].
  destruct (read_domain meshTree "max") as [dmax|]; [|discriminate Hmax].
  rewrite !Ok_bind, Hprims, Ok_bind, Hrows, Ok_bind.
  destruct Hbad as [->|(r & r' & Hr & Hr' & Hne)]; [reflexivity|].
  rewrite (np_stack_ragged rows r r' Hr Hr' Hne). reflexivity.
Qed.

Lemma init_needs_rectangular_primitives_witness :
  HavokGeometry.init (VStr "n_hull")
    (mk_mesh 0 1 [] [5] [mk_section 0 1 [0; 0; 0; 1; 1; 1] 0 0 0 2 1] [0] [0; 1])
  = Raise ValueError
  /\ HavokGeometry.init (VStr "n_hull")
       (mk_mesh 0 1 [[0; 1; 2; 2]; [0; 1; 2]] [5]
          [mk_section 0 1 [0; 0; 0; 1; 1; 1] 0 0 0 2 1] [0] [0; 1])
     = Raise ValueError.
Proof.
  split.
  - apply (init_needs_rectangular_primitives _ _ [] []); try reflexivity.
    left. reflexivity.
  - apply (init_needs_rectangular_primitives _ _
             [mk_map [("indices", mk_ints [0; 1; 2; 2])];
              mk_map [("indices", mk_ints [0; 1; 2])]]
             [[0; 1; 2; 2]; [0; 1; 2]]); try reflexivity.
    right. exists [0; 1; 2; 2], [0; 1; 2].
    split; [left; reflexivity|split; [right; left; reflexivity|discriminate]].
Defined.

(** X15. The primitive array of a constructed geometry is a non-empty
    rectangle with the shape of the array read from the tree: one row per
    primitive, one column per index; the index rewrite changes no
    shape. *)
Theorem init_primitives_shape (name meshTree : TagValue) (g : HavokGeometry.t) :
  HavokGeometry.init name meshTree = Ok g ->
  exists prims0 w,
    raw_primitives meshTree = Ok prims0
    /\ prims0 <> []
    /\ length (HavokGeometry.primitives g) = length prims0
    /\ Forall (fun row => length row = w) prims0
    /\ Forall (fun row => length row = w) (HavokGeometry.primitives g).
Proof.
  intros H. destruct (init_loop _ _ _ H) as (prims0 & shared & verts1 & Hraw & _ & _ & Hloop).
  destruct (sections_loop_primitives _ _ _ _ _ _ _ Hloop) as (Hlen & Hrows).
  assert (Hstack : prims0 <> [] /\ exists w, Forall (fun row => length row = w) prims0).
  { unfold raw_primitives in Hraw.
    apply bind_Ok in Hraw. destruct Hraw as (prims & _ & Hraw).
    apply bind_Ok in Hraw. destruct Hraw as (rows & _ & Hraw).
    apply np_stack_Ok in Hraw. destruct Hraw as (-> & Hne & Hw). auto. }
  destruct Hstack as (Hne & w & Hw).
  exists prims0, w. split; [exact Hraw|split; [exact Hne|split; [exact Hlen|]]].
  split; [exact Hw|].
  apply List.Forall_forall. intros row' Hrow'.
  apply list_elem_of_In, list_elem_of_lookup in Hrow'. destruct Hrow' as (i & Hi).
  assert (Hlt : (i < length prims0)%nat)
    by (rewrite <- Hlen; eapply lookup_lt_Some; exact Hi).
  destruct (lookup_lt_is_Some_2 _ _ Hlt) as (row & Hrow).
  destruct (Hrows i row Hrow) as (row'' & Hrow'' & Hl & _).
  rewrite Hi in Hrow''. inversion Hrow''; subst row''. rewrite Hl.
  apply (Forall_In_elim (fun row => length row = w) prims0 row Hw).
  eapply list_elem_of_In, list_elem_of_lookup_2, Hrow.
Qed.

Lemma init_primitives_shape_witness :
  exists g prims0 w,
    HavokGeometry.init (VStr "n_hull") two_section_mesh = Ok g
    /\ raw_primitives two_section_mesh = Ok prims0
    /\ length (HavokGeometry.primitives g) = length prims0
    /\ Forall (fun row => length row = w) (HavokGeometry.primitives g).
Proof.
  destruct two_section_mesh_built as (g & Hg & _).
  destruct (init_primitives_shape _ _ _ Hg) as (prims0 & w & Hraw & _ & Hlen & _ & Hw).
  exists g, prims0, w. auto.
Defined.

(** ** Values [HavokSection.__init__] does not read *)

Lemma getitem_insert_eq (m : gmap string TagObject) (k : string) (t : TagObject) :
  getitem (VMap (<[k := t]> m)) k = Ok t.
Proof. cbn [getitem]. rewrite lookup_insert_eq. reflexivity. Qed.

Lemma getitem_insert_ne (m : gmap string TagObject) (k k' : string) (t : TagObject) :
  k' <> k -> getitem (VMap (<[k' := t]> m)) k = getitem (VMap m) k.
Proof. intros H. cbn [getitem]. rewrite lookup_insert_ne by exact H. reflexivity. Qed.

Lemma read_domain_section_with (d dom : gmap string TagObject)
    (mn mx codec : list TagObject) :
  read_domain (section_with d dom mn mx codec) "min"
  = np_array_f32 (map value (take 3 mn))
  /\ read_domain (section_with d dom mn mx codec) "max"
     = np_array_f32 (map value (take 3 mx)).
Proof.
  unfold read_domain, section_with.
  rewrite getitem_insert_eq, !Ok_bind. cbn [value]. split.
  - rewrite getitem_insert_eq, Ok_bind.
    cbn [value slice3 iter_values]. rewrite !Ok_bind. reflexivity.
  - rewrite getitem_insert_ne by discriminate.
    rewrite getitem_insert_eq, Ok_bind.
    cbn [value slice3 iter_values]. rewrite !Ok_bind. reflexivity.
Qed.

Lemma read_int_section_with (d dom : gmap string TagObject)
    (mn mx codec : list TagObject) (k : string) :
  k <> "domain" -> k <> "codecParms" ->
  HavokSection.read_int (section_with d dom mn mx codec) k
  = HavokSection.read_int (VMap d) k.
Proof.
  intros H1 H2. unfold HavokSection.read_int, section_with.
  rewrite !getitem_insert_ne by congruence. reflexivity.
Qed.

Lemma take3_of_take6 {A} (l l' : list A) :
  take 6 l = take 6 l' ->
  take 3 l = take 3 l' /\ take 3 (drop 3 l) = take 3 (drop 3 l').
Proof.
  intros H. split.
  - replace (take 3 l) with (take 3 (take 6 l)) by (rewrite take_take; reflexivity).
    replace (take 3 l') with (take 3 (take 6 l')) by (rewrite take_take; reflexivity).
    rewrite H. reflexivity.
  - rewrite !take_drop_commute. simpl. rewrite H. reflexivity.
Qed.

(** X16. [HavokSection.__init__] reads three components of each domain
    bound and six values of [codecParms]: two section mappings that
    differ only past the third entry of [domain.min] or [domain.max], or
    past the sixth entry of [codecParms], give the same result (the same
    section or the same exception). *)
Theorem section_init_ignores_further_values (d dom : gmap string TagObject)
    (mn mn' mx mx' codec codec' : list TagObject) :
  take 3 mn = take 3 mn' ->
  take 3 mx = take 3 mx' ->
  take 6 codec = take 6 codec' ->
  HavokSection.init (section_with d dom mn mx codec)
  = HavokSection.init (section_with d dom mn' mx' codec').
Proof.
  intros Hmn Hmx Hcodec. unfold HavokSection.init.
  destruct (read_domain_section_with d dom mn mx codec) as [-> ->].
  destruct (read_domain_section_with d dom mn' mx' codec') as [-> ->].
  rewrite Hmn, Hmx.
  rewrite !read_int_section_with by discriminate.
  assert (Hc : forall c, getitem (section_with d dom mn mx c) "codecParms"
                         = Ok (Tag (VSeq c))
                         /\ getitem (section_with d dom mn' mx' c) "codecParms"
                            = Ok (Tag (VSeq c))).
  { intros c. unfold section_with.
    split; rewrite getitem_insert_ne by discriminate; apply getitem_insert_eq. }
  rewrite (proj1 (Hc codec)), (proj2 (Hc codec')).
  cbn [value iter_values].
  destruct (np_array_f32 (map value (take 3 mn'))) as [dmin|e]; [|reflexivity].
  destruct (np_array_f32 (map value (take 3 mx'))) as [dmax|e]; [|reflexivity].
  rewrite !Ok_bind. cbn [value iter_values]. rewrite !Ok_bind. rewrite !skipn_map, !firstn_map.
  destruct (take3_of_take6 _ _ Hcodec) as [-> ->]. reflexivity.
Qed.

Lemma section_init_ignores_further_values_witness :
  HavokSection.init
    (section_with zero_counts ∅ (map Tag [VInt 0; VInt 0; VInt 0; VInt 7])
       (map Tag [VInt 1; VInt 1; VInt 1])
       (map Tag [VInt 0; VInt 0; VInt 0; VInt 1; VInt 1; VInt 1; VStr "x"]))
  = HavokSection.init
      (section_with zero_counts ∅ (map Tag [VInt 0; VInt 0; VInt 0])
         (map Tag [VInt 1; VInt 1; VInt 1; VInt 9])
         (map Tag [VInt 0; VInt 0; VInt 0; VInt 1; VInt 1; VInt 1]))
  /\ is_Ok (HavokSection.init
              (section_with zero_counts ∅ (map Tag [VInt 0; VInt 0; VInt 0; VInt 7])
                 (map Tag [VInt 1; VInt 1; VInt 1])
                 (map Tag [VInt 0; VInt 0; VInt 0; VInt 1; VInt 1; VInt 1; VStr "x"])))
     = true.
Proof.
  split; [|vm_compute; reflexivity].
  apply section_init_ignores_further_values; reflexivity.
Defined.

(** ** Codec shapes in the loop over the sections *)

Lemma unpack_packed_bad_shape (packed : list Z) (codec : CodecParams)
    (lo hi : list spec_float) :
  ~ (broadcastable (scale_xyz codec) /\ broadcastable (min_xyz codec)
     /\ broadcastable lo /\ broadcastable hi) ->
  unpack_packed_vertices packed codec lo hi = Raise ValueError.
Proof.
  intros Hbad. unfold unpack_packed_vertices.
  destruct (broadcast3_cases (scale_xyz codec)) as [(s & -> & Hs)|[-> _]];
    [rewrite Ok_bind|reflexivity].
  destruct (broadcast3_cases (min_xyz codec)) as [(m & -> & Hm)|[-> _]];
    [rewrite Ok_bind|reflexivity].
  destruct (broadcast3_cases lo) as [(l & -> & Hl)|[-> _]];
    [rewrite Ok_bind|reflexivity].
  destruct (broadcast3_cases hi) as [(h & -> & Hh)|[-> _]];
    [rewrite Ok_bind|reflexivity].
  exfalso. tauto.
Qed.

(** X17. In the loop of [HavokGeometry.__init__] the codec and the domain
    of a section are used only if the section has packed vertices: the
    step of a section with [numPackedVertices > 0] whose [scale_xyz],
    [min_xyz] or domain bounds have neither one nor three entries raises
    [ValueError]; the step of a section with no packed vertices leaves
    [verts] alone and raises no [ValueError], whatever these vectors
    are. *)
Theorem section_step_codec_shapes (pv svi : list Z) (verts : list (option Vertex))
    (prims : list (list Z)) (sec : HavokSection.t) :
  (0 < HavokSection.numPackedVertices sec -> ~ codec_shapes_ok sec ->
   HavokGeometry.section_step pv svi (verts, prims) sec = Raise ValueError)
  /\ (HavokSection.numPackedVertices sec <= 0 ->
      (forall e, HavokGeometry.section_step pv svi (verts, prims) sec = Raise e ->
                 e = IndexError \/ e = OverflowError)
      /\ (forall verts' prims',
            HavokGeometry.section_step pv svi (verts, prims) sec = Ok (verts', prims') ->
            verts' = verts)).
Proof.
  unfold HavokGeometry.section_step. split.
  - intros Hn Hbad.
    destruct (Z.ltb_spec 0 (HavokSection.numPackedVertices sec)) as [_|]; [|lia].
    rewrite (unpack_packed_bad_shape _ _ _ _ Hbad). reflexivity.
  - intros Hn.
    destruct (Z.ltb_spec 0 (HavokSection.numPackedVertices sec)) as [|_]; [lia|].
    rewrite Ok_bind. split.
    + intros e H. apply bind_Raise in H.
      destruct H as [H|(prims1 & _ & H)]; [|discriminate H].
      eapply resolve_section_Raise. exact H.
    + intros verts' prims' H. apply bind_Ok in H.
      destruct H as (prims1 & _ & H). inversion H. reflexivity.
Qed.

(** ** The position of a shared reference in the table *)

Lemma py_index_Ok_inv {A} (l : list A) (k : Z) (x : A) :
  py_index l k = Ok x ->
  - len l <= k < len l /\ l !! Z.to_nat (k mod len l) = Some x.
Proof.
  unfold py_index, len. set (n := Z.of_nat (length l)).
  destruct (Z.ltb_spec k 0) as [Hneg|Hpos].
  - destruct (Z.leb_spec 0 (k + n)) as [H0|]; [|discriminate].
    destruct (Z.ltb_spec (k + n) n) as [Hn|]; [|discriminate].
    cbn [andb]. destruct (l !! Z.to_nat (k + n)) as [y|] eqn:Hy; [|discriminate].
    intros H. inversion H; subst. split; [lia|].
    replace (k mod n) with (k + n); [exact Hy|].
    apply Z.mod_unique with (q := -1); lia.
  - destruct (Z.leb_spec 0 k) as [_|]; [|lia].
    destruct (Z.ltb_spec k n) as [Hn|]; [|discriminate].
    cbn [andb]. destruct (l !! Z.to_nat k) as [y|] eqn:Hy; [|discriminate].
    intros H. inversion H; subst. split; [lia|].
    rewrite Z.mod_small by lia. exact Hy.
Qed.

(** X18. In the step of a section a shared reference [v] (a corner not
    below [numPackedVertices]) is looked up at position
    [k = firstSharedVertexIndex + (v - numPackedVertices)] of
    [sharedVerticesIndex], and a negative [k] counts from the end of the
    table: the step returns only if [-len <= k < len], and the corner then
    becomes [packedVertices.size + table[k mod len]], reduced modulo
    2^32. *)
Theorem section_step_table_position (pv svi : list Z)
    (verts verts' : list (option Vertex)) (prims prims' : list (list Z))
    (sec : HavokSection.t) (i j : nat) (row : list Z) (v : Z) :
  HavokGeometry.section_step pv svi (verts, prims) sec = Ok (verts', prims') ->
  in_prim_slice sec (len prims) i ->
  prims !! i = Some row -> row !! j = Some v ->
  HavokSection.numPackedVertices sec <= v ->
  - 2 ^ 63 <= v - HavokSection.numPackedVertices sec < 2 ^ 63 ->
  - 2 ^ 63 <= table_position sec v < 2 ^ 63 ->
  - len svi <= table_position sec v < len svi
  /\ exists row' x,
       prims' !! i = Some row'
       /\ svi !! Z.to_nat (table_position sec v mod len svi) = Some x
       /\ row' !! j = Some ((len pv + x) mod 2 ^ 32).
Proof.
  intros Hstep Hi Hrow Hv Hge Hsub Hpos.
  apply section_step_resolves in Hstep.
  destruct (resolve_section_corners _ _ _ _ _ Hstep) as (_ & _ & Hin).
  destruct (Hin i row Hi Hrow) as (row' & Hrow' & _ & Hc).
  destruct (Hc j v Hv) as (v' & Hv' & Hres).
  destruct (resolve_corner_cases _ _ _ _ _ Hres) as [_ Hshared].
  destruct (Hshared Hge) as (x & Hx & ->).
  unfold table_position in *.
  rewrite (wrap_i64_fit (v - _)) in Hx by exact Hsub.
  rewrite wrap_i64_fit in Hx by exact Hpos.
  apply py_index_Ok_inv in Hx. destruct Hx as [Hrange Hx].
  split; [exact Hrange|].
  exists row', x. auto.
Qed.

Lemma section_step_table_position_witness :
  exists verts' prims',
    HavokGeometry.section_step [0; 0; 0] [7; 8; 9]
      (replicate 13 None, [[0; 1; 1; 1]])
      {| HavokSection.domain_min := [F32.zero];
         HavokSection.domain_max := [F32.one];
         HavokSection.codec_params := {| min_xyz := [F32.zero]; scale_xyz := [F32.one] |};
         HavokSection.firstPackedVertexIndex := 0;
         HavokSection.firstSharedVertexIndex := -1;
         HavokSection.firstPrimitiveIndex := 0;
         HavokSection.numPackedVertices := 1;
         HavokSection.numPrimitives := 1;
         HavokSection.firstDataRunIndex := 0;
         HavokSection.numDataRuns := 0 |}
    = Ok (verts', prims')
    /\ exists row',
         prims' !! 0%nat = Some row' /\ row' !! 1%nat = Some ((3 + 9) mod 2 ^ 32).
Proof.
  set (sec := {| HavokSection.domain_min := [F32.zero];
                 HavokSection.domain_max := [F32.one];
                 HavokSection.codec_params :=
                   {| min_xyz := [F32.zero]; scale_xyz := [F32.one] |};
                 HavokSection.firstPackedVertexIndex := 0;
                 HavokSection.firstSharedVertexIndex := -1;
                 HavokSection.firstPrimitiveIndex := 0;
                 HavokSection.numPackedVertices := 1;
                 HavokSection.numPrimitives := 1;
                 HavokSection.firstDataRunIndex := 0;
                 HavokSection.numDataRuns := 0 |}).
  destruct (HavokGeometry.section_step [0; 0; 0] [7; 8; 9]
              (replicate 13 None, [[0; 1; 1; 1]]) sec)
    as [[verts' prims']|e] eqn:Hstep; [|vm_compute in Hstep; discriminate Hstep].
  exists verts', prims'. split; [reflexivity|].
  destruct (section_step_table_position _ _ _ _ _ _ sec 0 1 [0; 1; 1; 1] 1 Hstep)
    as (_ & row' & x & Hrow' & Hx & Hj);
    try reflexivity; try (unfold table_position; simpl; lia).
  - unfold in_prim_slice. vm_compute. lia.
  - exists row'. split; [exact Hrow'|].
    vm_compute in Hx. inversion Hx; subst. exact Hj.
Defined.

(** ** A body info without [shape] *)

Section WalkErrors.
Context {TagFileType : Type} `{EqDecision TagFileType} {IO : Type}.
Variable Object : TagFileType.
Variable checkIO : IO -> TagFileType.
Variable fromIO : IO -> Res TagObject.

Lemma read_geoms_handles (f : IO) (root_tag : TagObject) (vals : list TagValue) :
  checkIO f = Object ->
  fromIO f = Ok root_tag ->
  root_handles root_tag = Some vals ->
  read_geoms_from_havok Object checkIO fromIO f = for_each handle_step [] vals.
Proof.
  intros Hf Hroot Hvals. unfold read_geoms_from_havok.
  rewrite bool_decide_eq_true_2 by assumption. simpl. rewrite Hroot. simpl.
  revert Hvals. unfold root_handles, extract, ref_map, as_map, as_seq.
  destruct root_tag as [rv]; simpl.
  destruct rv as [| | | |d|]; simpl; try discriminate.
  destruct (d !! "namedVariants") as [[nvv]|] eqn:Hnv; simpl; [|discriminate].
  destruct nvv as [| | |l| |]; simpl; try discriminate.
  destruct l as [|[fv] [|]]; simpl; try discriminate.
  destruct fv as [| | | |fd|]; simpl; try discriminate.
  destruct (fd !! "variant") as [[varv]|] eqn:Hvar; simpl; [|discriminate].
  destruct varv as [| | | | |[vv]]; simpl; try discriminate.
  destruct vv as [| | | |vd|]; simpl; try discriminate.
  destruct (vd !! "resourceHandles") as [[rhv]|] eqn:Hrh; simpl; [|discriminate].
  destruct rhv as [| | |vals'| |]; simpl; try discriminate.
  intros H. inversion H; subst. reflexivity.
Qed.
End WalkErrors.

Lemma handle_step_bodies (out : list HavokGeometry.t) (val : TagValue)
    (bodies : list TagValue) :
  entry_bodies val = Some bodies ->
  handle_step out val = for_each body_step out bodies.
Proof.
  unfold entry_bodies, handle_step, ref_map, as_map, as_seq.
  destruct val as [| | | | |[v]]; simpl; try discriminate.
  destruct v as [| | | |d|]; simpl; try discriminate.
  destruct (d !! "name") as [nm|] eqn:Hname; simpl; [|discriminate].
  destruct (ne_str (value nm) "Collision Physics Data") eqn:Hne; [discriminate|].
  destruct (d !! "variant") as [[varv]|] eqn:Hvar; simpl; [|discriminate].
  destruct varv as [| | | | |[sv]]; simpl; try discriminate.
  destruct sv as [| | | |sub|]; simpl; try discriminate.
  destruct (sub !! "bodyCinfos") as [[bv]|] eqn:Hbodies; simpl; [|discriminate].
  destruct bv as [| | |l| |]; simpl; try discriminate.
  intros H. inversion H; subst. reflexivity.
Qed.

Lemma body_step_without_shape (out : list HavokGeometry.t) (d : gmap string TagObject) :
  d !! "shape" = None -> body_step out (VMap d) = Raise (KeyError "b'shape'").
Proof. intros H. unfold body_step, shape_of. cbn [getitem]. rewrite H. reflexivity. Qed.

(** X19. A body info that has no [shape] entry is not skipped, unlike one
    whose shape has no data: when the walk of [read_geoms_from_havok]
    reaches it, in the [bodyCinfos] of a resource handle named
    "Collision Physics Data", the call raises [KeyError] for [b'shape']
    and returns none of the geometries built before. *)
Theorem read_geoms_body_without_shape
    {TagFileType : Type} `{EqDecision TagFileType} {IO : Type}
    (Object : TagFileType) (checkIO : IO -> TagFileType)
    (fromIO : IO -> Res TagObject)
    (f : IO) (root_tag : TagObject) (pre post bpre bpost : list TagValue)
    (val : TagValue) (d : gmap string TagObject) :
  checkIO f = Object ->
  fromIO f = Ok root_tag ->
  root_handles root_tag = Some (pre ++ val :: post) ->
  is_Ok (for_each handle_step [] pre) = true ->
  entry_bodies val = Some (bpre ++ VMap d :: bpost) ->
  (forall out, is_Ok (for_each body_step out bpre) = true) ->
  d !! "shape" = None ->
  read_geoms_from_havok Object checkIO fromIO f = Raise (KeyError "b'shape'").
Proof.
  intros Hf Hroot Hvals Hpre Hbodies Hbpre Hshape.
  rewrite (read_geoms_handles Object checkIO fromIO f _ _ Hf Hroot Hvals).
  rewrite for_each_app.
  destruct (for_each handle_step [] pre) as [out|e]; [|discriminate Hpre].
  rewrite Ok_bind. cbn [for_each].
  rewrite (handle_step_bodies _ _ _ Hbodies), for_each_app.
  specialize (Hbpre out).
  destruct (for_each body_step out bpre) as [out'|e]; [|discriminate Hbpre].
  rewrite Ok_bind. cbn [for_each].
  rewrite (body_step_without_shape _ _ Hshape). reflexivity.
Qed.

Lemma read_geoms_body_without_shape_witness :
  read_geoms_from_havok true sample_checkIO sample_fromIO (true, shapeless_root)
  = Raise (KeyError "b'shape'").
Proof.
  apply (read_geoms_body_without_shape true sample_checkIO sample_fromIO
           (true, shapeless_root) shapeless_root
           [mk_entry "Other Data" []] []
           [mk_body "n_hull" sample_mesh] [mk_body "n_turret" sample_mesh]
           (mk_entry "Collision Physics Data"
              [mk_body "n_hull" sample_mesh; mk_map [("name", VStr "n_gun")];
               mk_body "n_turret" sample_mesh])
           (list_to_map [("name", Tag (VStr "n_gun"))])).
  - reflexivity.
  - reflexivity.
  - reflexivity.
  - reflexivity.
  - reflexivity.
  - intros out. cbn [for_each].
    assert (Hstep : forall o, exists g, body_step o (mk_body "n_hull" sample_mesh)
                                        = Ok (o ++ [g])).
    { intros o.
      destruct (HavokGeometry.init (VStr "n_hull") sample_mesh) as [g|e] eqn:Hg;
        [|vm_compute in Hg; discriminate Hg].
      exists g.
      rewrite (body_step_view o _ (ShapeData (VStr "n_hull") sample_mesh));
        [|vm_compute; reflexivity].
      rewrite Hg. reflexivity. }
    destruct (Hstep out) as (g & ->). reflexivity.
  - reflexivity.
Defined.

(** ** The loader: the path of the havok file *)

Lemma prefix_length (p s : string) :
  String.prefix p s = true -> (String.length p <= String.length s)%nat.
Proof.
  revert s; induction p as [|a p IH]; intros s H; simpl; [lia|].
  destruct s as [|b s]; [discriminate H|]. simpl in H |- *.
  destruct (Ascii.ascii_dec a b); [|discriminate H].
  apply IH in H. lia.
Qed.

Lemma prefix_split (p s : string) :
  String.prefix p s = true -> exists r, s = p +:+ r.
Proof.
  revert s; induction p as [|a p IH]; intros s H; [exists s; reflexivity|].
  destruct s as [|b s]; [discriminate H|]. simpl in H.
  destruct (Ascii.ascii_dec a b) as [<-|]; [|discriminate H].
  destruct (IH _ H) as (r & ->). exists r. reflexivity.
Qed.

Lemma append_length (a b : string) :
  String.length (a +:+ b) = (String.length a + String.length b)%nat.
Proof. induction a as [|c a IH]; simpl; [reflexivity|]. rewrite IH. reflexivity. Qed.

Lemma replace_from_length (old new : string) :
  String.length new = String.length old -> old <> "" ->
  forall s k,
    (k <= String.length s)%nat ->
    String.length (replace_from k old new s) = (String.length s - k)%nat.
Proof.
  intros Hlen Hold. induction s as [|c s IH]; intros k Hk;
    cbn [replace_from String.length] in *.
  - lia.
  - destruct k as [|k].
    + destruct (String.prefix old (String c s)) eqn:Hp.
      * apply prefix_length in Hp. cbn [String.length] in Hp.
        assert (0 < String.length old)%nat
          by (destruct old; [congruence|cbn [String.length]; lia]).
        rewrite append_length, IH by lia. lia.
      * cbn [String.length]. rewrite IH by lia. lia.
    + apply IH. lia.
Qed.

Lemma occurs_tail (sub : string) (c : Ascii.ascii) (s : string) :
  occurs sub s -> occurs sub (String c s).
Proof. intros (a & b & ->). exists (String c a), b. reflexivity. Qed.

Lemma replace_from_absent (old new s : string) :
  ~ occurs old s -> replace_from 0 old new s = s.
Proof.
  induction s as [|c s IH]; intros Hno; cbn [replace_from]; [reflexivity|].
  destruct (String.prefix old (String c s)) eqn:Hp.
  - exfalso. apply Hno. destruct (prefix_split _ _ Hp) as (r & Hr).
    exists "", r. exact Hr.
  - f_equal. apply IH. intros H. apply Hno, occurs_tail, H.
Qed.

Lemma append_cons (c : Ascii.ascii) (a b : string) :
  String c a +:+ b = String c (a +:+ b).
Proof. reflexivity. Qed.

Lemma prefix_cons (a b : Ascii.ascii) (p s : string) :
  String.prefix (String a p) (String b s)
  = if Ascii.ascii_dec a b then String.prefix p s else false.
Proof. reflexivity. Qed.

Lemma prefix_cons_nil (a : Ascii.ascii) (p : string) :
  String.prefix (String a p) "" = false.
Proof. reflexivity. Qed.

Ltac next_char H c :=
  rewrite ?append_cons, prefix_cons in H;
  match type of H with
  | (if ?d then _ else _) = _ => destruct d as [<-|]; [|discriminate H]
  end.

Lemma model_has_no_border (stem : string) (c : Ascii.ascii) :
  ~ occurs ".model" (String c stem) ->
  String.prefix ".model" (String c stem +:+ ".model") = false.
Proof.
  intros Hno. destruct (String.prefix _ _) eqn:H; [|reflexivity].
  exfalso. next_char H c.
  destruct stem as [|c1 stem]; [discriminate H|]. next_char H c1.
  destruct stem as [|c2 stem]; [discriminate H|]. next_char H c2.
  destruct stem as [|c3 stem]; [discriminate H|]. next_char H c3.
  destruct stem as [|c4 stem]; [discriminate H|]. next_char H c4.
  destruct stem as [|c5 stem]; [discriminate H|]. next_char H c5.
  apply Hno. exists "", stem. reflexivity.
Qed.

(** X20. The path of the havok file, [model['File'].replace('.model', '.havok')],
    has the length of the model path; a model path in which [.model] does
    not occur is used as it is; and a path that ends in [.model], with no
    other occurrence before, has this ending replaced by [.havok]. *)
Theorem havok_path_of_model_path (file : string) :
  String.length (havok_path file) = String.length file
  /\ (~ occurs ".model" file -> havok_path file = file)
  /\ (forall stem,
        ~ occurs ".model" stem -> file = stem +:+ ".model" ->
        havok_path file = stem +:+ ".havok").
Proof.
  unfold havok_path, str_replace. split; [|split].
  - rewrite replace_from_length; [lia|reflexivity|discriminate|lia].
  - apply replace_from_absent.
  - intros stem Hno ->. induction stem as [|c stem IH]; [reflexivity|].
    rewrite append_cons. cbn [replace_from]. rewrite <- append_cons.
    rewrite (model_has_no_border stem c Hno).
    rewrite !append_cons. f_equal. apply IH.
    intros H. apply Hno, occurs_tail, H.
Qed.

(** ** The loader: the names of the objects *)

Lemma append_assoc (a b c : string) : (a +:+ b) +:+ c = a +:+ (b +:+ c).
Proof.
  induction a as [|x a IH]; [reflexivity|].
  rewrite !append_cons, IH. reflexivity.
Qed.

Lemma has_char_append_r (c : Ascii.ascii) (a b : string) :
  has_char c b -> has_char c (a +:+ b).
Proof.
  induction a as [|x a IH]; intros H; [exact H|].
  rewrite append_cons. right. apply IH, H.
Qed.

Lemma digits_have_no_underscore (d : Decimal.uint) :
  ~ has_char underscore (DecimalString.NilEmpty.string_of_uint d).
Proof.
  induction d; cbn [DecimalString.NilEmpty.string_of_uint has_char];
    try tauto; intros [H|H]; try discriminate H; tauto.
Qed.

Lemma str_of_nat_no_underscore (i : nat) : ~ has_char underscore (str_of_nat i).
Proof.
  unfold str_of_nat, DecimalString.NilZero.string_of_uint.
  destruct (Nat.to_uint i) eqn:Hd; try apply digits_have_no_underscore.
  cbn [has_char]. intros [H|[]]. discriminate H.
Qed.

Lemma to_uint_not_nil (i : nat) : Nat.to_uint i <> Decimal.Nil.
Proof.
  intros H. pose proof (DecimalNat.Unsigned.to_of (Nat.to_uint i)) as Hu.
  rewrite DecimalNat.Unsigned.of_to, H in Hu. discriminate Hu.
Qed.

Lemma str_of_nat_inj (i j : nat) : str_of_nat i = str_of_nat j -> i = j.
Proof.
  unfold str_of_nat. intros H.
  pose proof (DecimalString.NilZero.usu _ (to_uint_not_nil i)) as Hi.
  pose proof (DecimalString.NilZero.usu _ (to_uint_not_nil j)) as Hj.
  rewrite H, Hj in Hi. inversion Hi as [Heq].
  rewrite <- (DecimalNat.Unsigned.of_to i), <- (DecimalNat.Unsigned.of_to j), Heq.
  reflexivity.
Qed.

(** Two strings that agree behind their last underscore. *)
Lemma last_field (x y d1 d2 : string) :
  ~ has_char underscore d1 -> ~ has_char underscore d2 ->
  x +:+ String underscore d1 = y +:+ String underscore d2 -> d1 = d2.
Proof.
  intros H1 H2. revert y. induction x as [|a x IH]; intros [|b y] H.
  - change (String underscore d1 = String underscore d2) in H.
    injection H as H. exact H.
  - change (String underscore d1 = String b (y +:+ String underscore d2)) in H.
    injection H as _ H. exfalso. apply H1. rewrite H.
    apply has_char_append_r. left. reflexivity.
  - change (String a (x +:+ String underscore d1) = String underscore d2) in H.
    injection H as _ H. exfalso. apply H2. rewrite <- H.
    apply has_char_append_r. left. reflexivity.
  - rewrite !append_cons in H. injection H as _ H. eapply IH. exact H.
Qed.

(** X21. The object names and mesh names [load_havok_file] builds for
    two different positions of the geometry list are different, whatever
    the file paths and the geometry names are: the position is the last
    field of the name, and its decimal digits hold no underscore. *)
Theorem ob_name_distinct (basename : string -> string)
    (filepath filepath' name name' : string) (i j : nat) :
  i <> j ->
  ob_name basename filepath name i <> ob_name basename filepath' name' j
  /\ mesh_name (ob_name basename filepath name i)
     <> mesh_name (ob_name basename filepath' name' j).
Proof.
  intros Hne.
  assert (Hob : ob_name basename filepath name i
                <> ob_name basename filepath' name' j).
  { unfold ob_name. intros H. apply Hne, str_of_nat_inj.
    rewrite <- !(append_assoc _ "_" (_ +:+ _)) in H.
    rewrite <- (append_assoc _ name), <- (append_assoc _ name') in H.
    eapply last_field; [| |exact H]; apply str_of_nat_no_underscore. }
  split; [exact Hob|].
  unfold mesh_name. intros H. apply Hob.
  rewrite !append_cons in H. injection H as H. exact H.
Qed.

Lemma ob_name_distinct_witness :
  ob_name (fun p => p) (havok_path "Hull.model") "n_hull" 0
  = "Hull_havok_n_hull_0"
  /\ ob_name (fun p => p) (havok_path "Hull.model") "n_hull" 0
     <> ob_name (fun p => p) (havok_path "Hull.model") "n_hull" 1.
Proof.
  split; [reflexivity|].
  apply (ob_name_distinct (fun p => p) (havok_path "Hull.model")
           (havok_path "Hull.model") "n_hull" "n_hull" 0 1).
  discriminate.
Defined.

(** ** Packed vertices owned by more than one section *)

(** X22. When the packed ranges of the sections lie within the packed
    vertices, whether or not they overlap or cover all of them, a row of
    [verts] below [len(packedVertices)] that some section owns holds
    the packed vertex decoded with the codec and the domain of the last
    section that owns it, and the rows from [len(packedVertices)] on
    hold the decoded shared vertices. *)
Theorem init_last_owner_decodes (name meshTree : TagValue) (g : HavokGeometry.t) :
  HavokGeometry.init name meshTree = Ok g ->
  Forall (packed_range_within (len (HavokGeometry.packedVertices g)))
    (HavokGeometry.sections g) ->
  (forall (i : nat) p pre s post,
     HavokGeometry.packedVertices g !! i = Some p ->
     HavokGeometry.sections g = pre ++ s :: post ->
     owns s (Z.of_nat i) ->
     (forall s', In s' post -> ~ owns s' (Z.of_nat i)) ->
     exists d,
       unpack_packed_vertices [p] (HavokSection.codec_params s)
         (HavokSection.domain_min s) (HavokSection.domain_max s) = Ok [d]
       /\ HavokGeometry.verts g !! i = Some (Some d))
  /\ (forall (j : nat) sv,
        HavokGeometry.sharedVertices g !! j = Some sv ->
        exists d,
          unpack_shared_vertices [sv] (HavokGeometry.domain_min g)
            (HavokGeometry.domain_max g) = Ok [d]
          /\ HavokGeometry.verts g
               !! (length (HavokGeometry.packedVertices g) + j)%nat
             = Some (Some d)).
Proof.
  intros H Hwithin.
  destruct (init_loop _ _ _ H) as (prims0 & shared & verts1 & _ & Hshared & Hassign & Hloop).
  set (pv := HavokGeometry.packedVertices g) in *.
  set (sv := HavokGeometry.sharedVertices g) in *.
  pose proof (slice_assign_length _ _ _ _ _ Hassign) as Hl1.
  rewrite length_replicate in Hl1.
  split.
  - intros i p pre s post Hp Hsplit Hown Hlater.
    rewrite Hsplit in Hloop, Hwithin.
    apply Forall_app in Hwithin. destruct Hwithin as [Hpre Hrest].
    inversion Hrest as [|? ? Hs Hpost]; subst.
    rewrite for_each_app in Hloop.
    apply bind_Ok in Hloop. destruct Hloop as ([verts2 prims2] & Hloop1 & Hloop2).
    cbn [for_each] in Hloop2.
    apply bind_Ok in Hloop2. destruct Hloop2 as ([verts3 prims3] & Hstep & Hloop3).
    pose proof (sections_loop_verts_length _ _ _ _ _ _ _ Hloop1) as Hl2.
    pose proof (section_step_verts_length _ _ _ _ _ _ _ Hstep) as Hl3.
    destruct (section_step_verts _ _ _ _ _ _ _ Hstep) as (_ & _ & Hin);
      [intros k; apply packed_range_within_owns; exact Hs|lia|].
    destruct (Hin i p Hown Hp) as (d & Hd & Hv).
    exists d. split; [exact Hd|].
    rewrite (sections_loop_verts_untouched _ _ _ _ _ _ _ Hloop3 Hpost); [exact Hv|lia|].
    exact Hlater.
  - intros j x Hx.
    destruct (unpack_shared_elementwise _ _ _ _ Hshared) as [Hslen Hsdec].
    destruct (Hsdec _ _ Hx) as (d & Hd & Hone).
    exists d. split; [exact Hone|].
    assert (Hpv : (length pv <= length verts1)%nat) by lia.
    rewrite (sections_loop_verts_untouched _ _ _ _ _ _ _ Hloop Hwithin Hpv).
    + rewrite slice_assign_same_length in Hassign
        by (unfold len; rewrite ?length_replicate, ?length_map; lia).
      inversion Hassign; subst verts1; clear Hassign.
      rewrite replace_rows_lookup_in;
        rewrite ?length_replicate, ?length_map; unfold len;
        [|lia|apply lookup_lt_Some in Hx; lia].
      rewrite list_lookup_fmap.
      replace (length pv + j - Z.to_nat (Z.of_nat (length pv)))%nat with j by lia.
      rewrite Hd. reflexivity.
    + intros s Hs Hsi.
      pose proof (packed_range_within_owns _ _ _
                    (Forall_In_elim _ _ _ Hwithin Hs) Hsi) as Hr.
      unfold len in Hr. lia.
Qed.

Lemma init_last_owner_decodes_witness :
  exists g,
    HavokGeometry.init (VStr "n_hull") twice_owned_mesh = Ok g
    /\ HavokGeometry.verts g !! 0%nat
       = Some (Some (F32.of_Z 3, F32.of_Z 1, F32.of_Z 1)).
Proof.
  destruct (HavokGeometry.init (VStr "n_hull") twice_owned_mesh) as [g|e] eqn:Hg;
    [|vm_compute in Hg; discriminate Hg].
  exists g. split; [reflexivity|].
  pose proof (init_last_owner_decodes _ _ _ Hg) as Hthm.
  vm_compute in Hg. inversion Hg; subst; clear Hg.
  destruct Hthm as [Hpacked _].
  - repeat constructor; unfold len; simpl; lia.
  - edestruct (Hpacked 0%nat 1 [_] _ [] eq_refl eq_refl) as (d & Hd & Hv).
    + unfold owns. simpl. lia.
    + intros s' [].
    + etransitivity; [exact Hv|]. vm_compute in Hd. inversion Hd. reflexivity.
Defined.

(** ** Meshes on which the constructor returns *)

Lemma init_of_arrays (name meshTree : TagValue) :
  HavokGeometry.init name meshTree
  = (a ← read_arrays meshTree;
     let verts : list (option Vertex) :=
       replicate (length (a_packedVertices a) + length (a_sharedVertices a)) None in
     shared ← unpack_shared_vertices (a_sharedVertices a)
                (a_domain_min a) (a_domain_max a);
     verts ← slice_assign verts (len (a_packedVertices a)) (len verts)
               (map Some shared);
     st ← for_each (HavokGeometry.section_step (a_packedVertices a)
                      (a_sharedVerticesIndex a))
            (verts, a_primitives a) (a_sections a);
     Ok {| HavokGeometry.name := name;
           HavokGeometry.domain_min := a_domain_min a;
           HavokGeometry.domain_max := a_domain_max a;
           HavokGeometry.primitives := snd st;
           HavokGeometry.sharedVertices := a_sharedVertices a;
           HavokGeometry.sharedVerticesIndex := a_sharedVerticesIndex a;
           HavokGeometry.packedVertices := a_packedVertices a;
           HavokGeometry.sections := a_sections a;
           HavokGeometry.verts := fst st |}).
Proof.
  unfold HavokGeometry.init, read_arrays, raw_primitives.
  destruct (read_domain meshTree "min") as [dmin|e]; [|reflexivity].
  destruct (read_domain meshTree "max") as [dmax|e]; [|reflexivity].
  rewrite !Ok_bind.
  destruct (HavokGeometry.read_values meshTree "primitives") as [prims|e];
    [|reflexivity].
  rewrite !Ok_bind.
  destruct (mapM HavokGeometry.read_indices prims) as [rows|e]; [|reflexivity].
  rewrite !Ok_bind.
  destruct (np_stack rows) as [primitives|e]; [|reflexivity].
  rewrite !Ok_bind.
  destruct (HavokGeometry.read_values meshTree "sharedVerticesIndex") as [svi|e];
    [|reflexivity].
  rewrite !Ok_bind.
  destruct (np_array_u32 svi) as [sharedVerticesIndex|e]; [|reflexivity].
  rewrite !Ok_bind.
  destruct (HavokGeometry.read_values meshTree "sections") as [secs|e];
    [|reflexivity].
  rewrite !Ok_bind.
  destruct (mapM HavokSection.init secs) as [sections|e]; [|reflexivity].
  rewrite !Ok_bind.
  destruct (HavokGeometry.read_values meshTree "sharedVertices") as [sv|e];
    [|reflexivity].
  rewrite !Ok_bind.
  destruct (np_array_u64 sv) as [sharedVertices|e]; [|reflexivity].
  rewrite !Ok_bind.
  destruct (HavokGeometry.read_values meshTree "packedVertices") as [pv|e];
    [|reflexivity].
  rewrite !Ok_bind.
  destruct (np_array_u32 pv) as [packedVertices|e]; [|reflexivity].
  rewrite !Ok_bind. reflexivity.
Qed.

Lemma unpack_shared_ok (shared : list Z) (lo hi : list spec_float) :
  broadcastable lo -> broadcastable hi ->
  exists ds, unpack_shared_vertices shared lo hi = Ok ds
             /\ length ds = length shared.
Proof.
  intros Hl Hh. unfold unpack_shared_vertices.
  destruct (vec_sub_cases hi lo Hh Hl) as (d & -> & Hd). rewrite Ok_bind.
  apply broadcast3_Ok_iff in Hd, Hl.
  destruct (broadcast3 d); [|discriminate Hd]. rewrite Ok_bind.
  destruct (broadcast3 lo); [|discriminate Hl]. rewrite Ok_bind.
  eexists. split; [reflexivity|]. rewrite !length_map. reflexivity.
Qed.

Lemma unpack_packed_ok (packed : list Z) (codec : CodecParams)
    (lo hi : list spec_float) :
  broadcastable (scale_xyz codec) -> broadcastable (min_xyz codec) ->
  broadcastable lo -> broadcastable hi ->
  exists ds, unpack_packed_vertices packed codec lo hi = Ok ds
             /\ length ds = length packed.
Proof.
  intros Hs Hm Hl Hh. unfold unpack_packed_vertices.
  apply broadcast3_Ok_iff in Hs, Hm, Hl, Hh.
  destruct (broadcast3 (scale_xyz codec)); [|discriminate Hs]. rewrite Ok_bind.
  destruct (broadcast3 (min_xyz codec)); [|discriminate Hm]. rewrite Ok_bind.
  destruct (broadcast3 lo); [|discriminate Hl]. rewrite Ok_bind.
  destruct (broadcast3 hi); [|discriminate Hh]. rewrite Ok_bind.
  eexists. split; [reflexivity|]. rewrite !length_map. reflexivity.
Qed.

Lemma py_index_in_range {A} (l : list A) (k : Z) :
  - len l <= k < len l -> exists x, py_index l k = Ok x.
Proof.
  intros Hk. unfold py_index. unfold len in *.
  set (k' := if k <? 0 then k + Z.of_nat (length l) else k).
  assert (Hk' : 0 <= k' < Z.of_nat (length l))
    by (subst k'; destruct (Z.ltb_spec k 0); lia).
  destruct (Z.leb_spec 0 k'); [|lia].
  destruct (Z.ltb_spec k' (Z.of_nat (length l))); [|lia].
  cbn [andb].
  destruct (lookup_lt_is_Some_2 l (Z.to_nat k') ltac:(lia)) as (x & ->).
  exists x. reflexivity.
Qed.

Lemma resolve_corner_ok (sec : HavokSection.t) (svi : list Z) (P v : Z) :
  corner_ok sec svi v -> is_Ok (resolve_corner sec svi P v) = true.
Proof.
  unfold corner_ok, resolve_corner, table_position.
  destruct (Z.leb_spec (HavokSection.numPackedVertices sec) v) as [Hge|Hlt];
    [|reflexivity].
  intros [Hlt|(Hsub & Hpos & Hrange)]; [lia|].
  rewrite (wrap_i64_fit (v - _)) by exact Hsub.
  rewrite wrap_i64_fit by exact Hpos.
  destruct (py_index_in_range svi _ Hrange) as (x & ->). reflexivity.
Qed.

Lemma py_slice_In {A} (l : list A) (a b : Z) (x : A) :
  In x (py_slice l a b) ->
  exists i : nat,
    (fst (slice_range (len l) a b) <= i < snd (slice_range (len l) a b))%nat
    /\ l !! i = Some x.
Proof.
  intros H. apply list_elem_of_In, list_elem_of_lookup in H.
  destruct H as (r & Hr).
  pose proof (lookup_lt_Some _ _ _ Hr) as Hlt. rewrite py_slice_length in Hlt.
  rewrite py_slice_lookup in Hr by lia.
  eexists. split; [|exact Hr]. lia.
Qed.

Lemma resolve_section_ok (sec : HavokSection.t) (svi : list Z) (P : Z)
    (prims : list (list Z)) :
  array_dtype prims = Int64 ->
  operands_fit sec P ->
  (forall i row v,
     in_prim_slice sec (len prims) i -> prims !! i = Some row -> In v row ->
     corner_ok sec svi v) ->
  exists prims', resolve_section sec svi P prims = Ok prims'.
Proof.
  intros Hd Hfit Hall. rewrite (resolve_section_Int64 _ _ _ _ Hd).
  rewrite (resolve_flat_elementwise _ _ _ _ Hfit).
  destruct (mapM_all_Ok (resolve_corner sec svi P)
              (concat (py_slice prims (HavokSection.firstPrimitiveIndex sec)
                         (HavokSection.firstPrimitiveIndex sec
                          + HavokSection.numPrimitives sec)))) as (flat & Hflat).
  - intros v Hv. apply in_concat in Hv. destruct Hv as (row & Hrow & Hv).
    apply py_slice_In in Hrow. destruct Hrow as (i & Hi & Hrow).
    apply resolve_corner_ok. eapply Hall; [exact Hi|exact Hrow|exact Hv].
  - rewrite Hflat, Ok_bind. eexists. reflexivity.
Qed.

Lemma section_step_ok (pv svi : list Z) (verts : list (option Vertex))
    (prims : list (list Z)) (sec : HavokSection.t) :
  len pv < 2 ^ 32 ->
  section_ok (len pv) sec ->
  (length pv <= length verts)%nat ->
  array_dtype prims = Int64 ->
  (forall i row v,
     in_prim_slice sec (len prims) i -> prims !! i = Some row -> In v row ->
     corner_ok sec svi v) ->
  exists verts' prims',
    HavokGeometry.section_step pv svi (verts, prims) sec = Ok (verts', prims').
Proof.
  intros HP ((Hf & Hn & Hfn) & Hshapes & Hfs) Hlen Hd Hall.
  unfold HavokGeometry.section_step.
  assert (Hfit : operands_fit sec (len pv)).
  { unfold operands_fit. unfold len in *. lia. }
  destruct (resolve_section_ok sec svi (len pv) prims Hd Hfit Hall) as (prims' & Hres).
  destruct (Z.ltb_spec 0 (HavokSection.numPackedVertices sec)) as [Hpos|Hzero].
  - destruct (Hshapes Hpos) as (Hs & Hm & Hl & Hh).
    destruct (unpack_packed_ok
                (py_slice pv (HavokSection.firstPackedVertexIndex sec)
                   (HavokSection.firstPackedVertexIndex sec
                    + HavokSection.numPackedVertices sec))
                _ _ _ Hs Hm Hl Hh) as (ds & -> & Hds).
    rewrite Ok_bind.
    rewrite py_slice_length, slice_range_inside in Hds by lia. simpl in Hds.
    rewrite slice_assign_same_length
      by (unfold len in *; rewrite ?length_map; lia).
    rewrite Ok_bind, Hres, Ok_bind. eauto.
  - rewrite Ok_bind, Hres, Ok_bind. eauto.
Qed.

Lemma sections_loop_ok (pv svi : list Z) (sections : list HavokSection.t) :
  len pv < 2 ^ 32 ->
  Forall (section_ok (len pv)) sections ->
  forall (verts : list (option Vertex)) (prims : list (list Z)),
    (length pv <= length verts)%nat ->
    (sections <> [] -> array_dtype prims = Int64) ->
    prim_slices_disjoint sections (len prims) ->
    (forall s i row v,
       In s sections -> in_prim_slice s (len prims) i ->
       prims !! i = Some row -> In v row -> corner_ok s svi v) ->
    exists verts' prims',
      for_each (HavokGeometry.section_step pv svi) (verts, prims) sections
      = Ok (verts', prims').
Proof.
  intros HP. induction 1 as [|sec rest Hsec _ IH];
    intros verts prims Hlen Hdt Hdis Hall.
  - eexists _, _. reflexivity.
  - cbn [for_each].
    assert (Hd : array_dtype prims = Int64) by (apply Hdt; discriminate).
    destruct (section_step_ok pv svi verts prims sec HP Hsec Hlen Hd)
      as (verts1 & prims1 & Hstep).
    { intros i row v. apply Hall. left. reflexivity. }
    rewrite Hstep, Ok_bind.
    pose proof (section_step_verts_length _ _ _ _ _ _ _ Hstep) as Hl1.
    pose proof (section_step_resolves _ _ _ _ _ _ _ Hstep) as Hres.
    destruct (resolve_section_corners _ _ _ _ _ Hres) as (Hplen & Hout & _).
    assert (Hn : len prims1 = len prims) by (unfold len; rewrite Hplen; reflexivity).
    apply IH.
    + lia.
    + intros _. eapply resolve_section_keeps_dtype. exact Hres.
    + rewrite Hn. intros k k' s s' i Hk Hk' Hne.
      apply (Hdis (S k) (S k') s s' i); [exact Hk|exact Hk'|lia].
    + rewrite Hn. intros s i row v Hs Hi Hrow Hv.
      assert (Hnot : ~ in_prim_slice sec (len prims) i).
      { intros Hsec_i. apply list_elem_of_In, list_elem_of_lookup in Hs.
        destruct Hs as (k & Hk).
        apply (Hdis 0%nat (S k) sec s i); [reflexivity|exact Hk|lia|].
        split; assumption. }
      assert (Hlt : (i < length prims)%nat)
        by (rewrite <- Hplen; eapply lookup_lt_Some; exact Hrow).
      destruct (lookup_lt_is_Some_2 _ _ Hlt) as (row0 & Hrow0).
      pose proof (Hout i row0 Hnot Hrow0) as Hsame.
      rewrite Hrow in Hsame. inversion Hsame; subst row0.
      eapply Hall; [right; exact Hs|exact Hi|exact Hrow0|exact Hv].
Qed.

(** X23. [HavokGeometry.__init__] returns a geometry on every mesh tree
    whose arrays can be read and are well formed: domain bounds of one or
    three components, fewer than 2^32 packed vertices, sections whose
    packed ranges lie within the packed vertices and whose codecs have
    one or three components where they are used, a primitive array of
    integers (no index list is empty) if there is a section, pairwise
    disjoint primitive slices, and corners that are packed indices of
    their section or shared references with a table position inside the
    table. The geometry holds the arrays as they were read. *)
Theorem init_returns_on_well_formed_mesh (name meshTree : TagValue)
    (a : MeshArrays) :
  read_arrays meshTree = Ok a ->
  arrays_ok a ->
  exists g,
    HavokGeometry.init name meshTree = Ok g
    /\ HavokGeometry.name g = name
    /\ HavokGeometry.sections g = a_sections a
    /\ HavokGeometry.packedVertices g = a_packedVertices a
    /\ HavokGeometry.sharedVertices g = a_sharedVertices a
    /\ HavokGeometry.sharedVerticesIndex g = a_sharedVerticesIndex a.
Proof.
  intros Hread (Hmin & Hmax & HP & Hsecs & Hdt & Hdis & Hcorners).
  rewrite init_of_arrays, Hread, Ok_bind. cbv zeta.
  destruct (unpack_shared_ok (a_sharedVertices a) _ _ Hmin Hmax) as (shared & -> & Hsl).
  rewrite Ok_bind.
  rewrite slice_assign_same_length
    by (unfold len; rewrite ?length_replicate, ?length_map; lia).
  rewrite Ok_bind.
  destruct (sections_loop_ok (a_packedVertices a) (a_sharedVerticesIndex a)
              (a_sections a) HP Hsecs
              (replace_rows
                 (replicate (length (a_packedVertices a)
                             + length (a_sharedVertices a)) None)
                 (Z.to_nat (len (a_packedVertices a))) (map Some shared))
              (a_primitives a)) as (verts' & prims' & ->).
  - rewrite replace_rows_length;
      rewrite ?length_replicate, ?length_map; unfold len; lia.
  - exact Hdt.
  - exact Hdis.
  - exact Hcorners.
  - rewrite Ok_bind. eexists. repeat split; reflexivity.
Qed.

Lemma init_returns_on_well_formed_mesh_witness :
  exists a g,
    read_arrays two_section_mesh = Ok a
    /\ arrays_ok a
    /\ HavokGeometry.init (VStr "n_hull") two_section_mesh = Ok g
    /\ HavokGeometry.packedVertices g = [0; 1; 2].
Proof.
  destruct (read_arrays two_section_mesh) as [a|e] eqn:Ha;
    [|vm_compute in Ha; discriminate Ha].
  assert (Hok : arrays_ok a).
  { vm_compute in Ha. inversion Ha; subst; clear Ha.
    unfold arrays_ok. cbn [a_domain_min a_domain_max a_packedVertices a_sections
      a_primitives a_sharedVerticesIndex].
    split; [right; reflexivity|]. split; [right; reflexivity|].
    split; [unfold len; simpl; lia|]. split; [|split; [|split]].
    - repeat constructor; unfold len; simpl; try lia;
        intros _; repeat split; right; reflexivity.
    - intros _. reflexivity.
    - apply two_sections_disjoint; reflexivity.
    - intros s i row v Hs Hi Hrow Hv.
      destruct Hs as [<-|[<-|[]]];
        apply in_prim_slice_nonneg in Hi; try (unfold len; simpl; lia);
        cbn [HavokSection.firstPrimitiveIndex HavokSection.numPrimitives] in Hi;
        unfold len in Hi; simpl in Hi.
      + assert (i = 0%nat) by lia. subst i. inversion Hrow; subst row.
        unfold corner_ok, table_position, len. simpl in Hv |- *.
        destruct Hv as [<-|[<-|[<-|[<-|[]]]]]; lia.
      + assert (i = 1%nat) by lia. subst i. inversion Hrow; subst row.
        unfold corner_ok, table_position, len. simpl in Hv |- *.
        destruct Hv as [<-|[<-|[<-|[<-|[]]]]]; lia. }
  destruct (init_returns_on_well_formed_mesh (VStr "n_hull") _ a Ha Hok)
    as (g & Hg & _ & _ & Hpv & _).
  exists a, g. split; [reflexivity|split; [exact Hok|split; [exact Hg|]]].
  rewrite Hpv. vm_compute in Ha. inversion Ha. reflexivity.
Defined.

(** ** Sections on which the constructor returns *)

Lemma np_array_f32_numeric (l : list TagObject) :
  Forall numeric l ->
  exists v, np_array_f32 (map value l) = Ok v /\ length v = length l.
Proof.
  unfold np_array_f32. induction 1 as [|t l Ht _ IH].
  - exists []. split; reflexivity.
  - destruct IH as (v & Hv & Hl). cbn [map mapM].
    assert (Hx : exists x, scalar_f32 (value t) = Ok x).
    { unfold numeric in Ht. destruct (value t); try contradiction.
      - cbn [scalar_f32]. rewrite Ht. eauto.
      - cbn [scalar_f32]. eauto. }
    destruct Hx as (x & ->). rewrite Ok_bind, Hv, Ok_bind.
    exists (x :: v). split; [reflexivity|]. simpl. rewrite Hl. reflexivity.
Qed.

Lemma read_int_entry (d : gmap string TagObject) (k : string) (n : Z) :
  d !! k = Some (Tag (VInt n)) -> HavokSection.read_int (VMap d) k = Ok n.
Proof.
  intros H. unfold HavokSection.read_int. cbn [getitem]. rewrite H. reflexivity.
Qed.

(** X24. [HavokSection.__init__] returns on every section mapping whose
    [domain.min], [domain.max] and [codecParms] are sequences with
    numbers in the places it reads and whose seven counts are integers.
    It checks no length: each domain bound keeps at most three
    components, [min_xyz] the first three values of [codecParms] and
    [scale_xyz] the next three, fewer when the sequence is shorter. The
    counts are stored as they are. *)
Theorem section_init_returns (d dom : gmap string TagObject)
    (mn mx codec : list TagObject) (count : string -> Z) :
  Forall numeric (take 3 mn) ->
  Forall numeric (take 3 mx) ->
  Forall numeric (take 6 codec) ->
  (forall k, In k count_keys -> d !! k = Some (Tag (VInt (count k)))) ->
  exists s,
    HavokSection.init (section_with d dom mn mx codec) = Ok s
    /\ length (HavokSection.domain_min s) = Nat.min 3 (length mn)
    /\ length (HavokSection.domain_max s) = Nat.min 3 (length mx)
    /\ length (min_xyz (HavokSection.codec_params s)) = Nat.min 3 (length codec)
    /\ length (scale_xyz (HavokSection.codec_params s))
       = Nat.min 3 (length codec - 3)
    /\ HavokSection.firstPackedVertexIndex s = count "firstPackedVertexIndex"
    /\ HavokSection.firstSharedVertexIndex s = count "firstSharedVertexIndex"
    /\ HavokSection.firstPrimitiveIndex s = count "firstPrimitiveIndex"
    /\ HavokSection.numPackedVertices s = count "numPackedVertices"
    /\ HavokSection.numPrimitives s = count "numPrimitives"
    /\ HavokSection.firstDataRunIndex s = count "firstDataRunIndex"
    /\ HavokSection.numDataRuns s = count "numDataRuns".
Proof.
  intros Hmn Hmx Hcodec Hcounts. unfold HavokSection.init.
  destruct (read_domain_section_with d dom mn mx codec) as [-> ->].
  destruct (np_array_f32_numeric _ Hmn) as (dmin & -> & Hlmin).
  destruct (np_array_f32_numeric _ Hmx) as (dmax & -> & Hlmax).
  rewrite !Ok_bind.
  assert (Hc : getitem (section_with d dom mn mx codec) "codecParms"
               = Ok (Tag (VSeq codec))).
  { unfold section_with. rewrite getitem_insert_ne by discriminate.
    apply getitem_insert_eq. }
  rewrite Hc, Ok_bind. cbn [value iter_values]. rewrite Ok_bind.
  rewrite !skipn_map, !firstn_map.
  assert (H3 : Forall numeric (take 3 codec)).
  { replace (take 3 codec) with (take 3 (take 6 codec))
      by (rewrite take_take; reflexivity).
    apply Forall_take, Hcodec. }
  assert (H36 : Forall numeric (take 3 (drop 3 codec))).
  { rewrite take_drop_commute. apply Forall_drop, Hcodec. }
  destruct (np_array_f32_numeric _ H3) as (cmin & -> & Hlcmin).
  destruct (np_array_f32_numeric _ H36) as (cscale & -> & Hlcscale).
  rewrite !Ok_bind.
  rewrite !read_int_section_with by discriminate.
  assert (Hint : forall k, In k count_keys ->
                 HavokSection.read_int (VMap d) k = Ok (count k))
    by (intros k Hk; apply read_int_entry, Hcounts, Hk).
  unfold count_keys in Hint.
  rewrite (Hint "firstPackedVertexIndex"), Ok_bind by (simpl; tauto).
  rewrite (Hint "firstSharedVertexIndex"), Ok_bind by (simpl; tauto).
  rewrite (Hint "firstPrimitiveIndex"), Ok_bind by (simpl; tauto).
  rewrite (Hint "numPackedVertices"), Ok_bind by (simpl; tauto).
  rewrite (Hint "numPrimitives"), Ok_bind by (simpl; tauto).
  rewrite (Hint "firstDataRunIndex"), Ok_bind by (simpl; tauto).
  rewrite (Hint "numDataRuns"), Ok_bind by (simpl; tauto).
  eexists. split; [reflexivity|].
  cbn [HavokSection.domain_min HavokSection.domain_max HavokSection.codec_params
       min_xyz scale_xyz HavokSection.firstPackedVertexIndex
       HavokSection.firstSharedVertexIndex HavokSection.firstPrimitiveIndex
       HavokSection.numPackedVertices HavokSection.numPrimitives
       HavokSection.firstDataRunIndex HavokSection.numDataRuns].
  rewrite Hlmin, Hlmax, Hlcmin, Hlcscale, !length_take, length_drop.
  repeat split; reflexivity.
Qed.

Lemma section_init_returns_witness :
  exists s,
    HavokSection.init
      (section_with zero_counts ∅ [] (map Tag [VInt 1; VInt 1; VInt 1; VStr "w"])
         (map Tag [VInt 0; VFloat (F64.of_Z 1)]))
    = Ok s
    /\ length (HavokSection.domain_min s) = 0%nat
    /\ length (HavokSection.domain_max s) = 3%nat
    /\ length (min_xyz (HavokSection.codec_params s)) = 2%nat
    /\ length (scale_xyz (HavokSection.codec_params s)) = 0%nat.
Proof.
  destruct (section_init_returns zero_counts ∅ []
              (map Tag [VInt 1; VInt 1; VInt 1; VStr "w"])
              (map Tag [VInt 0; VFloat (F64.of_Z 1)]) (fun _ => 0))
    as (s & Hs & H1 & H2 & H3 & H4 & _).
  - constructor.
  - repeat constructor.
  - repeat constructor.
  - intros k Hk. unfold count_keys in Hk. simpl in Hk.
    repeat (destruct Hk as [<-|Hk]; [reflexivity|]). destruct Hk.
  - exists s. auto.
Defined.

(** ** Finite packed vertices *)

Lemma inside_finite (lo x hi : spec_float) :
  inside lo x hi -> is_finite lo = true -> is_finite hi = true ->
  is_finite x = true.
Proof.
  intros [Hlo Hhi] Fl Fh. unfold F32.leb, SFleb in *.
  destruct x as [s|s| |s m e]; try reflexivity.
  - destruct lo as [sl|sl| |sl ml el]; try discriminate Fl;
      destruct hi as [sh|sh| |sh mh eh]; try discriminate Fh;
      destruct s; simpl in Hlo, Hhi; try discriminate;
      try (destruct sl; discriminate); try (destruct sh; discriminate).
  - destruct lo; discriminate.
Qed.

(** X25. With a finite codec and a finite section domain with
    [domain_min <= domain_max], every coordinate [unpack_packed_vertices]
    returns is a finite number: a [raw * scale + min] that overflows to
    an infinity is clamped back into the domain. *)
Theorem unpack_packed_vertices_finite
    (packed : list Z) (scale mn lo hi : Vertex) :
  le3 lo hi -> finite3 lo -> finite3 hi -> finite3 scale -> finite3 mn ->
  exists ds,
    unpack_packed_vertices packed
      {| min_xyz := vec mn; scale_xyz := vec scale |} (vec lo) (vec hi) = Ok ds
    /\ length ds = length packed
    /\ Forall finite3 ds.
Proof.
  intros (Lx & Ly & Lz) (Flx & Fly & Flz) (Fhx & Fhy & Fhz)
    (Fsx & Fsy & Fsz) (Fmx & Fmy & Fmz).
  eexists. split; [apply unpack_packed_three|]. split; [apply length_map|].
  apply List.Forall_forall. intros d Hd. apply in_map_iff in Hd.
  destruct Hd as (p & <- & _).
  destruct (raw_field_range p) as (Rx & Ry & Rz).
  destruct scale as [[sx sy] sz], mn as [[mx my] mz], lo as [[lx ly] lz],
    hi as [[hx hy] hz].
  unfold finite3, decode_packed, packed_raw, vx, vy, vz in *.
  cbn [fst snd map3 clip3] in *.
  repeat split;
    (eapply inside_finite; [apply np_clip_inside| |]; try eassumption;
     apply affine_not_nan; assumption).
Qed.

Lemma unpack_packed_vertices_finite_witness :
  exists ds,
    unpack_packed_vertices [0x7FF; 0xFFFFFFFF]
      {| min_xyz := vec zeros;
         scale_xyz := vec (S754_finite false 16777215 104,
                           S754_finite false 16777215 104,
                           S754_finite false 16777215 104) |}
      (vec zeros) (vec ones) = Ok ds
    /\ length ds = 2%nat
    /\ Forall finite3 ds.
Proof.
  apply (unpack_packed_vertices_finite [0x7FF; 0xFFFFFFFF]
           (S754_finite false 16777215 104, S754_finite false 16777215 104,
            S754_finite false 16777215 104) zeros zeros ones);
    repeat split.
Defined.

(** ** A packed range that runs past the packed vertices *)

Lemma slice_range_clipped (n a b : Z) :
  0 <= a <= n -> 0 <= b ->
  slice_range n a b = (Z.to_nat a, Z.to_nat (Z.min b n)).
Proof.
  intros Ha Hb. unfold slice_range, slice_bound.
  destruct (Z.ltb_spec a 0), (Z.ltb_spec b 0); try lia.
  rewrite (Z.min_l a n) by lia. reflexivity.
Qed.

(** X26. A section whose packed range starts inside the packed vertices
    and runs past their end, in a mesh that has shared vertices, is not
    cut to the packed vertices when it is stored into [verts]: with two
    or more packed vertices in the range the step raises [ValueError];
    with exactly one, that vertex is broadcast over the whole range and
    overwrites the shared vertices behind it. *)
Theorem section_step_packed_range_overrun (pv svi : list Z)
    (verts : list (option Vertex)) (prims : list (list Z))
    (sec : HavokSection.t) (S : nat) :
  codec_shapes_ok sec ->
  0 <= HavokSection.firstPackedVertexIndex sec < len pv ->
  len pv < HavokSection.firstPackedVertexIndex sec
           + HavokSection.numPackedVertices sec ->
  length verts = (length pv + S)%nat -> (0 < S)%nat ->
  (2 <= len pv - HavokSection.firstPackedVertexIndex sec ->
   HavokGeometry.section_step pv svi (verts, prims) sec = Raise ValueError)
  /\ (len pv - HavokSection.firstPackedVertexIndex sec = 1 ->
      forall verts' prims',
        HavokGeometry.section_step pv svi (verts, prims) sec = Ok (verts', prims') ->
        exists p d,
          pv !! Z.to_nat (HavokSection.firstPackedVertexIndex sec) = Some p
          /\ unpack_packed_vertices [p] (HavokSection.codec_params sec)
               (HavokSection.domain_min sec) (HavokSection.domain_max sec) = Ok [d]
          /\ forall k : nat,
               HavokSection.firstPackedVertexIndex sec <= Z.of_nat k
               < Z.min (HavokSection.firstPackedVertexIndex sec
                        + HavokSection.numPackedVertices sec)
                   (Z.of_nat (length verts)) ->
               verts' !! k = Some (Some d)).
Proof.
  intros (Hs & Hm & Hl & Hh) Ha Hb Hlen HS.
  set (a := HavokSection.firstPackedVertexIndex sec) in *.
  set (n := HavokSection.numPackedVertices sec) in *.
  unfold len in Ha, Hb.
  destruct (unpack_packed_ok (py_slice pv a (a + n)) _ _ _ Hs Hm Hl Hh)
    as (ds & Hds & Hdl).
  rewrite py_slice_length in Hdl. unfold len in Hdl.
  rewrite slice_range_clipped in Hdl by lia. cbn [fst snd] in Hdl.
  rewrite Z.min_r in Hdl by lia.
  assert (Hstore : forall src : list (option Vertex),
            slice_assign verts a (a + n) src
            = if (length src =? Z.to_nat (Z.min (a + n) (Z.of_nat (length verts)))
                                - Z.to_nat a)%nat
              then Ok (replace_rows verts (Z.to_nat a) src)
              else match src with
                   | [x] => Ok (replace_rows verts (Z.to_nat a)
                                  (replicate
                                     (Z.to_nat (Z.min (a + n) (Z.of_nat (length verts)))
                                      - Z.to_nat a) x))
                   | _ => Raise ValueError
                   end).
  { intros src. unfold slice_assign, len.
    rewrite slice_range_clipped by lia. reflexivity. }
  unfold HavokGeometry.section_step. fold a n.
  destruct (Z.ltb_spec 0 n) as [_|]; [|lia].
  rewrite Hds, Ok_bind, Hstore, length_map.
  destruct (Nat.eqb_spec (length ds)
              (Z.to_nat (Z.min (a + n) (Z.of_nat (length verts))) - Z.to_nat a))
    as [Heq|_]; [lia|].
  split.
  - intros Htwo. unfold len in Htwo.
    destruct ds as [|d1 [|d2 ds]]; simpl in Hdl; try lia. reflexivity.
  - intros Hone verts' prims' H. unfold len in Hone.
    destruct ds as [|d [|d2 ds]]; simpl in Hdl; try lia.
    cbn [map] in H. rewrite Ok_bind in H.
    apply bind_Ok in H. destruct H as (prims1 & _ & H).
    inversion H; subst verts' prims'; clear H.
    destruct (unpack_packed_elementwise _ _ _ _ _ Hds) as [_ Hrow].
    assert (Hp : exists p, py_slice pv a (a + n) !! 0%nat = Some p
                           /\ pv !! Z.to_nat a = Some p).
    { destruct (lookup_lt_is_Some_2 pv (Z.to_nat a) ltac:(lia)) as (p & Hp).
      exists p. split; [|exact Hp].
      rewrite py_slice_lookup; unfold len; rewrite slice_range_clipped by lia;
        cbn [fst snd]; [|lia].
      rewrite Nat.add_0_r. exact Hp. }
    destruct Hp as (p & Hp0 & Hp).
    destruct (Hrow 0%nat p Hp0) as (d' & Hd' & Hdec).
    inversion Hd'; subst d'.
    exists p, d. split; [exact Hp|split; [exact Hdec|]].
    intros k Hk.
    rewrite replace_rows_lookup_in by (rewrite ?length_replicate; lia).
    apply lookup_replicate_2. lia.
Qed.

Lemma section_step_packed_range_overrun_witness :
  HavokGeometry.section_step [0; 1; 2] [0] (replicate 5 None, [[0; 0; 0; 0]])
    {| HavokSection.domain_min := [F32.zero];
       HavokSection.domain_max := [F32.one];
       HavokSection.codec_params := {| min_xyz := [F32.zero]; scale_xyz := [F32.one] |};
       HavokSection.firstPackedVertexIndex := 1;
       HavokSection.firstSharedVertexIndex := 0;
       HavokSection.firstPrimitiveIndex := 0;
       HavokSection.numPackedVertices := 3;
       HavokSection.numPrimitives := 1;
       HavokSection.firstDataRunIndex := 0;
       HavokSection.numDataRuns := 0 |}
  = Raise ValueError.
Proof.
  set (sec := {| HavokSection.domain_min := [F32.zero];
                 HavokSection.domain_max := [F32.one];
                 HavokSection.codec_params :=
                   {| min_xyz := [F32.zero]; scale_xyz := [F32.one] |};
                 HavokSection.firstPackedVertexIndex := 1;
                 HavokSection.firstSharedVertexIndex := 0;
                 HavokSection.firstPrimitiveIndex := 0;
                 HavokSection.numPackedVertices := 3;
                 HavokSection.numPrimitives := 1;
                 HavokSection.firstDataRunIndex := 0;
                 HavokSection.numDataRuns := 0 |}).
  assert (Hshapes : codec_shapes_ok sec) by (repeat split; left; reflexivity).
  assert (Ha : 0 <= HavokSection.firstPackedVertexIndex sec < len [0; 1; 2])
    by (unfold len; simpl; lia).
  assert (Hb : len [0; 1; 2] < HavokSection.firstPackedVertexIndex sec
                               + HavokSection.numPackedVertices sec)
    by (unfold len; simpl; lia).
  apply (proj1 (section_step_packed_range_overrun [0; 1; 2] [0] (replicate 5 None)
                  [[0; 0; 0; 0]] sec 2 Hshapes Ha Hb eq_refl ltac:(lia))).
  unfold len. simpl. lia.
Defined.

(** ** A shared decode in a flat domain *)

Lemma sub_self_zero (x : spec_float) :
  is_finite x = true -> is_zero (F32.sub x x) = true.
Proof.
  destruct x as [s|s| |s m e]; try discriminate; intros _.
  - destruct s; reflexivity.
  - unfold F32.sub, SFsub. rewrite Z.min_id.
    unfold shl_align. rewrite Z.sub_diag. cbn [fst].
    destruct s; cbn [cond_Zopp negb]; rewrite ?Z.add_opp_diag_r, ?Z.add_opp_diag_l;
      reflexivity.
Qed.

Lemma mul_zero_r (f z : spec_float) :
  is_finite f = true -> is_zero z = true -> is_zero (F32.mul f z) = true.
Proof.
  destruct f as [sf|sf| |sf mf ef]; try discriminate;
    destruct z as [sz|sz| |sz mz ez]; try discriminate; reflexivity.
Qed.

Lemma add_zero_l (z x : spec_float) :
  is_zero z = true -> is_finite x = true -> F32.eqb (F32.add z x) x = true.
Proof.
  destruct z as [sz|sz| |sz mz ez]; try discriminate.
  destruct x as [sx|sx| |sx mx ex]; try discriminate; intros _ _.
  - destruct sz, sx; reflexivity.
  - cbn. unfold F32.eqb, SFeqb. rewrite SFcompare_refl by reflexivity. reflexivity.
Qed.

Lemma flat_axis (f lo : spec_float) :
  is_finite f = true -> is_finite lo = true ->
  F32.eqb (F32.add (F32.mul f (F32.sub lo lo)) lo) lo = true.
Proof.
  intros Hf Hlo. apply add_zero_l; [|exact Hlo].
  apply mul_zero_r; [exact Hf|]. apply sub_self_zero, Hlo.
Qed.

(** X27. On an axis where the geometry-wide domain is flat
    ([domain_max] equal to a finite [domain_min]) every shared vertex
    decodes to [domain_min] (numerically equal), whatever its field on
    that axis is. *)
Theorem unpack_shared_vertices_flat_axis
    (shared : list Z) (lo hi : Vertex) (r : nat) (s : Z) :
  shared !! r = Some s ->
  exists ds d,
    unpack_shared_vertices shared (vec lo) (vec hi) = Ok ds
    /\ ds !! r = Some d
    /\ (is_finite (vx lo) = true -> vx hi = vx lo ->
        F32.eqb (vx d) (vx lo) = true)
    /\ (is_finite (vy lo) = true -> vy hi = vy lo ->
        F32.eqb (vy d) (vy lo) = true)
    /\ (is_finite (vz lo) = true -> vz hi = vz lo ->
        F32.eqb (vz d) (vz lo) = true).
Proof.
  intros Hs.
  exists (map (fun s => decode_shared s lo hi) shared), (decode_shared s lo hi).
  split; [apply unpack_shared_three|].
  split; [rewrite list_lookup_fmap, Hs; reflexivity|].
  pose proof (shared_frac_bounds s) as Hb. unfold decode_shared.
  destruct (shared_frac s) as [[fx fy] fz].
  destruct Hb as (Bx & By & Bz).
  assert (Fx : is_finite fx = true)
    by (eapply inside_finite; [exact Bx|reflexivity|reflexivity]).
  assert (Fy : is_finite fy = true)
    by (eapply inside_finite; [exact By|reflexivity|reflexivity]).
  assert (Fz : is_finite fz = true)
    by (eapply inside_finite; [exact Bz|reflexivity|reflexivity]).
  destruct lo as [[lx ly] lz], hi as [[hx hy] hz].
  unfold vx, vy, vz. cbn [fst snd map3].
  repeat split; intros Hl ->; apply flat_axis; assumption.
Qed.

Lemma unpack_shared_vertices_flat_axis_witness :
  exists ds d,
    unpack_shared_vertices [0x1FFFFF; 0xFFFFFFFFFFFFFFFF] (vec ones) (vec ones) = Ok ds
    /\ ds !! 1%nat = Some d
    /\ F32.eqb (vx d) F32.one = true.
Proof.
  destruct (unpack_shared_vertices_flat_axis [0x1FFFFF; 0xFFFFFFFFFFFFFFFF]
              ones ones 1 0xFFFFFFFFFFFFFFFF eq_refl)
    as (ds & d & Hds & Hd & Hx & _).
  exists ds, d. split; [exact Hds|split; [exact Hd|]].
  apply Hx; reflexivity.
Defined.
